(** * automerge-repo: URL codec, network tagging, handle cache and collection
    synchronizer, embedded from the JavaScript sources under
    [packages/automerge-repo/dist].

    How the JavaScript is embedded:
    - a string is a [string] of 8-bit characters (the identifiers, URLs and
      message types of the package are ASCII); a [Uint8Array] is a
      [list byte]; a number that holds a counter is an [N] (exact below 2^53,
      where the two agree); a property that may be absent is an [option];
    - a plain object used as a dictionary is a [gmap string _].  A key that
      names a property of [Object.prototype] is outside the model; the two
      such names written in the base58 alphabet are not documentIds
      ([prototype_names_are_not_ids]), and the source of an ephemeral message
      contains a colon.  [Object.values] lists a dictionary in insertion
      order, the model in the order of [map_to_list]; no statement depends on
      the order;
    - a call returns a value or throws ([Result]); a method of the Repo is a
      state transformer over the fields of the Repo that keeps, on a throw,
      the changes made before it ([M]);
    - a DocHandle is an object with identity: the Repo holds a store of the
      handles constructed so far, and the cache and the synchronizers refer to
      a handle by its index in the store;
    - what a call does to the outside (events emitted, messages handed to an
      adapter, timers set, calls on other objects) is recorded in a trace;
    - a promise callback or a timer is a call of its own, made later;
    - the packages [bs58check] (over [base-x] and SHA-256) and [uuid] are
      external.  The first is embedded from its algorithm and checked on
      published vectors; the second is a parameter ([UuidPackage]), with a
      model of it for the examples;
    - the files of the package that are not among the sources ([DocHandle.js],
      [DocSynchronizer.js], [network/messages.js], [helpers/throttle.js]) are
      modelled from the specification, and each such definition says so. *)

From Stdlib Require Import NArith ZArith Lia List Ascii String Bool Sorted.
From Stdlib.Strings Require Import Byte.
From stdpp Require Import gmap strings list fin_maps.
Import ListNotations.

Local Open Scope N_scope.

(* ===================================================================== *)
(** ** SHA-256 (FIPS 180-4), the checksum function of the bs58check package *)
(* ===================================================================== *)

Module Sha256.

Definition w32 : N := 4294967296.

Definition add32 (a b : N) : N := (a + b) mod w32.

Definition rotr (n x : N) : N :=
  N.lor (N.shiftr x n) ((N.shiftl x (32 - n)) mod w32).

Definition not32 (x : N) : N := N.lxor x (w32 - 1).

Definition Ch (x y z : N) : N := N.lxor (N.land x y) (N.land (not32 x) z).
Definition Maj (x y z : N) : N :=
  N.lxor (N.lxor (N.land x y) (N.land x z)) (N.land y z).
Definition bigSigma0 (x : N) : N := N.lxor (N.lxor (rotr 2 x) (rotr 13 x)) (rotr 22 x).
Definition bigSigma1 (x : N) : N := N.lxor (N.lxor (rotr 6 x) (rotr 11 x)) (rotr 25 x).
Definition smallSigma0 (x : N) : N := N.lxor (N.lxor (rotr 7 x) (rotr 18 x)) (N.shiftr x 3).
Definition smallSigma1 (x : N) : N := N.lxor (N.lxor (rotr 17 x) (rotr 19 x)) (N.shiftr x 10).

(** The round constants and the initial hash value are "the first thirty-two
    bits of the fractional parts" of the cube roots of the first sixty-four
    primes, and of the square roots of the first eight. *)
Definition is_prime (n : nat) : bool :=
  Nat.leb 2 n && forallb (fun d => negb (Nat.eqb (Nat.modulo n d) 0)) (seq 2 (n - 2)).

Definition first_primes (k : nat) : list N :=
  map N.of_nat (firstn k (List.filter is_prime (seq 2 320))).

(** The integer cube root, one bit at a time from the top. *)
Fixpoint cube_root_bits (bits : nat) (n r : N) : N :=
  match bits with
  | O => r
  | S b =>
      let c := r + 2 ^ N.of_nat b in
      cube_root_bits b n (if c * c * c <=? n then c else r)
  end.

Definition frac_cube_root (p : N) : N := cube_root_bits 40 (p * 2 ^ 96) 0 mod w32.

Definition frac_square_root (p : N) : N := N.sqrt (p * 2 ^ 64) mod w32.

Definition K : list N := Eval vm_compute in map frac_cube_root (first_primes 64).

Definition H0 : list N := Eval vm_compute in map frac_square_root (first_primes 8).

(** Big-endian bytes of a 32-bit and of a 64-bit word. *)
Definition word_bytes (x : N) : list N :=
  [ (x / 16777216) mod 256; (x / 65536) mod 256; (x / 256) mod 256; x mod 256 ].

Definition len_bytes (x : N) : list N :=
  word_bytes ((x / w32) mod w32) ++ word_bytes (x mod w32).

(** The message followed by 0x80, zeros up to 56 mod 64, and the bit length. *)
Definition pad (msg : list N) : list N :=
  let l := N.of_nat (List.length msg) in
  let k := (64 - (l + 9) mod 64) mod 64 in
  msg ++ [128] ++ List.repeat 0 (N.to_nat k) ++ len_bytes (8 * l).

Fixpoint words (fuel : nat) (bs : list N) : list N :=
  match fuel, bs with
  | S f, b0 :: b1 :: b2 :: b3 :: rest =>
      (b0 * 16777216 + b1 * 65536 + b2 * 256 + b3) :: words f rest
  | _, _ => []
  end.

(** The message schedule: [acc] holds W(t-1), W(t-2), ... most recent first. *)
Fixpoint schedule (n : nat) (acc : list N) : list N :=
  match n with
  | O => acc
  | S n' =>
      let w2 := nth 1 acc 0 in
      let w7 := nth 6 acc 0 in
      let w15 := nth 14 acc 0 in
      let w16 := nth 15 acc 0 in
      let w := add32 (add32 (smallSigma1 w2) w7) (add32 (smallSigma0 w15) w16) in
      schedule n' (w :: acc)
  end.

Definition round (st : list N) (kw : N * N) : list N :=
  match st with
  | [a; b; c; d; e; f; g; h] =>
      let t1 := add32 (add32 (add32 h (bigSigma1 e)) (add32 (Ch e f g) (fst kw))) (snd kw) in
      let t2 := add32 (bigSigma0 a) (Maj a b c) in
      [add32 t1 t2; a; b; c; add32 d t1; e; f; g]
  | _ => st
  end.

Definition compress (h : list N) (block : list N) : list N :=
  let w := rev (schedule 48 (rev (words 16 block))) in
  let st := fold_left round (combine K w) h in
  map (fun p => add32 (fst p) (snd p)) (combine h st).

Fixpoint blocks (fuel : nat) (h : list N) (bs : list N) : list N :=
  match fuel with
  | O => h
  | S f =>
      match bs with
      | [] => h
      | _ => blocks f (compress h (firstn 64 bs)) (skipn 64 bs)
      end
  end.

Definition byte_of_N (n : N) : byte :=
  match Byte.of_N n with Some b => b | None => x00 end.

Definition sha256 (msg : list byte) : list byte :=
  let p := pad (map Byte.to_N msg) in
  let h := blocks (List.length p) H0 p in
  map byte_of_N (flat_map word_bytes h).

End Sha256.

(* ===================================================================== *)
(** ** JavaScript results: a call returns a value or throws *)
(* ===================================================================== *)

Inductive JsError : Type :=
| Error (msg : string)
| TypeError (msg : string).

Inductive Result (A : Type) : Type :=
| Returns (a : A)
| Throws (e : JsError).
Arguments Returns {A} a.
Arguments Throws {A} e.

Definition bindR {A B : Type} (r : Result A) (k : A -> Result B) : Result B :=
  match r with
  | Returns a => k a
  | Throws e => Throws e
  end.

Notation "'let*' x ':=' r 'in' k" := (bindR r (fun x => k))
  (at level 10, x pattern, r at level 100, k at level 200).

Definition returned {A : Type} (r : Result A) : bool :=
  match r with Returns _ => true | Throws _ => false end.

(* ===================================================================== *)
(** ** base-x with the base58 alphabet (package bs58)

    The package is an external dependency of [AutomergeUrl.js]; it is embedded
    here from its published algorithm.  The scratch buffer is a big-endian list
    of digits; base-x sizes it with a floating-point estimate of
    [log 256 / log 58], here it is sized as [2 * n] for encoding and [n] for
    decoding, which is never smaller.  A larger buffer only adds leading zero
    digits, and those are skipped before the result is built. *)
(* ===================================================================== *)

Module BaseX.

Definition ALPHABET : string :=
  "123456789ABCDEFGHJKLMNPQRSTUVWXYZabcdefghijkmnopqrstuvwxyz".
Definition BASE : N := 58.
Definition LEADER : ascii := "1"%char.

(** [ALPHABET.charAt(d)] *)
Definition charAt (d : N) : ascii :=
  match String.get (N.to_nat d) ALPHABET with
  | Some c => c
  | None => LEADER
  end.

Fixpoint index_from (c : ascii) (s : string) (i : N) : option N :=
  match s with
  | EmptyString => None
  | String x rest => if Ascii.eqb x c then Some i else index_from c rest (i + 1)
  end.

(** [BASE_MAP[c]]: the digit of a character; [None] stands for the entry 255
    of a character outside the alphabet. *)
Definition BASE_MAP (c : ascii) : option N := index_from c ALPHABET 0.

(** The inner [for] loop, "buf = buf * mul + carry" in base [base], run over
    the whole buffer from its last digit to its first; returns the buffer and
    the carry that is left. *)
Fixpoint mul_add (base mul : N) (buf : list N) (carry : N) : list N * N :=
  match buf with
  | [] => ([], carry)
  | d :: ds =>
      let '(ds', c) := mul_add base mul ds carry in
      let c' := c + mul * d in
      ((c' mod base) :: ds', c' / base)
  end.

Fixpoint skip_zeroes (buf : list N) : list N :=
  match buf with
  | 0 :: rest => skip_zeroes rest
  | _ => buf
  end.

Fixpoint count_zeroes (buf : list N) : nat :=
  match buf with
  | 0 :: rest => S (count_zeroes rest)
  | _ => O
  end.

(** The [while (pbegin !== pend)] loop of [encode]. *)
Fixpoint encode_loop (src : list N) (b58 : list N) : Result (list N) :=
  match src with
  | [] => Returns b58
  | ch :: rest =>
      let '(b58', carry) := mul_add BASE 256 b58 ch in
      if carry =? 0 then encode_loop rest b58'
      else Throws (Error "Non-zero carry")
  end.

Definition encode (source : list byte) : Result string :=
  let src := map Byte.to_N source in
  let zeroes := count_zeroes src in
  let rest := skip_zeroes src in
  let size := (2 * List.length rest)%nat in
  let* b58 := encode_loop rest (List.repeat 0 size) in
  Returns (string_of_list_ascii
             (List.repeat LEADER zeroes ++ map charAt (skip_zeroes b58))).

Fixpoint skip_leader (cs : list ascii) : list ascii :=
  match cs with
  | c :: rest => if Ascii.eqb c LEADER then skip_leader rest else cs
  | [] => []
  end.

Fixpoint count_leader (cs : list ascii) : nat :=
  match cs with
  | c :: rest => if Ascii.eqb c LEADER then S (count_leader rest) else O
  | [] => O
  end.

(** The [while (source[psz])] loop of [decodeUnsafe]: [Returns None] is the
    bare [return] on an invalid character. *)
Fixpoint decode_loop (src : list ascii) (b256 : list N) : Result (option (list N)) :=
  match src with
  | [] => Returns (Some b256)
  | c :: rest =>
      match BASE_MAP c with
      | None => Returns None
      | Some d =>
          let '(b256', carry) := mul_add 256 BASE b256 d in
          if carry =? 0 then decode_loop rest b256'
          else Throws (Error "Non-zero carry")
      end
  end.

Definition decodeUnsafe (source : string) : Result (option (list byte)) :=
  let cs := list_ascii_of_string source in
  let zeroes := count_leader cs in
  let rest := skip_leader cs in
  let size := List.length rest in
  let* r := decode_loop rest (List.repeat 0 size) in
  match r with
  | None => Returns None
  | Some b256 =>
      Returns (Some (map Sha256.byte_of_N (List.repeat 0 zeroes ++ skip_zeroes b256)))
  end.

End BaseX.

(* ===================================================================== *)
(** ** bs58check: base58 with a four-byte double SHA-256 checksum *)
(* ===================================================================== *)

Module Bs58check.

Definition checksumFn (buffer : list byte) : list byte :=
  Sha256.sha256 (Sha256.sha256 buffer).

(** [checksum[i] ^ newChecksum[i]]; a missing element reads as [undefined],
    which the bit operators take as 0. *)
Definition xor_at (i : nat) (a b : list byte) : N :=
  N.lxor (Byte.to_N (nth i a x00)) (Byte.to_N (nth i b x00)).

Definition encode (payload : list byte) : Result string :=
  BaseX.encode (payload ++ firstn 4 (checksumFn payload)).

Definition decodeRaw (buffer : list byte) : option (list byte) :=
  let n := List.length buffer in
  let payload := firstn (n - 4) buffer in
  let checksum := skipn (n - 4) buffer in
  let newChecksum := checksumFn payload in
  if N.lor (N.lor (N.lor (xor_at 0 checksum newChecksum)
                         (xor_at 1 checksum newChecksum))
                  (xor_at 2 checksum newChecksum))
           (xor_at 3 checksum newChecksum) =? 0
  then Some payload
  else None.

Definition decodeUnsafe (s : string) : Result (option (list byte)) :=
  let* buffer := BaseX.decodeUnsafe s in
  match buffer with
  | None => Returns None
  | Some buffer => Returns (decodeRaw buffer)
  end.

End Bs58check.

(* ===================================================================== *)
(** ** The uuid package, an external dependency, taken as an interface *)
(* ===================================================================== *)

Class UuidPackage : Type := {
  (** [Uuid.stringify(bytes)]: the hyphenated form, or a [TypeError] when the
      bytes do not make a valid UUID. *)
  uuid_stringify : list byte -> Result string;
  (** [Uuid.validate(str)] *)
  uuid_validate : string -> bool;
  (** [Uuid.parse(str)] *)
  uuid_parse : string -> Result (list byte)
}.

(* ===================================================================== *)
(** ** AutomergeUrl.js *)
(* ===================================================================== *)

Module AutomergeUrl.

Definition urlPrefix : string := "automerge:".

(** A value that is a [Uint8Array] or a string. *)
Inductive IdValue : Type :=
| VBinary (b : list byte)
| VString (s : string).

(** The argument of [stringifyAutomergeUrl]: a documentId in either form, or
    an options object, whose [documentId] property may be missing. *)
Inductive UrlArg : Type :=
| ArgValue (v : IdValue)
| ArgObject (documentId : option IdValue).

Record ParsedUrl : Type := {
  binaryDocumentId : list byte;
  documentId : string
}.

(** The class [\w] of a regular expression without flags. *)
Definition is_word_char (c : ascii) : bool :=
  let n := N_of_ascii c in
  ((48 <=? n) && (n <=? 57)) || ((65 <=? n) && (n <=? 90))
  || ((97 <=? n) && (n <=? 122)) || (n =? 95).

Fixpoint strip_prefix (p s : string) : option string :=
  match p with
  | EmptyString => Some s
  | String c p' =>
      match s with
      | String d s' => if Ascii.eqb c d then strip_prefix p' s' else None
      | EmptyString => None
      end
  end.

(** [url.match(new RegExp("^automerge:(\\w+)$"))]: the first group of the
    match, if the whole string matches. *)
Definition url_match (url : string) : option string :=
  match strip_prefix urlPrefix url with
  | Some rest =>
      match list_ascii_of_string rest with
      | [] => None
      | cs => if forallb is_word_char cs then Some rest else None
      end
  | None => None
  end.

(** [bs58check.decodeUnsafe(docId)]; base-x throws on an argument that is not
    a string. *)
Definition documentIdToBinary (docId : option string) : Result (option (list byte)) :=
  match docId with
  | None => Throws (TypeError "Expected String")
  | Some s => Bs58check.decodeUnsafe s
  end.

Definition binaryToDocumentId (docId : list byte) : Result string :=
  Bs58check.encode docId.

Definition parseAutomergeUrl (url : string) : Result ParsedUrl :=
  let docMatch := url_match url in
  let* bin := documentIdToBinary docMatch in
  match bin, docMatch with
  | Some b, Some d => Returns {| binaryDocumentId := b; documentId := d |}
  | _, _ => Throws (Error ("Invalid document URL: " +:+ url))
  end.

Definition stringifyAutomergeUrl (arg : UrlArg) : Result string :=
  let documentId :=
    match arg with
    | ArgValue v => Some v
    | ArgObject d => d
    end in
  let* encodedDocumentId :=
    match documentId with
    | Some (VBinary b) => let* e := binaryToDocumentId b in Returns (Some e)
    | Some (VString s) => Returns (Some s)
    | None => Returns None
    end in
  match encodedDocumentId with
  | None => Throws (Error "Invalid documentId: undefined")
  | Some e => Returns (urlPrefix +:+ e)
  end.

Section WithUuid.
Context `{UuidPackage}.

Definition isValidDocumentId (str : IdValue) : Result bool :=
  match str with
  | VBinary _ => Returns false
  | VString s =>
      let* binaryDocumentID := documentIdToBinary (Some s) in
      match binaryDocumentID with
      | None => Returns false
      | Some b =>
          let* documentId := uuid_stringify b in
          Returns (uuid_validate documentId)
      end
  end.

(** The [try] block turns every throw into [false]. *)
Definition isValidAutomergeUrl (str : IdValue) : bool :=
  match str with
  | VBinary _ => false
  | VString s =>
      if String.eqb s "" || negb (String.prefix urlPrefix s) then false
      else
        match (let* p := parseAutomergeUrl s in
               isValidDocumentId (VString (documentId p))) with
        | Returns b => b
        | Throws _ => false
        end
  end.

Definition isValidUuid (str : IdValue) : bool :=
  match str with
  | VBinary _ => false
  | VString s => uuid_validate s
  end.

(** [generateAutomergeUrl()], with the sixteen bytes that [Uuid.v4] drew. *)
Definition generateAutomergeUrl (v4 : list byte) : Result string :=
  stringifyAutomergeUrl (ArgObject (Some (VBinary v4))).

Definition interpretAsDocumentId (id : IdValue) : Result string :=
  match id with
  | VBinary b => binaryToDocumentId b
  | VString s =>
      if isValidAutomergeUrl id then
        let* p := parseAutomergeUrl s in Returns (documentId p)
      else
        let* v := isValidDocumentId id in
        if v then Returns s
        else if isValidUuid id then
          let* binaryDocumentID := uuid_parse s in
          binaryToDocumentId binaryDocumentID
        else Throws (Error ("Invalid AutomergeUrl: '" +:+ s +:+ "'"))
  end.

(** [parseLegacyUUID(str)]; [None] is [undefined]. *)
Definition parseLegacyUUID (str : string) : Result (option string) :=
  if negb (uuid_validate str) then Returns None
  else
    let* documentId := uuid_parse str in
    let* url := stringifyAutomergeUrl (ArgObject (Some (VBinary documentId))) in
    Returns (Some url).

End WithUuid.

End AutomergeUrl.

(* ===================================================================== *)
(** ** Helpers for the statements: digit values and hexadecimal text *)
(* ===================================================================== *)

(** The number a big-endian list of digits stands for. *)
Fixpoint value (base : N) (buf : list N) : N :=
  match buf with
  | [] => 0
  | d :: ds => d * base ^ N.of_nat (List.length ds) + value base ds
  end.

(** Every digit is below the base. *)
Definition digits_ok (base : N) (buf : list N) : Prop := Forall (fun d => d < base) buf.

Definition hexdigit (n : N) : ascii :=
  nth (N.to_nat n) (list_ascii_of_string "0123456789abcdef") "0"%char.

Definition hex (bs : list byte) : string :=
  string_of_list_ascii
    (flat_map (fun b => [hexdigit (Byte.to_N b / 16); hexdigit (Byte.to_N b mod 16)]) bs).

Definition unhex1 (c : ascii) : N :=
  match BaseX.index_from c "0123456789abcdef" 0 with Some n => n | None => 0 end.

Fixpoint unhex_list (cs : list ascii) : list byte :=
  match cs with
  | a :: b :: r => Sha256.byte_of_N (16 * unhex1 a + unhex1 b) :: unhex_list r
  | _ => []
  end.

Definition unhex (s : string) : list byte := unhex_list (list_ascii_of_string s).

(* ===================================================================== *)
(** ** Identifiers and messages *)
(* ===================================================================== *)

Abbreviation PeerId := string (only parsing).
Abbreviation DocumentId := string (only parsing).
Abbreviation StorageId := string (only parsing).
Abbreviation SessionId := string (only parsing).

(** [{ storageId?, isEphemeral? }] *)
Record PeerMetadata : Type := {
  storageId : option StorageId;
  isEphemeral : option bool
}.

(** [!storageId || isEphemeral], with the two properties read from the
    metadata of a peer, or from [{}] when the peer has none: the test of
    [#saveSyncState] and of [onLoadSyncState]. *)
Definition not_persisted (meta : option PeerMetadata) : bool :=
  match meta with
  | None => true
  | Some m =>
      match storageId m with
      | None => true
      | Some s => String.eqb s ""
      end
      || match isEphemeral m with Some b => b | None => false end
  end.

(** A message object.  A property that is absent (or [undefined]) is [None];
    [count] is absent on an ephemeral message this peer originates and present
    on one that came from the network. *)
Record Message : Type := {
  type : string;
  senderId : option PeerId;
  targetId : PeerId;
  documentId : option DocumentId;
  count : option N;
  sessionId : option SessionId;
  data : option (list byte)
}.

(** Modelled from the spec: [network/messages.js] is not among the sources;
    the wire types are those of the spec's section 6, and an ephemeral message is one
    whose type is "ephemeral". *)
Definition isEphemeralMessage (msg : Message) : bool :=
  String.eqb (type msg) "ephemeral".

Definition isRepoMessage (msg : Message) : bool :=
  existsb (String.eqb (type msg))
    [ "sync"; "ephemeral"; "request"; "doc-unavailable";
      "remote-subscription-change"; "remote-heads-changed" ].

(* ===================================================================== *)
(** ** network/NetworkSubsystem.js *)
(* ===================================================================== *)

Module Network.

Abbreviation AdapterRef := nat (only parsing).

Record NetworkSubsystem : Type := {
  peerId : PeerId;
  adaptersByPeer : gmap PeerId AdapterRef;
  count_ : N;
  sessionId_ : SessionId;
  ephemeralSessionCounts : gmap string N;
  adapters : list AdapterRef
}.

(** What a call does to the outside: an event emitted to the listeners of the
    subsystem, or a message handed to an adapter. *)
Inductive Effect : Type :=
| EmitPeer (peer : PeerId) (meta : option PeerMetadata)
| EmitPeerDisconnected (peer : PeerId)
| EmitMessage (msg : Message)
| AdapterSend (adapter : AdapterRef) (msg : Message).

(** A template literal prints a missing property as "undefined". *)
Definition template (o : option string) : string :=
  match o with Some s => s | None => "undefined" end.

Definition getEphemeralMessageSource (message : Message) : string :=
  template (senderId message) +:+ ":" +:+ template (sessionId message).

Definition constructor (peer : PeerId) (session : SessionId) : NetworkSubsystem :=
  {| peerId := peer; adaptersByPeer := ∅; count_ := 0; sessionId_ := session;
     ephemeralSessionCounts := ∅; adapters := [] |}.

Definition set_adaptersByPeer (m : gmap PeerId AdapterRef) (ns : NetworkSubsystem) :=
  {| peerId := peerId ns; adaptersByPeer := m; count_ := count_ ns;
     sessionId_ := sessionId_ ns; ephemeralSessionCounts := ephemeralSessionCounts ns;
     adapters := adapters ns |}.

Definition set_ephemeralSessionCounts (m : gmap string N) (ns : NetworkSubsystem) :=
  {| peerId := peerId ns; adaptersByPeer := adaptersByPeer ns; count_ := count_ ns;
     sessionId_ := sessionId_ ns; ephemeralSessionCounts := m;
     adapters := adapters ns |}.

Definition set_count (c : N) (ns : NetworkSubsystem) :=
  {| peerId := peerId ns; adaptersByPeer := adaptersByPeer ns; count_ := c;
     sessionId_ := sessionId_ ns; ephemeralSessionCounts := ephemeralSessionCounts ns;
     adapters := adapters ns |}.

(** The listener of an adapter's "peer-candidate". *)
Definition on_peer_candidate (networkAdapter : AdapterRef) (peer : PeerId)
    (meta : option PeerMetadata) (ns : NetworkSubsystem) : NetworkSubsystem * list Effect :=
  let ns' :=
    match adaptersByPeer ns !! peer with
    | None => set_adaptersByPeer (<[peer := networkAdapter]> (adaptersByPeer ns)) ns
    | Some _ => ns
    end in
  (ns', [EmitPeer peer meta]).

(** The listener of an adapter's "peer-disconnected". *)
Definition on_peer_disconnected (peer : PeerId) (ns : NetworkSubsystem)
  : NetworkSubsystem * list Effect :=
  (set_adaptersByPeer (delete peer (adaptersByPeer ns)) ns, [EmitPeerDisconnected peer]).

(** [msg.count > last]: a comparison with [undefined] is false. *)
Definition count_gt (c : option N) (last : N) : bool :=
  match c with Some c => last <? c | None => false end.

(** [counts[source] = msg.count]: storing [undefined] leaves a property that
    reads as [undefined], as a missing one does. *)
Definition store_count (source : string) (c : option N) (m : gmap string N) : gmap string N :=
  match c with Some c => <[source := c]> m | None => delete source m end.

(** The listener of an adapter's "message". *)
Definition on_message (msg : Message) (ns : NetworkSubsystem)
  : NetworkSubsystem * list Effect :=
  if negb (isRepoMessage msg) then (ns, [])
  else if isEphemeralMessage msg then
    let source := getEphemeralMessageSource msg in
    if match ephemeralSessionCounts ns !! source with
       | None => true
       | Some last => count_gt (count msg) last
       end
    then (set_ephemeralSessionCounts
            (store_count source (count msg) (ephemeralSessionCounts ns)) ns,
          [EmitMessage msg])
    else (ns, [])
  else (ns, [EmitMessage msg]).

(** The listener of an adapter's "close". *)
Definition on_close (networkAdapter : AdapterRef) (ns : NetworkSubsystem) : NetworkSubsystem :=
  set_adaptersByPeer
    (filter (fun kv : PeerId * AdapterRef => kv.2 ≠ networkAdapter) (adaptersByPeer ns)) ns.

Definition prepareMessage (message : Message) (ns : NetworkSubsystem)
  : NetworkSubsystem * Message :=
  if String.eqb (type message) "ephemeral" then
    match count message with
    | Some _ => (ns, message)
    | None =>
        let c := count_ ns + 1 in
        (set_count c ns,
         {| type := type message; senderId := Some (peerId ns);
            targetId := targetId message; documentId := documentId message;
            count := Some c; sessionId := Some (sessionId_ ns);
            data := data message |})
    end
  else
    (ns,
     {| type := type message; senderId := Some (peerId ns);
        targetId := targetId message; documentId := documentId message;
        count := count message; sessionId := sessionId message;
        data := data message |}).

Definition send (message : Message) (ns : NetworkSubsystem)
  : NetworkSubsystem * list Effect :=
  match adaptersByPeer ns !! targetId message with
  | None => (ns, [])
  | Some peer =>
      let '(ns', outbound) := prepareMessage message ns in
      (ns', [AdapterSend peer outbound])
  end.

(** Inbound messages delivered one after the other. *)
Fixpoint receive_all (msgs : list Message) (ns : NetworkSubsystem)
  : NetworkSubsystem * list Effect :=
  match msgs with
  | [] => (ns, [])
  | m :: rest =>
      let '(ns1, e1) := on_message m ns in
      let '(ns2, e2) := receive_all rest ns1 in
      (ns2, e1 ++ e2)
  end.

(** Successive calls of [send]; each message is kept with what the call did. *)
Fixpoint send_all (msgs : list Message) (ns : NetworkSubsystem)
  : NetworkSubsystem * list (Message * list Effect) :=
  match msgs with
  | [] => (ns, [])
  | m :: rest =>
      let '(ns1, e1) := send m ns in
      let '(ns2, log) := send_all rest ns1 in
      (ns2, (m, e1) :: log)
  end.

End Network.

(* ===================================================================== *)
(** ** The CRDT engine, an external library: documents as the calls that
       made them *)
(* ===================================================================== *)

(** An initial value: an object, as the names and printed values of its
    properties.  An object is truthy, so [if (initialValue)] tests whether the
    argument was given. *)
Definition InitialValue : Type := list (string * string).

Definition Heads : Type := list string.

Inductive Doc : Type :=
| Automerge_init
| Automerge_from (initialValue : InitialValue)
| Automerge_emptyChange (d : Doc)
| Automerge_clone (d : Doc)
| Automerge_load (binary : list byte).

(** [{ theirHeads, ... }]: the one property of a sync state the Repo reads. *)
Record SyncState : Type := {
  theirHeads : option Heads;
  encoded : list byte
}.

(* ===================================================================== *)
(** ** DocHandle *)
(* ===================================================================== *)

Inductive HandleState : Type :=
| IDLE | LOADING | REQUESTING | READY | UNLOADED | DELETED | UNAVAILABLE.

Global Instance HandleState_eq_dec : EqDecision HandleState.
Proof. solve_decision. Defined.

(** Modelled from the spec: [DocHandle.js] is not among the sources (only its
    declarations, [DocHandle.d.ts], are).  The state machine is the one of the
    spec's section 4.1: the initial state is IDLE; loading begins at once, so
    that a handle made by [find] is "a new handle in LOADING"; [doneLoading]
    is the transition to READY of a handle that was created locally, found in
    storage or received from a peer; [delete] leads to DELETED from any state;
    [update] replaces the document and "does not cause state changes". *)
Module Handle.

Record DocHandle : Type := {
  documentId : DocumentId;
  state : HandleState;
  doc : option Doc;
  remoteHeads : gmap StorageId Heads
}.

Definition with_state (s : HandleState) (h : DocHandle) : DocHandle :=
  {| documentId := documentId h; state := s; doc := doc h; remoteHeads := remoteHeads h |}.

Definition idle (id : DocumentId) : DocHandle :=
  {| documentId := id; state := IDLE; doc := None; remoteHeads := ∅ |}.

Definition begin (h : DocHandle) : DocHandle :=
  match state h with
  | IDLE => with_state LOADING h
  | _ => h
  end.

(** [new DocHandle(documentId)] *)
Definition constructor (id : DocumentId) : DocHandle := begin (idle id).

Definition update (callback : option Doc -> Doc) (h : DocHandle) : DocHandle :=
  {| documentId := documentId h; state := state h; doc := Some (callback (doc h));
     remoteHeads := remoteHeads h |}.

Definition doneLoading (h : DocHandle) : DocHandle :=
  match state h with
  | IDLE | LOADING | REQUESTING | UNAVAILABLE => with_state READY h
  | READY | UNLOADED | DELETED => h
  end.

Definition request (h : DocHandle) : DocHandle :=
  match state h with
  | LOADING => with_state REQUESTING h
  | _ => h
  end.

Definition unavailable (h : DocHandle) : DocHandle :=
  match state h with
  | REQUESTING => with_state UNAVAILABLE h
  | _ => h
  end.

Definition unload (h : DocHandle) : DocHandle :=
  match state h with
  | READY | UNAVAILABLE => with_state UNLOADED h
  | _ => h
  end.

Definition reload (h : DocHandle) : DocHandle :=
  match state h with
  | UNLOADED => with_state (match doc h with Some _ => READY | None => LOADING end) h
  | _ => h
  end.

Definition delete (h : DocHandle) : DocHandle := with_state DELETED h.

Definition inState (states : list HandleState) (h : DocHandle) : bool :=
  bool_decide (state h ∈ states).

Definition isReady (h : DocHandle) : bool := inState [READY] h.
Definition isUnloaded (h : DocHandle) : bool := inState [UNLOADED] h.
Definition isDeleted (h : DocHandle) : bool := inState [DELETED] h.
Definition isUnavailable (h : DocHandle) : bool := inState [UNAVAILABLE] h.

Definition docSync (h : DocHandle) : option Doc :=
  if isReady h then doc h else None.

Definition getRemoteHeads (storage : StorageId) (h : DocHandle) : option Heads :=
  remoteHeads h !! storage.

Definition setRemoteHeads (storage : StorageId) (heads : Heads) (h : DocHandle) : DocHandle :=
  {| documentId := documentId h; state := state h; doc := doc h;
     remoteHeads := <[storage := heads]> (remoteHeads h) |}.

End Handle.

(** A reference to a DocHandle object: its index in the store of the handles
    created so far.  Two references are the same object when they are equal. *)
Abbreviation HandleRef := nat (only parsing).

(* ===================================================================== *)
(** ** The state of a Repo and of its collection synchronizer *)
(* ===================================================================== *)

(** The payload of a "sync-state" event. *)
Record SyncStatePayload : Type := {
  sp_documentId : DocumentId;
  sp_peerId : PeerId;
  sp_syncState : SyncState
}.

(** The requests made to the storage subsystem, latest first. *)
Inductive StorageRequest : Type :=
| LoadDoc (id : DocumentId)
| SaveDoc (id : DocumentId) (d : Doc)
| RemoveDoc (id : DocumentId)
| LoadSyncState (id : DocumentId) (storage : StorageId)
| SaveSyncState (id : DocumentId) (storage : StorageId) (s : SyncState).

Record StorageSubsystem : Type := {
  requests : list StorageRequest
}.

(** Modelled from the spec: [synchronizer/DocSynchronizer.js] is not among
    the sources (only its declarations are).  A synchronizer holds its handle and the
    peers it syncs with: [beginSync] adds the peers it does not know yet,
    [endSync] drops one, [hasPeer] reports membership. *)
Record DocSynchronizer : Type := {
  ds_handle : HandleRef;
  ds_documentId : DocumentId;
  ds_peers : list PeerId
}.

Record CollectionSynchronizer : Type := {
  peers : list PeerId;
  docSynchronizers : gmap DocumentId DocSynchronizer;
  docSetUp : gmap DocumentId bool
}.

(** What the Repo and its synchronizer do to the outside, latest first: events
    emitted, calls on DocSynchronizer and DocHandle objects, timers, warnings. *)
Inductive RepoEffect : Type :=
| EmitDocument (handle : HandleRef)
| EmitDeleteDocument (id : DocumentId)
| HandleEmit (handle : HandleRef) (event : string)
| HandleOn (handle : HandleRef) (event : string)
| AttemptLoad (handle : HandleRef)
| SetTimeoutUnavailable (id : DocumentId)
| NewDocSynchronizer (id : DocumentId) (handle : HandleRef)
| DocSynchronizer_receiveMessage (id : DocumentId) (msg : Message)
| DocSynchronizer_beginSync (id : DocumentId) (peerIds : list PeerId)
| DocSynchronizer_endSync (id : DocumentId) (peer : PeerId)
| RemoteHeadsChanged (id : DocumentId) (storage : StorageId) (heads : Heads)
| LogWarn (text : string).

Record Repo : Type := {
  handleCache : gmap DocumentId HandleRef;
  handles : list Handle.DocHandle;
  storageSubsystem : option StorageSubsystem;
  peerMetadataByPeerId : gmap PeerId PeerMetadata;
  throttledSaveSyncStateHandlers : gmap StorageId (option SyncStatePayload);
  sharePolicy : PeerId -> option DocumentId -> bool;
  remoteHeadsGossipingEnabled : bool;
  synchronizer : CollectionSynchronizer;
  trace : list RepoEffect
}.

(* ===================================================================== *)
(** ** Calls on a Repo: a state transformer that returns or throws

    A call that throws keeps the changes it made before the throw. *)
(* ===================================================================== *)

Definition M (A : Type) : Type := Repo -> Result A * Repo.

Definition ret {A : Type} (a : A) : M A := fun r => (Returns a, r).

Definition bindM {A B : Type} (m : M A) (k : A -> M B) : M B :=
  fun r =>
    match m r with
    | (Returns a, r') => k a r'
    | (Throws e, r') => (Throws e, r')
    end.

Notation "'let!' x ':=' m 'in' k" := (bindM m (fun x => k))
  (at level 10, x pattern, m at level 100, k at level 200).

Definition throw {A : Type} (e : JsError) : M A := fun r => (Throws e, r).

Definition liftR {A : Type} (x : Result A) : M A := fun r => (x, r).

Definition gets {A : Type} (f : Repo -> A) : M A := fun r => (Returns (f r), r).

Definition modify (f : Repo -> Repo) : M unit := fun r => (Returns tt, f r).

Definition when (b : bool) (m : M unit) : M unit := if b then m else ret tt.

(** [promise.catch(err => log(...))]: a throw is logged and goes no further. *)
Definition catch_log (m : M unit) : M unit :=
  fun r =>
    match m r with
    | (Returns a, r') => (Returns a, r')
    | (Throws _, r') => (Returns tt, r')
    end.

Definition set_handleCache (c : gmap DocumentId HandleRef) (r : Repo) : Repo :=
  {| handleCache := c; handles := handles r; storageSubsystem := storageSubsystem r;
     peerMetadataByPeerId := peerMetadataByPeerId r;
     throttledSaveSyncStateHandlers := throttledSaveSyncStateHandlers r;
     sharePolicy := sharePolicy r;
     remoteHeadsGossipingEnabled := remoteHeadsGossipingEnabled r;
     synchronizer := synchronizer r; trace := trace r |}.

Definition set_handles (hs : list Handle.DocHandle) (r : Repo) : Repo :=
  {| handleCache := handleCache r; handles := hs; storageSubsystem := storageSubsystem r;
     peerMetadataByPeerId := peerMetadataByPeerId r;
     throttledSaveSyncStateHandlers := throttledSaveSyncStateHandlers r;
     sharePolicy := sharePolicy r;
     remoteHeadsGossipingEnabled := remoteHeadsGossipingEnabled r;
     synchronizer := synchronizer r; trace := trace r |}.

Definition set_storageSubsystem (st : option StorageSubsystem) (r : Repo) : Repo :=
  {| handleCache := handleCache r; handles := handles r; storageSubsystem := st;
     peerMetadataByPeerId := peerMetadataByPeerId r;
     throttledSaveSyncStateHandlers := throttledSaveSyncStateHandlers r;
     sharePolicy := sharePolicy r;
     remoteHeadsGossipingEnabled := remoteHeadsGossipingEnabled r;
     synchronizer := synchronizer r; trace := trace r |}.

Definition set_peerMetadataByPeerId (m : gmap PeerId PeerMetadata) (r : Repo) : Repo :=
  {| handleCache := handleCache r; handles := handles r; storageSubsystem := storageSubsystem r;
     peerMetadataByPeerId := m;
     throttledSaveSyncStateHandlers := throttledSaveSyncStateHandlers r;
     sharePolicy := sharePolicy r;
     remoteHeadsGossipingEnabled := remoteHeadsGossipingEnabled r;
     synchronizer := synchronizer r; trace := trace r |}.

Definition set_throttledSaveSyncStateHandlers (m : gmap StorageId (option SyncStatePayload))
    (r : Repo) : Repo :=
  {| handleCache := handleCache r; handles := handles r; storageSubsystem := storageSubsystem r;
     peerMetadataByPeerId := peerMetadataByPeerId r;
     throttledSaveSyncStateHandlers := m;
     sharePolicy := sharePolicy r;
     remoteHeadsGossipingEnabled := remoteHeadsGossipingEnabled r;
     synchronizer := synchronizer r; trace := trace r |}.

Definition set_synchronizer (c : CollectionSynchronizer) (r : Repo) : Repo :=
  {| handleCache := handleCache r; handles := handles r; storageSubsystem := storageSubsystem r;
     peerMetadataByPeerId := peerMetadataByPeerId r;
     throttledSaveSyncStateHandlers := throttledSaveSyncStateHandlers r;
     sharePolicy := sharePolicy r;
     remoteHeadsGossipingEnabled := remoteHeadsGossipingEnabled r;
     synchronizer := c; trace := trace r |}.

Definition set_trace (t : list RepoEffect) (r : Repo) : Repo :=
  {| handleCache := handleCache r; handles := handles r; storageSubsystem := storageSubsystem r;
     peerMetadataByPeerId := peerMetadataByPeerId r;
     throttledSaveSyncStateHandlers := throttledSaveSyncStateHandlers r;
     sharePolicy := sharePolicy r;
     remoteHeadsGossipingEnabled := remoteHeadsGossipingEnabled r;
     synchronizer := synchronizer r; trace := t |}.

Definition set_peers (ps : list PeerId) (c : CollectionSynchronizer) : CollectionSynchronizer :=
  {| peers := ps; docSynchronizers := docSynchronizers c; docSetUp := docSetUp c |}.

Definition set_docSynchronizers (m : gmap DocumentId DocSynchronizer)
    (c : CollectionSynchronizer) : CollectionSynchronizer :=
  {| peers := peers c; docSynchronizers := m; docSetUp := docSetUp c |}.

Definition set_docSetUp (m : gmap DocumentId bool) (c : CollectionSynchronizer)
  : CollectionSynchronizer :=
  {| peers := peers c; docSynchronizers := docSynchronizers c; docSetUp := m |}.

Definition effect (e : RepoEffect) : M unit :=
  modify (fun r => set_trace (e :: trace r) r).

(** A request to the storage subsystem. *)
Definition storage_request (q : StorageRequest) (st : StorageSubsystem) : StorageSubsystem :=
  {| requests := q :: requests st |}.

(** A method of a handle that changes the handle. *)
Definition handle_call (h : HandleRef) (f : Handle.DocHandle -> Handle.DocHandle) : M unit :=
  modify (fun r => set_handles (alter f h (handles r)) r).

(** A method of a handle that reads it. *)
Definition handle_get {A : Type} (h : HandleRef) (f : Handle.DocHandle -> A) : M A :=
  fun r =>
    match handles r !! h with
    | Some d => (Returns (f d), r)
    | None => (Throws (TypeError "Cannot read properties of undefined"), r)
    end.

(* ===================================================================== *)
(** ** Repo.js and synchronizer/CollectionSynchronizer.js

    The two classes call each other ([#fetchDocSynchronizer] calls
    [repo.find], [#registerHandleWithSubsystems] calls
    [synchronizer.addDocument]), so their methods are listed together, each
    under the name of its class.  A promise callback is a call of its own
    ([Repo_find_then], [Repo_removeFromCache_then], [Repo_throttle_fire]) that
    the scheduler makes later; the calls that the synchronizer makes after an
    [await] on the share policy are made at once, the share policy being a
    pure function of its arguments. *)
(* ===================================================================== *)

Section RepoMethods.
Context `{UuidPackage}.

(** [new Repo({ storage, sharePolicy, enableRemoteHeadsGossiping })] *)
Definition Repo_constructor (storage : bool) (policy : option (PeerId -> option DocumentId -> bool))
    (enableRemoteHeadsGossiping : bool) : Repo :=
  {| handleCache := ∅; handles := [];
     storageSubsystem := if storage then Some {| requests := [] |} else None;
     peerMetadataByPeerId := ∅;
     throttledSaveSyncStateHandlers := ∅;
     sharePolicy := match policy with Some p => p | None => fun _ _ => true end;
     remoteHeadsGossipingEnabled := enableRemoteHeadsGossiping;
     synchronizer := {| peers := []; docSynchronizers := ∅; docSetUp := ∅ |};
     trace := [] |}.

(** [#getHandle({ documentId })]: the one place where a DocHandle is made. *)
Definition Repo_getHandle (documentId : DocumentId) : M HandleRef :=
  let! cached := gets (fun r => handleCache r !! documentId) in
  match cached with
  | Some handle => ret handle
  | None =>
      if String.eqb documentId ""
      then throw (Error ("Invalid documentId " +:+ documentId))
      else
        let! handle := gets (fun r => List.length (handles r)) in
        let! _ := modify (fun r => set_handles (handles r ++ [Handle.constructor documentId]) r) in
        let! _ := modify (fun r => set_handleCache (<[documentId := handle]> (handleCache r)) r) in
        ret handle
  end.

(** [find(id)], up to the [return]; the callback of [attemptLoad] is
    [Repo_find_then]. *)
Definition Repo_find (id : AutomergeUrl.IdValue) : M HandleRef :=
  let! documentId := liftR (AutomergeUrl.interpretAsDocumentId id) in
  let! cached := gets (fun r => handleCache r !! documentId) in
  match cached with
  | Some handle =>
      let! unavailable := handle_get handle Handle.isUnavailable in
      let! _ := when unavailable (effect (SetTimeoutUnavailable documentId)) in
      ret handle
  | None =>
      let! handle := Repo_getHandle documentId in
      let! _ := modify (fun r =>
                  set_storageSubsystem
                    (storage_request (LoadDoc documentId) <$> storageSubsystem r) r) in
      let! _ := effect (AttemptLoad handle) in
      ret handle
  end.

(** [#documentGenerousPeers(documentId)] *)
Definition CollectionSynchronizer_documentGenerousPeers (documentId : DocumentId)
  : M (list PeerId) :=
  gets (fun r => List.filter (fun peer => sharePolicy r peer (Some documentId))
                   (peers (synchronizer r))).

(** [#initDocSynchronizer(handle)] *)
Definition CollectionSynchronizer_initDocSynchronizer (handle : HandleRef)
  : M DocSynchronizer :=
  let! documentId := handle_get handle Handle.documentId in
  let! _ := effect (NewDocSynchronizer documentId handle) in
  ret {| ds_handle := handle; ds_documentId := documentId; ds_peers := [] |}.

(** The [onLoadSyncState] callback that [#initDocSynchronizer] gives to the
    DocSynchronizer of a handle, called with a peer. *)
Definition CollectionSynchronizer_onLoadSyncState (handle : HandleRef) (peer : PeerId)
  : M unit :=
  let! storage := gets storageSubsystem in
  match storage with
  | None => ret tt
  | Some _ =>
      let! meta := gets (fun r => peerMetadataByPeerId r !! peer) in
      if not_persisted meta then ret tt
      else
        match meta with
        | Some {| storageId := Some storage_id |} =>
            let! documentId := handle_get handle Handle.documentId in
            modify (fun r =>
              set_storageSubsystem
                (storage_request (LoadSyncState documentId storage_id) <$> storageSubsystem r) r)
        | _ => ret tt
        end
  end.

(** [#fetchDocSynchronizer(documentId)] *)
Definition CollectionSynchronizer_fetchDocSynchronizer (documentId : DocumentId)
  : M DocSynchronizer :=
  let! existing := gets (fun r => docSynchronizers (synchronizer r) !! documentId) in
  match existing with
  | Some docSynchronizer => ret docSynchronizer
  | None =>
      let! url := liftR (AutomergeUrl.stringifyAutomergeUrl
                           (AutomergeUrl.ArgObject (Some (AutomergeUrl.VString documentId)))) in
      let! handle := Repo_find (AutomergeUrl.VString url) in
      let! docSynchronizer := CollectionSynchronizer_initDocSynchronizer handle in
      let! _ := modify (fun r =>
                  set_synchronizer
                    (set_docSynchronizers
                       (<[documentId := docSynchronizer]> (docSynchronizers (synchronizer r)))
                       (synchronizer r)) r) in
      ret docSynchronizer
  end.

(** [docSynchronizer.beginSync(peerIds)] on the synchronizer of a document. *)
Definition DocSynchronizer_beginSync_call (documentId : DocumentId) (peerIds : list PeerId)
  : M unit :=
  let! _ := effect (DocSynchronizer_beginSync documentId peerIds) in
  modify (fun r =>
    set_synchronizer
      (set_docSynchronizers
         (alter (fun ds =>
                   {| ds_handle := ds_handle ds; ds_documentId := ds_documentId ds;
                      ds_peers := ds_peers ds
                                  ++ List.filter (fun p => negb (bool_decide (p ∈ ds_peers ds)))
                                       peerIds |})
                documentId (docSynchronizers (synchronizer r)))
         (synchronizer r)) r).

(** [docSynchronizer.endSync(peerId)] *)
Definition DocSynchronizer_endSync_call (documentId : DocumentId) (peer : PeerId) : M unit :=
  let! _ := effect (DocSynchronizer_endSync documentId peer) in
  modify (fun r =>
    set_synchronizer
      (set_docSynchronizers
         (alter (fun ds =>
                   {| ds_handle := ds_handle ds; ds_documentId := ds_documentId ds;
                      ds_peers := List.filter (fun p => negb (String.eqb p peer)) (ds_peers ds) |})
                documentId (docSynchronizers (synchronizer r)))
         (synchronizer r)) r).

(** [receiveMessage(message)] of the collection synchronizer. *)
Definition CollectionSynchronizer_receiveMessage (message : Message) : M unit :=
  match documentId message with
  | None => throw (Error "received a message with an invalid documentId")
  | Some id =>
      if String.eqb id ""
      then throw (Error "received a message with an invalid documentId")
      else
        let! _ := modify (fun r =>
                    set_synchronizer
                      (set_docSetUp (<[id := true]> (docSetUp (synchronizer r)))
                         (synchronizer r)) r) in
        let! docSynchronizer := CollectionSynchronizer_fetchDocSynchronizer id in
        let! _ := effect (DocSynchronizer_receiveMessage id message) in
        let! generous := CollectionSynchronizer_documentGenerousPeers id in
        let! known := gets (fun r =>
                        match docSynchronizers (synchronizer r) !! id with
                        | Some ds => ds_peers ds
                        | None => ds_peers docSynchronizer
                        end) in
        DocSynchronizer_beginSync_call id
          (List.filter (fun peer => negb (bool_decide (peer ∈ known))) generous)
  end.

(** [addDocument(documentId)] *)
Definition CollectionSynchronizer_addDocument (documentId : DocumentId) : M unit :=
  let! setUp := gets (fun r => docSetUp (synchronizer r) !! documentId) in
  match setUp with
  | Some true => ret tt
  | _ =>
      let! docSynchronizer := CollectionSynchronizer_fetchDocSynchronizer documentId in
      let! generous := CollectionSynchronizer_documentGenerousPeers documentId in
      DocSynchronizer_beginSync_call documentId generous
  end.

(** [removeDocument(documentId)] *)
Definition CollectionSynchronizer_removeDocument (documentId : DocumentId) : M unit :=
  modify (fun r =>
    set_synchronizer
      (set_docSetUp (delete documentId (docSetUp (synchronizer r)))
         (set_docSynchronizers (delete documentId (docSynchronizers (synchronizer r)))
            (synchronizer r))) r).

Fixpoint for_each {A : Type} (l : list A) (body : A -> M unit) : M unit :=
  match l with
  | [] => ret tt
  | x :: rest => let! _ := body x in for_each rest body
  end.

(** [Promise.all(l.map(async x => ...))]: every body runs, one after the
    other, whether an earlier one threw or not; the promise is rejected with
    the first throw. *)
Fixpoint all_settled {A : Type} (l : list A) (body : A -> M unit) : M unit :=
  match l with
  | [] => ret tt
  | x :: rest =>
      fun r =>
        match body x r with
        | (Returns _, r') => all_settled rest body r'
        | (Throws e, r') => (Throws e, (all_settled rest body r').2)
        end
  end.

(** [addPeer(peerId)]; the synchronizers are visited in the order of the map's
    list of entries. *)
Definition CollectionSynchronizer_addPeer (peer : PeerId) : M unit :=
  let! known := gets (fun r => bool_decide (peer ∈ peers (synchronizer r))) in
  if known then ret tt
  else
    let! _ := modify (fun r =>
                set_synchronizer (set_peers (peers (synchronizer r) ++ [peer]) (synchronizer r)) r) in
    let! entries := gets (fun r => map_to_list (docSynchronizers (synchronizer r))) in
    for_each entries (fun entry : DocumentId * DocSynchronizer =>
      let! okToShare := gets (fun r => sharePolicy r peer (Some (ds_documentId entry.2))) in
      when okToShare (DocSynchronizer_beginSync_call entry.1 [peer])).

(** [removePeer(peerId)] *)
Definition CollectionSynchronizer_removePeer (peer : PeerId) : M unit :=
  let! _ := modify (fun r =>
              set_synchronizer
                (set_peers (List.filter (fun p => negb (String.eqb p peer)) (peers (synchronizer r)))
                   (synchronizer r)) r) in
  let! entries := gets (fun r => map_to_list (docSynchronizers (synchronizer r))) in
  for_each entries (fun entry : DocumentId * DocSynchronizer =>
    DocSynchronizer_endSync_call entry.1 peer).

(** [#registerHandleWithSubsystems(handle)] *)
Definition Repo_registerHandleWithSubsystems (handle : HandleRef) : M unit :=
  let! storage := gets storageSubsystem in
  let! _ := when (bool_decide (is_Some storage)) (effect (HandleOn handle "heads-changed")) in
  let! _ := effect (HandleOn handle "unavailable") in
  let! documentId := handle_get handle Handle.documentId in
  let! _ := CollectionSynchronizer_addDocument documentId in
  effect (EmitDocument handle).

(** The callback of [attemptLoad.then(...)] in [find], with what the storage
    subsystem loaded; its [catch] logs a throw. *)
Definition Repo_find_then (handle : HandleRef) (loadedDoc : option Doc) : M unit :=
  catch_log
    (let! _ :=
       match loadedDoc with
       | Some d =>
           let! _ := handle_call handle (Handle.update (fun _ => d)) in
           handle_call handle Handle.doneLoading
       | None => handle_call handle Handle.request
       end in
     Repo_registerHandleWithSubsystems handle).

(** [create(initialValue)], with the sixteen bytes that [Uuid.v4] drew. *)
Definition Repo_create (v4 : list byte) (initialValue : option InitialValue) : M HandleRef :=
  let! url := liftR (AutomergeUrl.generateAutomergeUrl v4) in
  let! parsed := liftR (AutomergeUrl.parseAutomergeUrl url) in
  let! handle := Repo_getHandle (AutomergeUrl.documentId parsed) in
  let! _ := Repo_registerHandleWithSubsystems handle in
  let! _ := handle_call handle
              (Handle.update (fun _ =>
                 match initialValue with
                 | Some v => Automerge_from v
                 | None => Automerge_emptyChange Automerge_init
                 end)) in
  let! _ := handle_call handle Handle.doneLoading in
  ret handle.

(** [clone(clonedHandle)] *)
Definition Repo_clone (v4 : list byte) (clonedHandle : HandleRef) : M HandleRef :=
  let! ready := handle_get clonedHandle Handle.isReady in
  if negb ready then throw (Error "Cloned handle is not yet in ready state.")
  else
    let! sourceDoc := handle_get clonedHandle Handle.docSync in
    match sourceDoc with
    | None => throw (Error "Cloned handle doesn't have a document.")
    | Some d =>
        let! handle := Repo_create v4 None in
        let! _ := handle_call handle (Handle.update (fun _ => Automerge_clone d)) in
        ret handle
    end.

(** [import(binary)] *)
Definition Repo_import (v4 : list byte) (binary : list byte) : M HandleRef :=
  let! handle := Repo_create v4 None in
  let! _ := handle_call handle
              (Handle.update (fun _ => Automerge_clone (Automerge_load binary))) in
  ret handle.

(** The listener of "delete-document" that the constructor installs. *)
Definition Repo_on_delete_document (documentId : DocumentId) : M unit :=
  modify (fun r =>
    set_storageSubsystem (storage_request (RemoveDoc documentId) <$> storageSubsystem r) r).

(** [delete(id)] *)
Definition Repo_delete (id : AutomergeUrl.IdValue) : M unit :=
  let! documentId := liftR (AutomergeUrl.interpretAsDocumentId id) in
  let! handle := Repo_getHandle documentId in
  let! _ := handle_call handle Handle.delete in
  let! _ := effect (HandleEmit handle "delete") in
  let! _ := modify (fun r => set_handleCache (delete documentId (handleCache r)) r) in
  let! _ := effect (EmitDeleteDocument documentId) in
  Repo_on_delete_document documentId.

(** [export(id)], up to the [await] on the document of the handle. *)
Definition Repo_export (id : AutomergeUrl.IdValue) : M HandleRef :=
  let! documentId := liftR (AutomergeUrl.interpretAsDocumentId id) in
  Repo_getHandle documentId.

(** [removeFromCache(documentId)], up to the [await]. *)
Definition Repo_removeFromCache (documentId : DocumentId) : M (option HandleRef) :=
  let! cached := gets (fun r => handleCache r !! documentId) in
  match cached with
  | None =>
      let! _ := effect (LogWarn "removeFromCache called but handle not found in handleCache") in
      ret None
  | Some _ =>
      let! handle := Repo_getHandle documentId in
      ret (Some handle)
  end.

(** The rest of [removeFromCache], once the handle is in one of the states
    READY, UNLOADED, DELETED, UNAVAILABLE (before that the promise is
    pending and nothing runs). *)
Definition Repo_removeFromCache_then (documentId : DocumentId) (handle : HandleRef) : M unit :=
  let! resolved := handle_get handle (Handle.inState [READY; UNLOADED; DELETED; UNAVAILABLE]) in
  if negb resolved then ret tt
  else
    let! d := handle_get handle Handle.doc in
    match d with
    | Some _ =>
        let! ready := handle_get handle Handle.isReady in
        let! _ := if ready then handle_call handle Handle.unload
                  else effect (LogWarn "removeFromCache called but handle in unexpected state") in
        modify (fun r => set_handleCache (delete documentId (handleCache r)) r)
    | None => effect (LogWarn "removeFromCache called but doc undefined")
    end.

(** [#receiveMessage(message)]; the control messages of the remote-heads
    gossip leave the Repo's own state as it is. *)
Definition Repo_receiveMessage (message : Message) : M unit :=
  if existsb (String.eqb (type message)) ["sync"; "request"; "ephemeral"; "doc-unavailable"]
  then catch_log (CollectionSynchronizer_receiveMessage message)
  else ret tt.

(** The listener of the network subsystem's "peer". *)
Definition Repo_on_peer (peer : PeerId) (meta : option PeerMetadata) : M unit :=
  let! _ := match meta with
            | Some m => modify (fun r =>
                          set_peerMetadataByPeerId (<[peer := m]> (peerMetadataByPeerId r)) r)
            | None => ret tt
            end in
  CollectionSynchronizer_addPeer peer.

(** The listener of the network subsystem's "peer-disconnected". *)
Definition Repo_on_peer_disconnected (peer : PeerId) : M unit :=
  CollectionSynchronizer_removePeer peer.

(** [#saveSyncState(payload)].  Modelled from the spec: [helpers/throttle.js]
    is not among the sources; a throttled handler keeps the arguments of its latest
    call until its timer fires ([Repo_throttle_fire]). *)
Definition Repo_saveSyncState (payload : SyncStatePayload) : M unit :=
  let! storage := gets storageSubsystem in
  match storage with
  | None => ret tt
  | Some _ =>
      let! meta := gets (fun r => peerMetadataByPeerId r !! sp_peerId payload) in
      if not_persisted meta then ret tt
      else
        match meta with
        | Some {| storageId := Some storage_id |} =>
            modify (fun r =>
              set_throttledSaveSyncStateHandlers
                (<[storage_id := Some payload]> (throttledSaveSyncStateHandlers r)) r)
        | _ => ret tt
        end
  end.

(** The timer of the throttled handler of one storage id fires:
    [storageSubsystem.saveSyncState(documentId, storageId, syncState)]. *)
Definition Repo_throttle_fire (storage_id : StorageId) : M unit :=
  let! pending := gets (fun r => throttledSaveSyncStateHandlers r !! storage_id) in
  match pending with
  | Some (Some payload) =>
      let! _ := modify (fun r =>
                  set_storageSubsystem
                    (storage_request
                       (SaveSyncState (sp_documentId payload) storage_id (sp_syncState payload))
                     <$> storageSubsystem r) r) in
      modify (fun r =>
        set_throttledSaveSyncStateHandlers
          (<[storage_id := None]> (throttledSaveSyncStateHandlers r)) r)
  | _ => ret tt
  end.

(** [headsAreSame(a, b)] *)
Definition headsAreSame (a b : Heads) : bool := bool_decide (a = b).

(** The listener of the synchronizer's "sync-state". *)
Definition Repo_on_sync_state (message : SyncStatePayload) : M unit :=
  let! _ := Repo_saveSyncState message in
  let! handle := gets (fun r => handleCache r !! sp_documentId message) in
  let! meta := gets (fun r => peerMetadataByPeerId r !! sp_peerId message) in
  match meta with
  | Some {| storageId := Some storage_id |} =>
      if String.eqb storage_id "" then ret tt
      else
        match handle with
        | None => throw (TypeError "Cannot read properties of undefined")
        | Some handle =>
            let! heads := handle_get handle (Handle.getRemoteHeads storage_id) in
            match theirHeads (sp_syncState message) with
            | Some theirs =>
                let haveHeadsChanged :=
                  match heads with
                  | None => true
                  | Some hs => negb (headsAreSame hs theirs)
                  end in
                if haveHeadsChanged then
                  let! _ := handle_call handle (Handle.setRemoteHeads storage_id theirs) in
                  let! _ := effect (HandleEmit handle "remote-heads") in
                  let! gossip := gets remoteHeadsGossipingEnabled in
                  when gossip
                    (effect (RemoteHeadsChanged (sp_documentId message) storage_id theirs))
                else ret tt
            | None => ret tt
            end
        end
  | _ => ret tt
  end.

(** The throttled listener of a handle's "heads-changed" that
    [#registerHandleWithSubsystems] installs fires, with the document of the
    event: [storageSubsystem.saveDoc(handle.documentId, doc)]. *)
Definition Repo_on_heads_changed (handle : HandleRef) (d : Doc) : M unit :=
  let! storage := gets storageSubsystem in
  match storage with
  | None => ret tt
  | Some _ =>
      let! documentId := handle_get handle Handle.documentId in
      modify (fun r =>
        set_storageSubsystem (storage_request (SaveDoc documentId d) <$> storageSubsystem r) r)
  end.

(** [flush(documents)], up to the [await]: the handles named, or all those
    cached, in the order of the map's list of entries. *)
Definition Repo_flush (documents : option (list DocumentId)) : M unit :=
  let! storage := gets storageSubsystem in
  match storage with
  | None => ret tt
  | Some _ =>
      let! cached :=
        gets (fun r =>
                match documents with
                | Some ids => map (fun id => handleCache r !! id) ids
                | None => map (fun entry : DocumentId * HandleRef => Some entry.2)
                            (map_to_list (handleCache r))
                end) in
      all_settled cached (fun handle : option HandleRef =>
        match handle with
        | None => throw (TypeError "Cannot read properties of undefined")
        | Some handle =>
            let! d := handle_get handle Handle.docSync in
            match d with
            | None => ret tt
            | Some d =>
                let! documentId := handle_get handle Handle.documentId in
                modify (fun r =>
                  set_storageSubsystem
                    (storage_request (SaveDoc documentId d) <$> storageSubsystem r) r)
            end
        end)
  end.

(** [getStorageIdOfPeer(peerId)] *)
Definition Repo_getStorageIdOfPeer (peer : PeerId) (r : Repo) : option StorageId :=
  match peerMetadataByPeerId r !! peer with
  | Some m => storageId m
  | None => None
  end.

(** The getter [peers]: [Array.from] of the synchronizer's set of peers. *)
Definition Repo_peers (r : Repo) : list PeerId := peers (synchronizer r).

End RepoMethods.

(* ===================================================================== *)
(** ** The calls that reach a Repo, one after the other *)
(* ===================================================================== *)

(** The state-transition methods of a handle that a holder of the handle can
    call. *)
Inductive HandleMethod : Type :=
| Method_doneLoading | Method_request | Method_unavailable
| Method_unload | Method_reload | Method_delete.

Definition handle_method (m : HandleMethod) : Handle.DocHandle -> Handle.DocHandle :=
  match m with
  | Method_doneLoading => Handle.doneLoading
  | Method_request => Handle.request
  | Method_unavailable => Handle.unavailable
  | Method_unload => Handle.unload
  | Method_reload => Handle.reload
  | Method_delete => Handle.delete
  end.

(** A call of a method of the Repo by its user, an event from the network or
    the synchronizer, a promise callback or a timer. *)
Inductive RepoCall : Type :=
| Call_create (v4 : list byte) (initialValue : option InitialValue)
| Call_find (id : AutomergeUrl.IdValue)
| Call_find_then (handle : HandleRef) (loadedDoc : option Doc)
| Call_clone (v4 : list byte) (clonedHandle : HandleRef)
| Call_import (v4 : list byte) (binary : list byte)
| Call_delete (id : AutomergeUrl.IdValue)
| Call_export (id : AutomergeUrl.IdValue)
| Call_removeFromCache (id : DocumentId)
| Call_removeFromCache_then (id : DocumentId) (handle : HandleRef)
| Call_receiveMessage (message : Message)
| Call_peer (peer : PeerId) (meta : option PeerMetadata)
| Call_peer_disconnected (peer : PeerId)
| Call_sync_state (payload : SyncStatePayload)
| Call_throttle_fire (storage : StorageId)
| Call_heads_changed (handle : HandleRef) (d : Doc)
| Call_flush (documents : option (list DocumentId))
| Call_load_sync_state (handle : HandleRef) (peer : PeerId)
| Call_handle (handle : HandleRef) (method : HandleMethod).

Section RepoCalls.
Context `{UuidPackage}.

(** The state after a call, whether it returned or threw. *)
Definition run_call (c : RepoCall) (r : Repo) : Repo :=
  match c with
  | Call_create v4 initialValue => (Repo_create v4 initialValue r).2
  | Call_find id => (Repo_find id r).2
  | Call_find_then handle loadedDoc => (Repo_find_then handle loadedDoc r).2
  | Call_clone v4 clonedHandle => (Repo_clone v4 clonedHandle r).2
  | Call_import v4 binary => (Repo_import v4 binary r).2
  | Call_delete id => (Repo_delete id r).2
  | Call_export id => (Repo_export id r).2
  | Call_removeFromCache id => (Repo_removeFromCache id r).2
  | Call_removeFromCache_then id handle => (Repo_removeFromCache_then id handle r).2
  | Call_receiveMessage message => (Repo_receiveMessage message r).2
  | Call_peer peer meta => (Repo_on_peer peer meta r).2
  | Call_peer_disconnected peer => (Repo_on_peer_disconnected peer r).2
  | Call_sync_state payload => (Repo_on_sync_state payload r).2
  | Call_throttle_fire storage => (Repo_throttle_fire storage r).2
  | Call_heads_changed handle d => (Repo_on_heads_changed handle d r).2
  | Call_flush documents => (Repo_flush documents r).2
  | Call_load_sync_state handle peer =>
      (CollectionSynchronizer_onLoadSyncState handle peer r).2
  | Call_handle handle method => (handle_call handle (handle_method method) r).2
  end.

Definition run_calls (cs : list RepoCall) (r : Repo) : Repo :=
  fold_left (fun r c => run_call c r) cs r.

End RepoCalls.

(** The handle behind a reference has the given documentId. *)
Definition has_id (r : Repo) (id : DocumentId) (h : HandleRef) : bool :=
  match handles r !! h with
  | Some d => bool_decide (Handle.documentId d = id)
  | None => false
  end.

(** The handles in the cache whose documentId is [id]: one per entry of the
    cache that holds such a handle. *)
Definition handles_with_id (r : Repo) (id : DocumentId) : list HandleRef :=
  (List.filter (fun entry : DocumentId * HandleRef => has_id r id entry.2)
     (map_to_list (handleCache r))).*2.

(** Every entry of the cache holds a live handle of the entry's documentId. *)
Definition cache_consistent (r : Repo) : Prop :=
  forall (id : DocumentId) (h : HandleRef),
    handleCache r !! id = Some h ->
    exists d, handles r !! h = Some d /\ Handle.documentId d = id.

(** The document [create] seeds a handle with. *)
Definition seed (initialValue : option InitialValue) : Doc :=
  match initialValue with
  | Some v => Automerge_from v
  | None => Automerge_emptyChange Automerge_init
  end.

(** The bytes are a UUID the uuid package accepts, as those of [Uuid.v4] are. *)
Definition valid_uuid_bytes `{UuidPackage} (b : list byte) : Prop :=
  exists u, uuid_stringify b = Returns u /\ uuid_validate u = true.

(** A call keeps a property of the state, whether it returns or throws. *)
Definition preserves {A : Type} (P : Repo -> Prop) (m : M A) : Prop :=
  forall r, P r -> P (m r).2.

(** A call made in state [r] returns, with a value and a state that satisfy
    [Q]. *)
Definition returns_with {A : Type} (m : M A) (r : Repo) (Q : A -> Repo -> Prop) : Prop :=
  exists a r', m r = (Returns a, r') /\ Q a r'.

(** The documentId is one that [find] accepts in URL form and reads back. *)
Definition valid_id `{UuidPackage} (id : string) : Prop :=
  AutomergeUrl.interpretAsDocumentId (AutomergeUrl.VString (AutomergeUrl.urlPrefix +:+ id))
  = Returns id.

(** The second state has the handles, the cache and the storage requests of
    the first. *)
Definition same_handles (r r' : Repo) : Prop :=
  handles r' = handles r /\ handleCache r' = handleCache r
  /\ storageSubsystem r' = storageSubsystem r.

Definition is_saveSyncState (q : StorageRequest) : bool :=
  match q with
  | SaveSyncState _ _ _ => true
  | _ => false
  end.

(** The sync states the storage subsystem was asked to save. *)
Definition saved_sync_states (r : Repo) : list StorageRequest :=
  match storageSubsystem r with
  | Some st => List.filter is_saveSyncState (requests st)
  | None => []
  end.

Definition is_throttle_fire (c : RepoCall) : bool :=
  match c with
  | Call_throttle_fire _ => true
  | _ => false
  end.

(** The peer has no storageId in the peer-metadata map (no entry, no
    [storageId] property, or an empty one), or its metadata marks it
    ephemeral. *)
Definition no_storage_or_ephemeral (r : Repo) (peer : string) : Prop :=
  match peerMetadataByPeerId r !! peer with
  | None => True
  | Some m => storageId m = None \/ storageId m = Some "" \/ isEphemeral m = Some true
  end.

(** The peer has a storageId and is not ephemeral. *)
Definition persisted_peer (r : Repo) (peer : string) (storage : string) : Prop :=
  exists m, peerMetadataByPeerId r !! peer = Some m
            /\ storageId m = Some storage /\ storage <> ""
            /\ isEphemeral m <> Some true.

(** Every documentId in the cache has a binary form. *)
Definition ids_decode (r : Repo) : Prop :=
  forall (id : string) (h : nat),
    handleCache r !! id = Some h -> exists b, Bs58check.decodeUnsafe id = Returns (Some b).

(** The document [id] has a synchronizer, on the handle [h]. *)
Definition synchronizer_on (id : string) (h : nat) (r : Repo) : Prop :=
  exists ds, docSynchronizers (synchronizer r) !! id = Some ds /\ ds_handle ds = h.

(** The key of every synchronizer in the map is the synchronizer's own
    documentId. *)
Definition keys_ok (r : Repo) : Prop :=
  forall (id : string) (ds : DocSynchronizer),
    docSynchronizers (synchronizer r) !! id = Some ds -> ds_documentId ds = id.

(** Every [beginSync] so far was with peers the policy shares the document
    with. *)
Definition policy_respected (pol : string -> option string -> bool) (r : Repo) : Prop :=
  forall (id : string) (ps : list string),
    In (DocSynchronizer_beginSync id ps) (trace r) ->
    forall p, In p ps -> pol p (Some id) = true.

(** What every call keeps, for the share policy [pol]. *)
Definition shares_by (pol : string -> option string -> bool) (r : Repo) : Prop :=
  cache_consistent r /\ keys_ok r /\ sharePolicy r = pol /\ policy_respected pol r.

(* ===================================================================== *)
(** ** Readings of the effect lists, for the statements *)
(* ===================================================================== *)

(** An ephemeral message of the source [(sender, session)]. *)
Definition from_source (sender : option PeerId) (session : option SessionId)
    (m : Message) : bool :=
  isEphemeralMessage m
  && bool_decide (senderId m = sender) && bool_decide (sessionId m = session).

(** The counts of the ephemeral messages of one source among the "message"
    events emitted, in the order of emission. *)
Definition delivered_counts (sender : option PeerId) (session : option SessionId)
    (effects : list Network.Effect) : list N :=
  flat_map (fun e =>
              match e with
              | Network.EmitMessage m =>
                  if from_source sender session m
                  then match count m with Some c => [c] | None => [] end
                  else []
              | _ => []
              end) effects.

(** An ephemeral message this peer originates: it carries no [count] yet. *)
Definition is_new_ephemeral (m : Message) : bool :=
  String.eqb (type m) "ephemeral" && bool_decide (count m = None).

(** An ephemeral message passed on from another peer: it carries a [count]. *)
Definition is_forwarded_ephemeral (m : Message) : bool :=
  String.eqb (type m) "ephemeral" && negb (bool_decide (count m = None)).

(** The counts given to the ephemeral messages this peer originated, in the
    order of the calls of [send]. *)
Definition assigned_counts (log : list (Message * list Network.Effect)) : list N :=
  flat_map (fun entry : Message * list Network.Effect =>
              if is_new_ephemeral entry.1 then
                flat_map (fun e =>
                            match e with
                            | Network.AdapterSend _ out =>
                                match count out with Some c => [c] | None => [] end
                            | _ => []
                            end) entry.2
              else []) log.

(** The message has a route: its target is in the routing map. *)
Definition routed (ns : Network.NetworkSubsystem) (m : Message) : bool :=
  bool_decide (is_Some (Network.adaptersByPeer ns !! targetId m)).

(** The adapters that a list of effects hands a message to. *)
Definition adapters_used (effects : list Network.Effect) : list nat :=
  flat_map (fun e => match e with
                     | Network.AdapterSend a _ => [a]
                     | _ => []
                     end) effects.

(* ===================================================================== *)
(** ** Sample messages and states for the examples *)
(* ===================================================================== *)

Definition ephemeral_from (sender : PeerId) (session : SessionId) (c : N) (target : PeerId)
  : Message :=
  {| type := "ephemeral"; senderId := Some sender; targetId := target;
     documentId := Some "4NMNnkMhL8jXrdJ9jamS58PAVdXu"; count := Some c;
     sessionId := Some session; data := Some [] |}.

(** What a DocSynchronizer hands to [send] for a broadcast of this peer. *)
Definition new_ephemeral (target : PeerId) : Message :=
  {| type := "ephemeral"; senderId := None; targetId := target;
     documentId := Some "4NMNnkMhL8jXrdJ9jamS58PAVdXu"; count := None;
     sessionId := None; data := Some [] |}.

Definition sync_to (target : PeerId) : Message :=
  {| type := "sync"; senderId := None; targetId := target;
     documentId := Some "4NMNnkMhL8jXrdJ9jamS58PAVdXu"; count := None;
     sessionId := None; data := Some [] |}.

(** The subsystem of peer "bob", with peer "carol" reachable by adapter 0. *)
Definition bob_network : Network.NetworkSubsystem :=
  (Network.on_peer_candidate 0%nat "carol" None (Network.constructor "bob" "k3x9")).1.

(** "Exactly the prefix followed by a valid base58check payload": the reading
    of the URL format the statements about [parseAutomergeUrl] use. *)
Definition well_formed_url (s : string) : Prop :=
  exists (payload : string) (bin : list byte),
    s = AutomergeUrl.urlPrefix +:+ payload
    /\ Bs58check.decodeUnsafe payload = Returns (Some bin).

(* ===================================================================== *)
(** ** A model of the uuid package (version 9), for the examples *)
(* ===================================================================== *)

Module UuidModel.

Definition is_hex (c : ascii) : bool :=
  let n := N_of_ascii c in
  ((48 <=? n) && (n <=? 57)) || ((65 <=? n) && (n <=? 70)) || ((97 <=? n) && (n <=? 102)).

Definition is_hyphen (c : ascii) : bool := Ascii.eqb c "-"%char.

Definition one_of (set : string) (c : ascii) : bool :=
  existsb (Ascii.eqb c) (list_ascii_of_string set).

(** The shape [8-4-4-4-12] with a version digit 1..5 and a variant digit
    8, 9, a or b, or the nil UUID. *)
Definition validate (s : string) : bool :=
  let cs := list_ascii_of_string s in
  (Nat.eqb (List.length cs) 36
   && forallb (fun ic : nat * ascii =>
                 let (i, c) := ic in
                 if existsb (Nat.eqb i) [8; 13; 18; 23]%nat then is_hyphen c
                 else if Nat.eqb i 14 then one_of "12345" c
                 else if Nat.eqb i 19 then one_of "89abAB" c
                 else is_hex c)
              (combine (seq 0 36) cs))
  || String.eqb s "00000000-0000-0000-0000-000000000000".

Definition unsafeStringify (b : list byte) : string :=
  hex (firstn 4 b) +:+ "-" +:+ hex (firstn 2 (skipn 4 b)) +:+ "-"
  +:+ hex (firstn 2 (skipn 6 b)) +:+ "-" +:+ hex (firstn 2 (skipn 8 b)) +:+ "-"
  +:+ hex (firstn 6 (skipn 10 b)).

Definition stringify (b : list byte) : Result string :=
  let uuid := unsafeStringify b in
  if validate uuid then Returns uuid
  else Throws (TypeError "Stringified UUID is invalid").

Definition parse (s : string) : Result (list byte) :=
  if validate s
  then Returns (unhex_list (filter (fun c => negb (is_hyphen c)) (list_ascii_of_string s)))
  else Throws (TypeError "Invalid UUID").

Definition package : UuidPackage :=
  {| uuid_stringify := stringify; uuid_validate := validate; uuid_parse := parse |}.

End UuidModel.

(** A Repo with storage, the bytes of a version 4 UUID, and their documentId. *)
Definition sample_repo : Repo := Repo_constructor true None false.

Definition sample_v4 : list byte := unhex "f1c29c8474c84adeb800be47627d33bf".

Definition sample_id : string := "4NMNnkMhL8jXrdJ9jamS58PAVdXu".

(** The Repo after peer "p1" has connected and a document was created. *)
Definition sample_repo_with_document : Repo :=
  @run_calls UuidModel.package
    [ Call_peer "p1" None; Call_create sample_v4 None ] sample_repo.

(* ===================================================================== *)
(** * Lemmas and theorems *)
(* ===================================================================== *)

(* ===================================================================== *)
(** ** Base conversion: the scratch buffer holds the number read so far *)
(* ===================================================================== *)

Section BaseConversion.

Variable base : N.
Hypothesis base_pos : 1 < base.

Local Abbreviation digits_ok := (digits_ok base).

Lemma value_repeat_zero (n : nat) : value base (List.repeat 0 n) = 0.
Proof. induction n; simpl; [reflexivity|]. rewrite IHn. lia. Qed.

Lemma value_lt (buf : list N) :
  digits_ok buf -> value base buf < base ^ N.of_nat (List.length buf).
Proof.
  induction 1 as [|d ds Hd Hds IH]; simpl List.length; simpl value.
  - simpl. lia.
  - rewrite Nat2N.inj_succ, N.pow_succ_r'. nia.
Qed.

Lemma mul_add_spec (mul : N) (buf : list N) (carry : N) :
  forall buf' c,
    BaseX.mul_add base mul buf carry = (buf', c) ->
    value base buf' + c * base ^ N.of_nat (List.length buf)
      = mul * value base buf + carry
    /\ digits_ok buf' /\ List.length buf' = List.length buf.
Proof.
  induction buf as [|d ds IH]; intros buf' c; simpl.
  - intros [= <- <-]. simpl. split; [lia|]. split; [constructor|reflexivity].
  - destruct (BaseX.mul_add base mul ds carry) as [ds' c0] eqn:E.
    intros [= <- <-].
    destruct (IH _ _ eq_refl) as (Hv & Hok & Hlen).
    simpl. rewrite Hlen. repeat split.
    + rewrite Nat2N.inj_succ, N.pow_succ_r'.
      pose proof (N.div_mod (c0 + mul * d) base ltac:(lia)) as Hdm.
      set (q := (c0 + mul * d) / base) in *.
      set (r := (c0 + mul * d) mod base) in *.
      set (P := base ^ N.of_nat (List.length ds)) in *.
      nia.
    + constructor; [apply N.mod_lt; lia | exact Hok].
Qed.

(** When the new value fits in the buffer, no carry is left. *)
Lemma mul_add_fits (mul : N) (buf : list N) (carry : N) :
  mul * value base buf + carry < base ^ N.of_nat (List.length buf) ->
  exists buf',
    BaseX.mul_add base mul buf carry = (buf', 0)
    /\ value base buf' = mul * value base buf + carry
    /\ digits_ok buf' /\ List.length buf' = List.length buf.
Proof.
  intros Hfit.
  destruct (BaseX.mul_add base mul buf carry) as [buf' c] eqn:E.
  destruct (mul_add_spec _ _ _ _ _ E) as (Hv & Hok & Hlen).
  assert (c = 0) as ->.
  { destruct (N.eq_dec c 0) as [|Hc]; [assumption|].
    assert (base ^ N.of_nat (List.length buf) <= c * base ^ N.of_nat (List.length buf)) by nia.
    lia. }
  exists buf'. repeat split; [lia | exact Hok | exact Hlen].
Qed.

Lemma skip_zeroes_value (buf : list N) :
  value base (BaseX.skip_zeroes buf) = value base buf.
Proof.
  induction buf as [|d ds IH]; [reflexivity|].
  destruct d; simpl; [rewrite IH; lia | reflexivity].
Qed.

Lemma skip_zeroes_ok (buf : list N) :
  digits_ok buf -> digits_ok (BaseX.skip_zeroes buf).
Proof.
  induction 1 as [|d ds Hd Hds IH]; [constructor|].
  destruct d; simpl; [exact IH | constructor; assumption].
Qed.

Lemma skip_zeroes_head (buf : list N) : BaseX.count_zeroes (BaseX.skip_zeroes buf) = O.
Proof.
  induction buf as [|d ds IH]; [reflexivity|].
  destruct d; simpl; [exact IH | reflexivity].
Qed.

Lemma count_skip_zeroes (buf : list N) :
  buf = List.repeat 0 (BaseX.count_zeroes buf) ++ BaseX.skip_zeroes buf.
Proof.
  induction buf as [|d ds IH]; [reflexivity|].
  destruct d; simpl; [f_equal; exact IH | reflexivity].
Qed.

(** A list without leading zero is at least [base ^ (length - 1)]. *)
Lemma value_ge (d : N) (ds : list N) :
  d <> 0 -> base ^ N.of_nat (List.length ds) <= value base (d :: ds).
Proof. intros Hd. simpl. nia. Qed.

Lemma value_inj_same_length (l1 l2 : list N) :
  List.length l1 = List.length l2 ->
  digits_ok l1 -> digits_ok l2 ->
  value base l1 = value base l2 -> l1 = l2.
Proof.
  revert l2. induction l1 as [|d1 l1 IH]; intros [|d2 l2]; simpl; try discriminate.
  - reflexivity.
  - intros [= Hlen] H1 H2 Hv.
    apply Forall_cons in H1 as [Hd1 H1]. apply Forall_cons in H2 as [Hd2 H2].
    pose proof (value_lt _ H1) as B1. pose proof (value_lt _ H2) as B2.
    rewrite Hlen in *.
    set (P := base ^ N.of_nat (List.length l2)) in *.
    assert (d1 = d2) as -> by nia.
    f_equal. apply IH; auto. lia.
Qed.

(** Two lists of digits without leading zero that stand for the same number
    are the same list. *)
Lemma value_inj_canonical (l1 l2 : list N) :
  digits_ok l1 -> digits_ok l2 ->
  BaseX.count_zeroes l1 = O -> BaseX.count_zeroes l2 = O ->
  value base l1 = value base l2 -> l1 = l2.
Proof.
  intros H1 H2 Z1 Z2 Hv.
  assert (forall a b : list N,
             digits_ok a -> BaseX.count_zeroes b = O ->
             (List.length a < List.length b)%nat ->
             value base a < value base b) as Hshort.
  { intros a [|d b] Ha Zb Hl; simpl in Hl; [lia|].
    assert (d <> 0) as Hd by (destruct d; [discriminate | discriminate]).
    pose proof (value_ge d b Hd) as Hge. pose proof (value_lt _ Ha) as Hlt.
    assert (base ^ N.of_nat (List.length a) <= base ^ N.of_nat (List.length b)).
    { apply N.pow_le_mono_r; lia. }
    lia. }
  destruct (Nat.lt_trichotomy (List.length l1) (List.length l2)) as [Hl|[Hl|Hl]].
  - specialize (Hshort l1 l2 H1 Z2 Hl). lia.
  - apply value_inj_same_length; assumption.
  - specialize (Hshort l2 l1 H2 Z1 Hl). lia.
Qed.

End BaseConversion.

(* ===================================================================== *)
(** ** The alphabet *)
(* ===================================================================== *)

Lemma base_map_charAt (d : N) : d < 58 -> BaseX.BASE_MAP (BaseX.charAt d) = Some d.
Proof.
  intros Hd.
  assert (forallb (fun n => match BaseX.BASE_MAP (BaseX.charAt n) with
                            | Some m => m =? n
                            | None => false
                            end) (map N.of_nat (seq 0 58)) = true) as Hall
      by (vm_compute; reflexivity).
  rewrite forallb_forall in Hall.
  specialize (Hall d).
  destruct (BaseX.BASE_MAP (BaseX.charAt d)) as [m|].
  - f_equal. apply N.eqb_eq, Hall, in_map_iff.
    exists (N.to_nat d). split; [lia | apply in_seq; lia].
  - discriminate Hall. apply in_map_iff.
    exists (N.to_nat d). split; [lia | apply in_seq; lia].
Qed.

Lemma charAt_word (d : N) : AutomergeUrl.is_word_char (BaseX.charAt d) = true.
Proof.
  destruct (N.lt_ge_cases d 58) as [Hd|Hd].
  - assert (forallb (fun n => AutomergeUrl.is_word_char (BaseX.charAt n)) (map N.of_nat (seq 0 58)) = true)
      as Hall by (vm_compute; reflexivity).
    rewrite forallb_forall in Hall. apply Hall, in_map_iff.
    exists (N.to_nat d). split; [lia | apply in_seq; lia].
  - unfold BaseX.charAt.
    assert (String.get (N.to_nat d) BaseX.ALPHABET = None) as ->; [|reflexivity].
    assert (forall (s : string) (n : nat), (String.length s <= n)%nat -> String.get n s = None) as Hget.
    { induction s as [|c s IH]; intros [|n] Hn; simpl in *; try reflexivity; try lia.
      apply IH. lia. }
    apply Hget. change (String.length BaseX.ALPHABET) with 58%nat. lia.
Qed.

Lemma charAt_leader (d : N) : d < 58 -> d <> 0 -> Ascii.eqb (BaseX.charAt d) BaseX.LEADER = false.
Proof.
  intros Hd Hnz.
  pose proof (base_map_charAt d Hd) as Hm.
  destruct (Ascii.eqb (BaseX.charAt d) BaseX.LEADER) eqn:E; [|reflexivity].
  apply Ascii.eqb_eq in E. rewrite E in Hm. vm_compute in Hm. congruence.
Qed.

(* ===================================================================== *)
(** ** The two loops of base-x compute the number of their input *)
(* ===================================================================== *)

Lemma encode_loop_spec (src : list N) :
  forall (b58 : list N) (k : N),
    digits_ok 256 src -> digits_ok 58 b58 ->
    value 58 b58 < 256 ^ k ->
    256 ^ (k + N.of_nat (List.length src)) <= 58 ^ N.of_nat (List.length b58) ->
    exists out,
      BaseX.encode_loop src b58 = Returns out
      /\ value 58 out = value 58 b58 * 256 ^ N.of_nat (List.length src) + value 256 src
      /\ digits_ok 58 out /\ List.length out = List.length b58.
Proof.
  induction src as [|ch rest IH]; intros b58 k Hsrc Hbuf Hlt Hfit.
  - exists b58. simpl. repeat split; [lia | assumption].
  - apply Forall_cons in Hsrc as [Hch Hrest].
    simpl List.length in Hfit. rewrite Nat2N.inj_succ in Hfit.
    assert (256 * value 58 b58 + ch < 256 ^ (k + 1)) as Hnext.
    { rewrite N.pow_add_r. change (256 ^ 1) with 256. nia. }
    assert (256 ^ (k + 1) <= 256 ^ (k + N.succ (N.of_nat (List.length rest)))) as Hmono.
    { apply N.pow_le_mono_r; lia. }
    destruct (mul_add_fits 58 ltac:(lia) 256 b58 ch ltac:(lia))
      as (b' & Hma & Hv & Hok & Hlen).
    simpl. unfold BaseX.BASE. rewrite Hma. simpl.
    destruct (IH b' (k + 1) Hrest Hok ltac:(lia)) as (out & Hrun & Hval & Hok' & Hlen').
    { rewrite Hlen. replace (k + 1 + N.of_nat (List.length rest))
        with (k + N.succ (N.of_nat (List.length rest))) by lia. exact Hfit. }
    exists out. repeat split; [exact Hrun | | exact Hok' | congruence].
    rewrite Hval, Hv, Nat2N.inj_succ, N.pow_succ_r'. lia.
Qed.

Lemma decode_loop_spec (digits : list N) :
  forall (b256 : list N) (k : N),
    digits_ok 58 digits -> digits_ok 256 b256 ->
    value 256 b256 < 58 ^ k ->
    58 ^ (k + N.of_nat (List.length digits)) <= 256 ^ N.of_nat (List.length b256) ->
    exists out,
      BaseX.decode_loop (map BaseX.charAt digits) b256 = Returns (Some out)
      /\ value 256 out = value 256 b256 * 58 ^ N.of_nat (List.length digits) + value 58 digits
      /\ digits_ok 256 out /\ List.length out = List.length b256.
Proof.
  induction digits as [|d rest IH]; intros b256 k Hsrc Hbuf Hlt Hfit.
  - exists b256. simpl. repeat split; [lia | assumption].
  - apply Forall_cons in Hsrc as [Hd Hrest].
    simpl List.length in Hfit. rewrite Nat2N.inj_succ in Hfit.
    assert (58 * value 256 b256 + d < 58 ^ (k + 1)) as Hnext.
    { rewrite N.pow_add_r. change (58 ^ 1) with 58. nia. }
    assert (58 ^ (k + 1) <= 58 ^ (k + N.succ (N.of_nat (List.length rest)))) as Hmono.
    { apply N.pow_le_mono_r; lia. }
    destruct (mul_add_fits 256 ltac:(lia) 58 b256 d ltac:(lia))
      as (b' & Hma & Hv & Hok & Hlen).
    simpl map. simpl BaseX.decode_loop. rewrite (base_map_charAt d Hd).
    unfold BaseX.BASE. rewrite Hma. simpl.
    destruct (IH b' (k + 1) Hrest Hok ltac:(lia)) as (out & Hrun & Hval & Hok' & Hlen').
    { rewrite Hlen. replace (k + 1 + N.of_nat (List.length rest))
        with (k + N.succ (N.of_nat (List.length rest))) by lia. exact Hfit. }
    exists out. repeat split; [exact Hrun | | exact Hok' | congruence].
    rewrite Hval, Hv, Nat2N.inj_succ, N.pow_succ_r'. lia.
Qed.

(* ===================================================================== *)
(** ** base58: decoding an encoded buffer gives the buffer back *)
(* ===================================================================== *)

Lemma byte_of_to_N (b : byte) : Sha256.byte_of_N (Byte.to_N b) = b.
Proof. unfold Sha256.byte_of_N. rewrite Byte.of_to_N. reflexivity. Qed.

Lemma bytes_digits_ok (bs : list byte) : digits_ok 256 (map Byte.to_N bs).
Proof.
  induction bs as [|b bs IH]; constructor; [|exact IH].
  pose proof (Byte.to_N_bounded b). lia.
Qed.

Lemma digits_ok_repeat_zero (base : N) (n : nat) : 0 < base -> digits_ok base (List.repeat 0 n).
Proof. intros Hb. induction n; constructor; assumption. Qed.

Lemma pow_256_le_58 (n : nat) : 256 ^ N.of_nat n <= 58 ^ N.of_nat (2 * n).
Proof.
  rewrite Nat2N.inj_mul, N.pow_mul_r. change (58 ^ N.of_nat 2) with 3364.
  apply N.pow_le_mono_l. lia.
Qed.

(** What [encode] returns: the leaders, then the digits of the rest. *)
Lemma basex_encode_digits (source : list byte) :
  let src := map Byte.to_N source in
  exists digits,
    digits_ok 58 digits
    /\ BaseX.count_zeroes digits = O
    /\ value 58 digits = value 256 (BaseX.skip_zeroes src)
    /\ BaseX.encode source
       = Returns (string_of_list_ascii
                    (List.repeat BaseX.LEADER (BaseX.count_zeroes src)
                     ++ map BaseX.charAt digits)).
Proof.
  intros src. unfold BaseX.encode. fold src.
  set (rest := BaseX.skip_zeroes src).
  assert (digits_ok 256 rest) as Hrest
      by (apply skip_zeroes_ok, bytes_digits_ok).
  destruct (encode_loop_spec rest (List.repeat 0 (2 * List.length rest)) 0 Hrest)
    as (out & Hrun & Hval & Hok & Hlen).
  - apply digits_ok_repeat_zero. lia.
  - rewrite value_repeat_zero; [simpl; lia | lia].
  - rewrite List.repeat_length, N.add_0_l. apply pow_256_le_58.
  - rewrite Hrun. simpl bindR.
    exists (BaseX.skip_zeroes out). repeat split.
    + apply skip_zeroes_ok, Hok.
    + apply skip_zeroes_head.
    + rewrite skip_zeroes_value, Hval, value_repeat_zero; lia.
Qed.

Lemma count_leader_digits (z : nat) (digits : list N) :
  digits_ok 58 digits -> BaseX.count_zeroes digits = O ->
  BaseX.count_leader (List.repeat BaseX.LEADER z ++ map BaseX.charAt digits) = z
  /\ BaseX.skip_leader (List.repeat BaseX.LEADER z ++ map BaseX.charAt digits)
     = map BaseX.charAt digits.
Proof.
  intros Hok Hz. induction z as [|z IH].
  - simpl. destruct digits as [|d ds]; [split; reflexivity|].
    apply Forall_cons in Hok as [Hd _].
    assert (d <> 0) as Hnz by (destruct d; discriminate).
    simpl. rewrite (charAt_leader d Hd Hnz). split; reflexivity.
  - destruct IH as [IH1 IH2]. simpl. rewrite IH1, IH2. split; reflexivity.
Qed.

Lemma basex_decode_digits (z : nat) (digits : list N) :
  digits_ok 58 digits -> BaseX.count_zeroes digits = O ->
  exists out,
    digits_ok 256 out /\ BaseX.count_zeroes out = O
    /\ value 256 out = value 58 digits
    /\ BaseX.decodeUnsafe
         (string_of_list_ascii (List.repeat BaseX.LEADER z ++ map BaseX.charAt digits))
       = Returns (Some (map Sha256.byte_of_N (List.repeat 0 z ++ out))).
Proof.
  intros Hok Hz. unfold BaseX.decodeUnsafe.
  rewrite list_ascii_of_string_of_list_ascii.
  destruct (count_leader_digits z digits Hok Hz) as [-> ->].
  destruct (decode_loop_spec digits (List.repeat 0 (List.length (map BaseX.charAt digits))) 0 Hok)
    as (out & Hrun & Hval & Hok' & Hlen).
  - apply digits_ok_repeat_zero. lia.
  - rewrite value_repeat_zero; [simpl; lia | lia].
  - rewrite List.repeat_length, List.length_map, N.add_0_l. apply N.pow_le_mono_l. lia.
  - rewrite Hrun. simpl bindR.
    exists (BaseX.skip_zeroes out). repeat split.
    + apply skip_zeroes_ok, Hok'.
    + apply skip_zeroes_head.
    + rewrite skip_zeroes_value, Hval, value_repeat_zero; lia.
Qed.

Lemma basex_decode_encode (source : list byte) :
  exists s, BaseX.encode source = Returns s
            /\ BaseX.decodeUnsafe s = Returns (Some source).
Proof.
  destruct (basex_encode_digits source) as (digits & Hok & Hz & Hval & Henc).
  destruct (basex_decode_digits (BaseX.count_zeroes (map Byte.to_N source)) digits Hok Hz)
    as (out & Hok' & Hz' & Hval' & Hdec).
  eexists. split; [exact Henc|]. rewrite Hdec. do 2 f_equal.
  assert (out = BaseX.skip_zeroes (map Byte.to_N source)) as ->.
  { apply (value_inj_canonical 256); [lia | exact Hok' | | exact Hz' | | congruence].
    - apply skip_zeroes_ok, bytes_digits_ok.
    - apply skip_zeroes_head. }
  rewrite <- count_skip_zeroes, List.map_map.
  rewrite <- (List.map_id source) at 2. apply List.map_ext. intros b. apply byte_of_to_N.
Qed.

Lemma basex_encode_word (source : list byte) :
  exists s, BaseX.encode source = Returns s
            /\ forallb AutomergeUrl.is_word_char (list_ascii_of_string s) = true
            /\ (source <> [] -> list_ascii_of_string s <> []).
Proof.
  destruct (basex_encode_digits source) as (digits & Hok & Hz & Hval & Henc).
  eexists. split; [exact Henc|].
  rewrite list_ascii_of_string_of_list_ascii. split.
  - rewrite forallb_app. apply andb_true_intro. split.
    + apply forallb_forall. intros c Hc. apply List.repeat_spec in Hc. subst c. reflexivity.
    + apply forallb_forall. intros c Hc. apply in_map_iff in Hc as (d & <- & _).
      apply charAt_word.
  - intros Hne Happ. apply app_eq_nil in Happ as [Hrep Hdig].
    destruct digits; [|discriminate]. simpl in Hval.
    pose proof (count_skip_zeroes (map Byte.to_N source)) as Hsplit.
    destruct (BaseX.count_zeroes (map Byte.to_N source)); [|discriminate].
    simpl in Hsplit.
    destruct (BaseX.skip_zeroes (map Byte.to_N source)) as [|d ds] eqn:E.
    + destruct source; [congruence | discriminate].
    + pose proof (skip_zeroes_head (map Byte.to_N source)) as Hhead. rewrite E in Hhead.
      assert (d <> 0) as Hd by (destruct d; discriminate).
      pose proof (value_ge 256 ltac:(lia) d ds Hd) as Hge.
      assert (0 < 256 ^ N.of_nat (List.length ds)) by (apply N.neq_0_lt_0, N.pow_nonzero; lia).
      lia.
Qed.

(* ===================================================================== *)
(** ** SHA-256 returns thirty-two bytes *)
(* ===================================================================== *)

Lemma round_length (st : list N) (kw : N * N) :
  List.length st = 8%nat -> List.length (Sha256.round st kw) = 8%nat.
Proof.
  intros Hl. do 9 (destruct st as [|? st]; try discriminate Hl). reflexivity.
Qed.

Lemma rounds_length (kws : list (N * N)) :
  forall st, List.length st = 8%nat ->
             List.length (fold_left Sha256.round kws st) = 8%nat.
Proof.
  induction kws as [|kw kws IH]; intros st Hl; simpl; [exact Hl|].
  apply IH, round_length, Hl.
Qed.

Lemma compress_length (h block : list N) :
  List.length h = 8%nat -> List.length (Sha256.compress h block) = 8%nat.
Proof.
  intros Hl. unfold Sha256.compress.
  rewrite List.length_map, List.length_combine, rounds_length by exact Hl. lia.
Qed.

Lemma blocks_length (fuel : nat) :
  forall h bs, List.length h = 8%nat -> List.length (Sha256.blocks fuel h bs) = 8%nat.
Proof.
  induction fuel as [|fuel IH]; intros h bs Hl; simpl; [exact Hl|].
  destruct bs; [exact Hl|]. apply IH, compress_length, Hl.
Qed.

Lemma sha256_length (msg : list byte) : List.length (Sha256.sha256 msg) = 32%nat.
Proof.
  unfold Sha256.sha256. rewrite List.length_map.
  pose proof (blocks_length (List.length (Sha256.pad (map Byte.to_N msg))) Sha256.H0
                (Sha256.pad (map Byte.to_N msg)) eq_refl) as Hl.
  destruct (Sha256.blocks _ _ _) as [|w0 h]; [discriminate Hl|].
  do 8 (destruct h as [|? h]; try discriminate Hl).
  reflexivity.
Qed.

(* ===================================================================== *)
(** ** bs58check: the checksum of an encoded payload verifies *)
(* ===================================================================== *)

Lemma checksum4_length (payload : list byte) :
  List.length (firstn 4 (Bs58check.checksumFn payload)) = 4%nat.
Proof.
  rewrite List.length_firstn. unfold Bs58check.checksumFn. rewrite sha256_length. reflexivity.
Qed.

Lemma xor_at_firstn (i : nat) (l : list byte) :
  (i < 4)%nat -> Bs58check.xor_at i (firstn 4 l) l = 0.
Proof.
  intros Hi. unfold Bs58check.xor_at.
  assert (nth i (firstn 4 l) x00 = nth i l x00) as ->.
  { do 4 (destruct i as [|i]; [destruct l as [|? [|? [|? [|? ?]]]]; reflexivity|]). lia. }
  apply N.lxor_nilpotent.
Qed.

Lemma decodeRaw_checksum (payload : list byte) :
  Bs58check.decodeRaw (payload ++ firstn 4 (Bs58check.checksumFn payload)) = Some payload.
Proof.
  unfold Bs58check.decodeRaw.
  rewrite List.length_app, checksum4_length.
  replace (List.length payload + 4 - 4)%nat with (List.length payload) by lia.
  rewrite List.firstn_app, Nat.sub_diag, List.firstn_all, List.firstn_O, List.app_nil_r.
  rewrite List.skipn_app, Nat.sub_diag, List.skipn_all, List.skipn_O. simpl app.
  rewrite !xor_at_firstn by lia. reflexivity.
Qed.

Lemma bs58check_decode_encode (payload : list byte) :
  exists s, Bs58check.encode payload = Returns s
            /\ Bs58check.decodeUnsafe s = Returns (Some payload)
            /\ forallb AutomergeUrl.is_word_char (list_ascii_of_string s) = true
            /\ list_ascii_of_string s <> [].
Proof.
  unfold Bs58check.encode, Bs58check.decodeUnsafe.
  set (buffer := payload ++ firstn 4 (Bs58check.checksumFn payload)).
  destruct (basex_decode_encode buffer) as (s & Henc & Hdec).
  destruct (basex_encode_word buffer) as (s' & Henc' & Hword & Hne).
  rewrite Henc in Henc'. injection Henc' as <-.
  exists s. split; [exact Henc|]. split; [|split; [exact Hword|]].
  - rewrite Hdec. simpl. f_equal. apply decodeRaw_checksum.
  - apply Hne. intros Hnil.
    pose proof (checksum4_length payload) as Hl.
    apply (f_equal (@List.length byte)) in Hnil. unfold buffer in Hnil.
    rewrite List.length_app, Hl in Hnil. simpl in Hnil. lia.
Qed.

(* ===================================================================== *)
(** ** AutomergeUrl.js: what the regular expression accepts *)
(* ===================================================================== *)

Lemma strip_prefix_inv (p : string) :
  forall s r, AutomergeUrl.strip_prefix p s = Some r -> s = p +:+ r.
Proof.
  induction p as [|c p IH]; intros s r; simpl.
  - intros [= ->]. reflexivity.
  - destruct s as [|d s]; [discriminate|].
    destruct (Ascii.eqb c d) eqn:E; [|discriminate].
    apply Ascii.eqb_eq in E. subst d. intros Hs.
    change (String c p +:+ r) with (String c (p +:+ r)). f_equal. apply IH, Hs.
Qed.

Lemma strip_prefix_append (p r : string) : AutomergeUrl.strip_prefix p (p +:+ r) = Some r.
Proof.
  induction p as [|c p IH]; [reflexivity|].
  change (String c p +:+ r) with (String c (p +:+ r)). simpl.
  rewrite Ascii.eqb_refl. exact IH.
Qed.

Lemma url_match_inv (url d : string) :
  AutomergeUrl.url_match url = Some d -> url = AutomergeUrl.urlPrefix +:+ d.
Proof.
  unfold AutomergeUrl.url_match.
  destruct (AutomergeUrl.strip_prefix AutomergeUrl.urlPrefix url) as [rest|] eqn:E; [|discriminate].
  apply strip_prefix_inv in E.
  destruct (list_ascii_of_string rest) as [|c cs]; [discriminate|].
  destruct (forallb AutomergeUrl.is_word_char (c :: cs)); [|discriminate].
  intros [= <-]. exact E.
Qed.

Lemma url_match_prefix (e : string) :
  list_ascii_of_string e <> [] ->
  forallb AutomergeUrl.is_word_char (list_ascii_of_string e) = true ->
  AutomergeUrl.url_match (AutomergeUrl.urlPrefix +:+ e) = Some e.
Proof.
  intros Hne Hw. unfold AutomergeUrl.url_match.
  rewrite strip_prefix_append.
  destruct (list_ascii_of_string e) as [|c cs]; [congruence|].
  rewrite Hw. reflexivity.
Qed.

Lemma parse_returns_inv (url : string) (p : AutomergeUrl.ParsedUrl) :
  AutomergeUrl.parseAutomergeUrl url = Returns p ->
  url = AutomergeUrl.urlPrefix +:+ AutomergeUrl.documentId p
  /\ Bs58check.decodeUnsafe (AutomergeUrl.documentId p)
     = Returns (Some (AutomergeUrl.binaryDocumentId p)).
Proof.
  unfold AutomergeUrl.parseAutomergeUrl, AutomergeUrl.documentIdToBinary.
  destruct (AutomergeUrl.url_match url) as [d|] eqn:E; [|discriminate].
  apply url_match_inv in E.
  destruct (Bs58check.decodeUnsafe d) as [[b|]|] eqn:D; simpl; try discriminate.
  intros [= <-]. simpl. split; assumption.
Qed.

(** A binary documentId encodes to a word that the URL parser reads back. *)
Lemma parse_prefix_encoded (b : list byte) :
  exists e,
    AutomergeUrl.binaryToDocumentId b = Returns e
    /\ AutomergeUrl.parseAutomergeUrl (AutomergeUrl.urlPrefix +:+ e)
       = Returns {| AutomergeUrl.binaryDocumentId := b; AutomergeUrl.documentId := e |}.
Proof.
  destruct (bs58check_decode_encode b) as (e & Henc & Hdec & Hword & Hne).
  exists e. split; [exact Henc|].
  unfold AutomergeUrl.parseAutomergeUrl.
  rewrite (url_match_prefix e Hne Hword). simpl. rewrite Hdec. reflexivity.
Qed.

(** C1. For every 16-byte buffer [b], stringifying [b] to an automerge URL
    and parsing the URL back returns [b] as [binaryDocumentId]: the round trip
    loses nothing. *)
Theorem parse_stringify_roundtrip (b : list byte) :
  List.length b = 16%nat ->
  (let* url := AutomergeUrl.stringifyAutomergeUrl (AutomergeUrl.ArgValue (AutomergeUrl.VBinary b)) in
   let* parsed := AutomergeUrl.parseAutomergeUrl url in
   Returns (AutomergeUrl.binaryDocumentId parsed))
  = Returns b.
Proof.
  intros _.
  destruct (parse_prefix_encoded b) as (e & Henc & Hparse).
  unfold AutomergeUrl.stringifyAutomergeUrl. rewrite Henc. simpl.
  rewrite Hparse. reflexivity.
Qed.

Lemma parse_stringify_roundtrip_witness :
  (let* url := AutomergeUrl.stringifyAutomergeUrl
                 (AutomergeUrl.ArgValue
                    (AutomergeUrl.VBinary (unhex "f1c29c8474c84adeb800be47627d33bf"))) in
   let* parsed := AutomergeUrl.parseAutomergeUrl url in
   Returns (AutomergeUrl.binaryDocumentId parsed))
  = Returns (unhex "f1c29c8474c84adeb800be47627d33bf").
Proof.
  apply (parse_stringify_roundtrip (unhex "f1c29c8474c84adeb800be47627d33bf")).
  reflexivity.
Defined.

(** The same bytes, computed: the URL is the one the package documents. *)
Example stringify_example :
  AutomergeUrl.stringifyAutomergeUrl
    (AutomergeUrl.ArgValue (AutomergeUrl.VBinary (unhex "f1c29c8474c84adeb800be47627d33bf")))
  = Returns "automerge:4NMNnkMhL8jXrdJ9jamS58PAVdXu".
Proof. vm_compute. reflexivity. Qed.

(** C7. [parseAutomergeUrl] returns only on a string that is exactly the
    prefix "automerge:" followed by a valid base58check payload; on any other
    string (extra characters before or after, or a payload that does not
    decode) it throws, and [isValidAutomergeUrl] is false. *)
Theorem parse_rejects_extra_characters `{UuidPackage} (s : string) :
  (returned (AutomergeUrl.parseAutomergeUrl s) = true -> well_formed_url s)
  /\ (~ well_formed_url s ->
      returned (AutomergeUrl.parseAutomergeUrl s) = false
      /\ AutomergeUrl.isValidAutomergeUrl (AutomergeUrl.VString s) = false).
Proof.
  assert (returned (AutomergeUrl.parseAutomergeUrl s) = true -> well_formed_url s) as Hwf.
  { destruct (AutomergeUrl.parseAutomergeUrl s) as [p|e] eqn:E; [|discriminate].
    intros _. apply parse_returns_inv in E as [Hs Hd].
    exists (AutomergeUrl.documentId p), (AutomergeUrl.binaryDocumentId p). split; assumption. }
  split; [exact Hwf|].
  intros Hnot.
  assert (returned (AutomergeUrl.parseAutomergeUrl s) = false) as Hthrows.
  { destruct (returned (AutomergeUrl.parseAutomergeUrl s)); [|reflexivity].
    exfalso. apply Hnot, Hwf. reflexivity. }
  split; [exact Hthrows|].
  unfold AutomergeUrl.isValidAutomergeUrl.
  destruct (String.eqb s "" || negb (String.prefix AutomergeUrl.urlPrefix s)); [reflexivity|].
  destruct (AutomergeUrl.parseAutomergeUrl s); [discriminate Hthrows | reflexivity].
Qed.

Lemma decode_empty : Bs58check.decodeUnsafe "" = Returns None.
Proof. vm_compute. reflexivity. Qed.

(** "constructor" and "toString" are the names of properties of
    [Object.prototype] that are written in the base58 alphabet; neither has a
    checksum, so neither is a documentId. *)
Example prototype_names_are_not_ids :
  map Bs58check.decodeUnsafe ["constructor"; "toString"] = [Returns None; Returns None].
Proof. vm_compute. reflexivity. Qed.

Lemma decoded_not_empty (id : string) (b : list byte) :
  Bs58check.decodeUnsafe id = Returns (Some b) -> id <> "".
Proof. intros Hd ->. rewrite decode_empty in Hd. discriminate. Qed.

(** A character of the base58 alphabet is a word character. *)
Lemma base_map_word (c : ascii) (d : N) :
  BaseX.BASE_MAP c = Some d -> AutomergeUrl.is_word_char c = true.
Proof.
  assert (forallb (fun n => match BaseX.BASE_MAP (ascii_of_N n) with
                            | Some _ => AutomergeUrl.is_word_char (ascii_of_N n)
                            | None => true
                            end) (map N.of_nat (seq 0 256)) = true) as Hall
      by (vm_compute; reflexivity).
  rewrite forallb_forall in Hall.
  intros Hc. specialize (Hall (N_of_ascii c)). rewrite ascii_N_embedding, Hc in Hall.
  apply Hall, in_map_iff. exists (N.to_nat (N_of_ascii c)).
  pose proof (N_ascii_bounded c). split; [lia | apply in_seq; lia].
Qed.

Lemma decode_loop_word (cs : list ascii) :
  forall (buf out : list N),
    BaseX.decode_loop cs buf = Returns (Some out) ->
    forallb AutomergeUrl.is_word_char cs = true.
Proof.
  induction cs as [|c cs IH]; intros buf out; simpl; [reflexivity|].
  destruct (BaseX.BASE_MAP c) as [d|] eqn:Hc; [|discriminate].
  destruct (BaseX.mul_add 256 BaseX.BASE buf d) as [buf' carry].
  destruct (carry =? 0); [|discriminate].
  intros Hrun. rewrite (base_map_word c d Hc). simpl. eapply IH, Hrun.
Qed.

Lemma skip_leader_word (cs : list ascii) :
  forallb AutomergeUrl.is_word_char (BaseX.skip_leader cs) = true ->
  forallb AutomergeUrl.is_word_char cs = true.
Proof.
  induction cs as [|c cs IH]; simpl; [reflexivity|].
  destruct (Ascii.eqb c BaseX.LEADER) eqn:E.
  - apply Ascii.eqb_eq in E. subst c. intros Hw. simpl. apply IH, Hw.
  - intros Hw. exact Hw.
Qed.

Lemma decoded_word (payload : string) (bin : list byte) :
  Bs58check.decodeUnsafe payload = Returns (Some bin) ->
  forallb AutomergeUrl.is_word_char (list_ascii_of_string payload) = true.
Proof.
  unfold Bs58check.decodeUnsafe, BaseX.decodeUnsafe.
  destruct (BaseX.decode_loop _ _) as [[out|]|e] eqn:Hloop; simpl; try discriminate.
  intros _. apply skip_leader_word. eapply decode_loop_word, Hloop.
Qed.

(** The converse: a well-formed URL is parsed, so the format is exactly what
    [parseAutomergeUrl] accepts. *)
Lemma parse_accepts_well_formed (s : string) :
  well_formed_url s -> returned (AutomergeUrl.parseAutomergeUrl s) = true.
Proof.
  intros (payload & bin & -> & Hd).
  unfold AutomergeUrl.parseAutomergeUrl.
  rewrite url_match_prefix.
  - simpl. rewrite Hd. reflexivity.
  - intros Hnil. apply (decoded_not_empty payload bin Hd).
    destruct payload; [reflexivity | discriminate].
  - eapply decoded_word, Hd.
Qed.

Lemma trailing_space_not_well_formed :
  ~ well_formed_url "automerge:4NMNnkMhL8jXrdJ9jamS58PAVdXu ".
Proof.
  intros (payload & bin & Hs & Hd).
  apply (f_equal (AutomergeUrl.strip_prefix AutomergeUrl.urlPrefix)) in Hs.
  rewrite strip_prefix_append in Hs. vm_compute in Hs. injection Hs as <-.
  vm_compute in Hd. discriminate Hd.
Qed.

Lemma parse_rejects_extra_characters_witness :
  returned (AutomergeUrl.parseAutomergeUrl "automerge:4NMNnkMhL8jXrdJ9jamS58PAVdXu ") = false
  /\ @AutomergeUrl.isValidAutomergeUrl UuidModel.package
       (AutomergeUrl.VString "automerge:4NMNnkMhL8jXrdJ9jamS58PAVdXu ") = false.
Proof.
  apply (proj2 (@parse_rejects_extra_characters UuidModel.package
                  "automerge:4NMNnkMhL8jXrdJ9jamS58PAVdXu ")).
  exact trailing_space_not_well_formed.
Defined.

(** The URL of the round trip is valid; one character more, before or after,
    or a changed checksum, and it is not. *)
Example valid_url_examples :
  map (fun s => @AutomergeUrl.isValidAutomergeUrl UuidModel.package (AutomergeUrl.VString s))
      [ "automerge:4NMNnkMhL8jXrdJ9jamS58PAVdXu";
        "automerge:4NMNnkMhL8jXrdJ9jamS58PAVdXu ";
        " automerge:4NMNnkMhL8jXrdJ9jamS58PAVdXu";
        "automerge:4NMNnkMhL8jXrdJ9jamS58PAVdXu/path";
        "automerge: 4NMNnkMhL8jXrdJ9jamS58PAVdXu";
        "automerge:4NMNnkMhL8jXrdJ9jamS58PAVdXv";
        "automerge:" ]
  = [ true; false; false; false; false; false; false ].
Proof. vm_compute. reflexivity. Qed.

Example parse_throws_examples :
  map (fun s => returned (AutomergeUrl.parseAutomergeUrl s))
      [ "automerge:4NMNnkMhL8jXrdJ9jamS58PAVdXu";
        "automerge:4NMNnkMhL8jXrdJ9jamS58PAVdXu ";
        "xautomerge:4NMNnkMhL8jXrdJ9jamS58PAVdXu";
        "automerge:4NMNnkMhL8jXrdJ9jamS58PAVdXu#x";
        "automerge:4NMNnkMhL8jXrdJ9jamS58PAVdXv";
        "4NMNnkMhL8jXrdJ9jamS58PAVdXu" ]
  = [ true; false; false; false; false; false ].
Proof. vm_compute. reflexivity. Qed.

(* ===================================================================== *)
(** ** NetworkSubsystem: the filter of inbound ephemeral messages *)
(* ===================================================================== *)

Lemma from_source_key (sender : option PeerId) (session : option SessionId) (m : Message) :
  from_source sender session m = true ->
  isEphemeralMessage m = true
  /\ Network.getEphemeralMessageSource m
     = Network.template sender +:+ ":" +:+ Network.template session.
Proof.
  unfold from_source. intros H.
  apply andb_true_iff in H as [H Hs]. apply andb_true_iff in H as [He Hp].
  apply bool_decide_eq_true in Hs, Hp.
  unfold Network.getEphemeralMessageSource. rewrite Hs, Hp. split; [exact He | reflexivity].
Qed.

Lemma ephemeral_is_repo (m : Message) : isEphemeralMessage m = true -> isRepoMessage m = true.
Proof.
  unfold isEphemeralMessage, isRepoMessage. intros H. simpl. rewrite H.
  destruct (String.eqb (type m) "sync"); reflexivity.
Qed.

(** The counts of one source that [receive_all] delivers are above the count
    stored for the source at the start, and increase strictly. *)
Lemma receive_all_sorted (sender : option PeerId) (session : option SessionId)
    (msgs : list Message) :
  forall ns : Network.NetworkSubsystem,
    let k := Network.template sender +:+ ":" +:+ Network.template session in
    let cs := delivered_counts sender session (Network.receive_all msgs ns).2 in
    StronglySorted N.lt cs
    /\ forall last, Network.ephemeralSessionCounts ns !! k = Some last ->
                    Forall (fun c => last < c) cs.
Proof.
  induction msgs as [|m rest IH]; intros ns k cs.
  - subst cs. simpl. split; [constructor | intros; constructor].
  - subst cs. simpl.
    destruct (Network.on_message m ns) as [ns1 e1] eqn:Hstep.
    destruct (Network.receive_all rest ns1) as [ns2 e2] eqn:Hrest.
    specialize (IH ns1). rewrite Hrest in IH. simpl in IH. destruct IH as [IHs IHb].
    fold k in IHb. simpl.
    unfold delivered_counts in *. rewrite flat_map_app.
    unfold Network.on_message in Hstep.
    destruct (isRepoMessage m) eqn:Hrepo; simpl in Hstep.
    2:{ injection Hstep as <- <-. simpl. split; assumption. }
    destruct (isEphemeralMessage m) eqn:Heph.
    2:{ injection Hstep as <- <-. simpl.
        assert (from_source sender session m = false) as ->.
        { unfold from_source. rewrite Heph. reflexivity. }
        simpl. split; assumption. }
    set (src := Network.getEphemeralMessageSource m) in *.
    destruct (match Network.ephemeralSessionCounts ns !! src with
              | Some last => Network.count_gt (count m) last
              | None => true
              end) eqn:Hpass.
    2:{ injection Hstep as <- <-. simpl. split; assumption. }
    injection Hstep as <- <-. simpl in IHb. simpl.
    rewrite List.app_nil_r.
    destruct (decide (src = k)) as [Hk|Hk].
    + (* the message is of the key [k]: the stored count becomes its count *)
      destruct (count m) as [c|] eqn:Hc.
      * simpl in IHb. rewrite Hk, lookup_insert_eq in IHb.
        specialize (IHb c eq_refl).
        assert (forall last, Network.ephemeralSessionCounts ns !! k = Some last -> last < c)
          as Hlast.
        { intros last Hl. rewrite Hk, Hl in Hpass. simpl in Hpass.
          apply N.ltb_lt in Hpass. exact Hpass. }
        destruct (from_source sender session m); simpl.
        -- split.
           ++ constructor; assumption.
           ++ intros last Hl. constructor; [apply Hlast, Hl|].
              eapply Forall_impl; [exact IHb|]. simpl. intros x Hx.
              specialize (Hlast last Hl). lia.
        -- split; [assumption|].
           intros last Hl. eapply Forall_impl; [exact IHb|]. simpl. intros x Hx.
           specialize (Hlast last Hl). lia.
      * assert (Network.ephemeralSessionCounts ns !! k = None) as Hnone.
        { rewrite Hk in Hpass. destruct (Network.ephemeralSessionCounts ns !! k); [|reflexivity].
          simpl in Hpass. discriminate. }
        assert ((if from_source sender session m then @nil N else []) = []) as ->
            by (destruct (from_source sender session m); reflexivity).
        simpl. split; [assumption|].
        intros last Hl. rewrite Hnone in Hl. discriminate.
    + (* another key: the stored count of [k] is untouched *)
      assert (from_source sender session m = false) as ->.
      { destruct (from_source sender session m) eqn:F; [|reflexivity].
        apply from_source_key in F as [_ F]. fold src in F. fold k in F. contradiction. }
      simpl. split; [assumption|].
      intros last Hl. apply IHb.
      unfold Network.store_count. destruct (count m).
      * rewrite lookup_insert_ne by exact Hk. exact Hl.
      * rewrite lookup_delete_ne by exact Hk. exact Hl.
Qed.

Lemma strongly_sorted_lt_nodup (l : list N) : StronglySorted N.lt l -> List.NoDup l.
Proof.
  induction 1 as [|x l Hs IH Hall]; constructor; [|exact IH].
  intros Hin. rewrite Forall_forall in Hall.
  apply list_elem_of_In, Hall in Hin. lia.
Qed.

(** C2. The filter of inbound ephemeral messages: a message whose count is at
    most the count last seen for its source is dropped (nothing is emitted and
    the state is unchanged); and for every source [(senderId, sessionId)] the
    counts of the messages delivered as "message" events increase strictly in
    the order of delivery, so no count is delivered twice and none is
    delivered after a larger one. *)
Theorem inbound_ephemeral_monotone :
  (forall (ns : Network.NetworkSubsystem) (msg : Message) (last c : N),
      isEphemeralMessage msg = true ->
      Network.ephemeralSessionCounts ns !! Network.getEphemeralMessageSource msg = Some last ->
      count msg = Some c -> c <= last ->
      Network.on_message msg ns = (ns, []))
  /\ (forall (ns : Network.NetworkSubsystem) (msgs : list Message)
             (sender : option PeerId) (session : option SessionId),
         let cs := delivered_counts sender session (Network.receive_all msgs ns).2 in
         StronglySorted N.lt cs /\ List.NoDup cs).
Proof.
  split.
  - intros ns msg last c Heph Hlast Hc Hle.
    unfold Network.on_message.
    rewrite (ephemeral_is_repo msg Heph), Heph, Hlast, Hc. simpl.
    assert ((last <? c) = false) as -> by (apply N.ltb_ge; exact Hle).
    reflexivity.
  - intros ns msgs sender session cs.
    destruct (receive_all_sorted sender session msgs ns) as [Hs _].
    split; [exact Hs | apply strongly_sorted_lt_nodup, Hs].
Qed.

(** Scenario "ephemeral dedupe": counts 1, 2, 3 of one source arrive as
    3, 1, 2; only the message with count 3 is delivered. *)
Example ephemeral_dedupe :
  (Network.receive_all
     [ ephemeral_from "alice" "s1" 3 "bob"; ephemeral_from "alice" "s1" 1 "bob";
       ephemeral_from "alice" "s1" 2 "bob" ] bob_network).2
  = [ Network.EmitMessage (ephemeral_from "alice" "s1" 3 "bob") ].
Proof. vm_compute. reflexivity. Qed.

Example ephemeral_in_order :
  delivered_counts (Some "alice") (Some "s1")
    (Network.receive_all
       [ ephemeral_from "alice" "s1" 1 "bob"; ephemeral_from "alice" "s1" 3 "bob";
         ephemeral_from "alice" "s2" 1 "bob"; ephemeral_from "alice" "s1" 3 "bob";
         ephemeral_from "alice" "s1" 2 "bob"; ephemeral_from "alice" "s1" 5 "bob" ]
       bob_network).2
  = [1; 3; 5].
Proof. vm_compute. reflexivity. Qed.

(* ===================================================================== *)
(** ** NetworkSubsystem: tagging of outbound messages *)
(* ===================================================================== *)

Lemma send_routed (ns : Network.NetworkSubsystem) (m : Message) (a : Network.AdapterRef) :
  Network.adaptersByPeer ns !! targetId m = Some a ->
  Network.send m ns
  = ((Network.prepareMessage m ns).1, [Network.AdapterSend a (Network.prepareMessage m ns).2]).
Proof.
  intros Hr. unfold Network.send. rewrite Hr.
  destruct (Network.prepareMessage m ns). reflexivity.
Qed.

Lemma send_count_mono (ns : Network.NetworkSubsystem) (m : Message) :
  Network.count_ ns <= Network.count_ (Network.send m ns).1.
Proof.
  unfold Network.send.
  destruct (Network.adaptersByPeer ns !! targetId m); [|simpl; lia].
  unfold Network.prepareMessage.
  destruct (String.eqb (type m) "ephemeral"); [|simpl; lia].
  destruct (count m); simpl; lia.
Qed.

Lemma send_all_sorted (msgs : list Message) :
  forall ns : Network.NetworkSubsystem,
    let cs := assigned_counts (Network.send_all msgs ns).2 in
    StronglySorted N.lt cs /\ Forall (fun c => Network.count_ ns < c) cs.
Proof.
  induction msgs as [|m rest IH]; intros ns cs; subst cs.
  - simpl. split; constructor.
  - simpl.
    destruct (Network.send m ns) as [ns1 e1] eqn:Hsend.
    destruct (Network.send_all rest ns1) as [ns2 log] eqn:Hrest.
    specialize (IH ns1). rewrite Hrest in IH. simpl in IH. destruct IH as [IHs IHb].
    pose proof (send_count_mono ns m) as Hmono. rewrite Hsend in Hmono. simpl in Hmono.
    assert (Forall (fun c => Network.count_ ns < c) (assigned_counts log)) as IHb'.
    { eapply Forall_impl; [exact IHb|]. simpl. intros x Hx. lia. }
    unfold assigned_counts at 1 2. simpl. fold (assigned_counts log).
    destruct (is_new_ephemeral m) eqn:Hnew; [|simpl; split; assumption].
    unfold Network.send in Hsend.
    destruct (Network.adaptersByPeer ns !! targetId m) as [a|].
    2:{ injection Hsend as <- <-. simpl. split; assumption. }
    unfold is_new_ephemeral in Hnew. apply andb_true_iff in Hnew as [Ht Hc].
    apply bool_decide_eq_true in Hc.
    unfold Network.prepareMessage in Hsend. rewrite Ht, Hc in Hsend.
    injection Hsend as <- <-. simpl in *.
    split.
    + constructor; assumption.
    + constructor; [lia | exact IHb'].
Qed.

(** C3, as the code has it.  A message whose target is in the routing map is
    handed to that peer's adapter; unless it is an ephemeral message that
    already carries a count (one passed on from another peer, which is handed
    on unchanged), its senderId is the subsystem's own peerId.  An ephemeral
    message this peer originates also gets the session's sessionId and the next
    value of the counter, and over successive calls of [send] these counts
    increase strictly. *)
Theorem send_tags_outbound :
  (forall (ns : Network.NetworkSubsystem) (m : Message) (a : Network.AdapterRef),
      Network.adaptersByPeer ns !! targetId m = Some a ->
      exists out,
        (Network.send m ns).2 = [Network.AdapterSend a out]
        /\ (is_forwarded_ephemeral m = false -> senderId out = Some (Network.peerId ns))
        /\ (is_forwarded_ephemeral m = true -> out = m)
        /\ (is_new_ephemeral m = true ->
            count out = Some (Network.count_ ns + 1)
            /\ sessionId out = Some (Network.sessionId_ ns)
            /\ Network.count_ (Network.send m ns).1 = Network.count_ ns + 1))
  /\ (forall (ns : Network.NetworkSubsystem) (msgs : list Message),
         StronglySorted N.lt (assigned_counts (Network.send_all msgs ns).2)).
Proof.
  split.
  - intros ns m a Hr. rewrite (send_routed ns m a Hr). simpl.
    eexists. split; [reflexivity|].
    unfold is_forwarded_ephemeral, is_new_ephemeral, Network.prepareMessage.
    destruct (String.eqb (type m) "ephemeral"); simpl.
    + destruct (count m) as [c|] eqn:Hc; simpl.
      * repeat split; try discriminate; try reflexivity.
      * repeat split; try discriminate; try reflexivity.
    + repeat split; try discriminate; try reflexivity.
  - intros ns msgs. apply (send_all_sorted msgs ns).
Qed.

(** C3 as stated fails: "bob" passes on an ephemeral message of "alice" that
    carries a count; it reaches the adapter unchanged, its senderId still
    "alice". *)
Lemma send_keeps_foreign_sender :
  Network.adaptersByPeer bob_network !! targetId (ephemeral_from "alice" "s1" 7 "carol")
  = Some 0%nat
  /\ Network.send (ephemeral_from "alice" "s1" 7 "carol") bob_network
     = (bob_network, [Network.AdapterSend 0%nat (ephemeral_from "alice" "s1" 7 "carol")])
  /\ senderId (ephemeral_from "alice" "s1" 7 "carol") <> Some (Network.peerId bob_network).
Proof.
  split; [vm_compute; reflexivity|].
  split; [vm_compute; reflexivity|].
  vm_compute. discriminate.
Qed.

Example send_tags_examples :
  (Network.send_all [ new_ephemeral "carol"; sync_to "carol"; new_ephemeral "dave";
                      new_ephemeral "carol" ] bob_network).2
  = [ (new_ephemeral "carol",
       [ Network.AdapterSend 0%nat
           {| type := "ephemeral"; senderId := Some "bob"; targetId := "carol";
              documentId := Some "4NMNnkMhL8jXrdJ9jamS58PAVdXu"; count := Some 1;
              sessionId := Some "k3x9"; data := Some [] |} ]);
      (sync_to "carol",
       [ Network.AdapterSend 0%nat
           {| type := "sync"; senderId := Some "bob"; targetId := "carol";
              documentId := Some "4NMNnkMhL8jXrdJ9jamS58PAVdXu"; count := None;
              sessionId := None; data := Some [] |} ]);
      (new_ephemeral "dave", []);
      (new_ephemeral "carol",
       [ Network.AdapterSend 0%nat
           {| type := "ephemeral"; senderId := Some "bob"; targetId := "carol";
              documentId := Some "4NMNnkMhL8jXrdJ9jamS58PAVdXu"; count := Some 2;
              sessionId := Some "k3x9"; data := Some [] |} ]) ].
Proof. vm_compute. reflexivity. Qed.

(* ===================================================================== *)
(** ** Properties that every call of the Repo keeps *)
(* ===================================================================== *)

Section Preservation.
Variable P : Repo -> Prop.

Lemma preserves_ret {A : Type} (a : A) : preserves P (ret a).
Proof. intros r HP. exact HP. Qed.

Lemma preserves_throw {A : Type} (e : JsError) : preserves P (@throw A e).
Proof. intros r HP. exact HP. Qed.

Lemma preserves_liftR {A : Type} (x : Result A) : preserves P (liftR x).
Proof. intros r HP. exact HP. Qed.

Lemma preserves_gets {A : Type} (f : Repo -> A) : preserves P (gets f).
Proof. intros r HP. exact HP. Qed.

Lemma preserves_handle_get {A : Type} (h : HandleRef) (f : Handle.DocHandle -> A) :
  preserves P (handle_get h f).
Proof. intros r HP. unfold handle_get. destruct (handles r !! h); exact HP. Qed.

Lemma preserves_bind {A B : Type} (m : M A) (k : A -> M B) :
  preserves P m -> (forall a, preserves P (k a)) -> preserves P (bindM m k).
Proof.
  intros Hm Hk r HP. unfold bindM. specialize (Hm r HP).
  destruct (m r) as [[a|e] r']; simpl in *; [apply Hk, Hm | exact Hm].
Qed.

Lemma preserves_when (b : bool) (m : M unit) : preserves P m -> preserves P (when b m).
Proof. intros Hm. destruct b; [exact Hm | apply preserves_ret]. Qed.

Lemma preserves_catch_log (m : M unit) : preserves P m -> preserves P (catch_log m).
Proof.
  intros Hm r HP. unfold catch_log. specialize (Hm r HP).
  destruct (m r) as [[a|e] r']; exact Hm.
Qed.

Lemma preserves_for_each {A : Type} (l : list A) (body : A -> M unit) :
  (forall x, preserves P (body x)) -> preserves P (for_each l body).
Proof.
  intros Hb. induction l as [|x l IH]; simpl.
  - apply preserves_ret.
  - apply preserves_bind; [apply Hb | intros _; exact IH].
Qed.

Lemma preserves_all_settled {A : Type} (l : list A) (body : A -> M unit) :
  (forall x, preserves P (body x)) -> preserves P (all_settled l body).
Proof.
  intros Hb. induction l as [|x l IH]; simpl.
  - apply preserves_ret.
  - intros r HP. specialize (Hb x r HP).
    destruct (body x r) as [[a|e] r']; simpl in *; apply IH, Hb.
Qed.

Lemma preserves_modify (f : Repo -> Repo) :
  (forall r, P r -> P (f r)) -> preserves P (modify f).
Proof. intros Hf r HP. apply Hf, HP. Qed.

End Preservation.

(* ===================================================================== *)
(** ** The handle cache stays consistent *)
(* ===================================================================== *)

Lemma handle_method_id (m : HandleMethod) (d : Handle.DocHandle) :
  Handle.documentId (handle_method m d) = Handle.documentId d.
Proof. destruct m; simpl; destruct d as [id st dc rh]; destruct st; try reflexivity;
       destruct dc; reflexivity. Qed.

Lemma doneLoading_id (d : Handle.DocHandle) :
  Handle.documentId (Handle.doneLoading d) = Handle.documentId d.
Proof. apply (handle_method_id Method_doneLoading). Qed.

Lemma request_id (d : Handle.DocHandle) :
  Handle.documentId (Handle.request d) = Handle.documentId d.
Proof. apply (handle_method_id Method_request). Qed.

Lemma unload_id (d : Handle.DocHandle) :
  Handle.documentId (Handle.unload d) = Handle.documentId d.
Proof. apply (handle_method_id Method_unload). Qed.

Lemma consistent_frame (f : Repo -> Repo) :
  (forall r, handleCache (f r) = handleCache r) ->
  (forall r, handles (f r) = handles r) ->
  preserves cache_consistent (modify f).
Proof.
  intros Hc Hh. apply preserves_modify. intros r Hr id h. rewrite Hc, Hh. apply Hr.
Qed.

Lemma consistent_effect (e : RepoEffect) : preserves cache_consistent (effect e).
Proof. apply consistent_frame; reflexivity. Qed.

Lemma consistent_handle_call (h : HandleRef) (f : Handle.DocHandle -> Handle.DocHandle) :
  (forall d, Handle.documentId (f d) = Handle.documentId d) ->
  preserves cache_consistent (handle_call h f).
Proof.
  intros Hf. apply preserves_modify. intros r Hr id h' Hc. simpl in *.
  destruct (Hr id h' Hc) as (d & Hd & Hid).
  destruct (decide (h = h')) as [->|Hne].
  - exists (f d). rewrite list_lookup_alter_eq. rewrite Hd. simpl. rewrite Hf. split; [reflexivity | exact Hid].
  - exists d. rewrite list_lookup_alter_ne by exact Hne. split; assumption.
Qed.

Lemma consistent_cache_delete (id : DocumentId) :
  preserves cache_consistent
    (modify (fun r => set_handleCache (delete id (handleCache r)) r)).
Proof.
  apply preserves_modify. intros r Hr id' h Hc. simpl in *.
  apply lookup_delete_Some in Hc as [_ Hc]. apply Hr, Hc.
Qed.

Lemma consistent_getHandle (id : DocumentId) : preserves cache_consistent (Repo_getHandle id).
Proof.
  intros r Hr. unfold Repo_getHandle, bindM, gets, ret, throw, modify. simpl.
  destruct (handleCache r !! id) as [h|] eqn:Hc; simpl; [exact Hr|].
  destruct (String.eqb id ""); simpl; [exact Hr|].
  intros id' h' Hc'. simpl in *.
  destruct (decide (id = id')) as [<-|Hne].
  - rewrite lookup_insert_eq in Hc'. injection Hc' as <-.
    exists (Handle.constructor id). split; [|reflexivity].
    rewrite lookup_app_r by lia. rewrite Nat.sub_diag. reflexivity.
  - rewrite lookup_insert_ne in Hc' by exact Hne.
    destruct (Hr id' h' Hc') as (d & Hd & Hid).
    exists d. split; [|exact Hid].
    rewrite lookup_app_l; [exact Hd|]. apply lookup_lt_Some in Hd. exact Hd.
Qed.

Create HintDb consistent discriminated.

Lemma consistent_frame_storage (f : option StorageSubsystem -> option StorageSubsystem) :
  preserves cache_consistent (modify (fun r => set_storageSubsystem (f (storageSubsystem r)) r)).
Proof. apply consistent_frame; reflexivity. Qed.

Lemma consistent_frame_synchronizer (f : Repo -> CollectionSynchronizer) :
  preserves cache_consistent (modify (fun r => set_synchronizer (f r) r)).
Proof. apply consistent_frame; reflexivity. Qed.

Lemma consistent_frame_throttled (f : Repo -> gmap string (option SyncStatePayload)) :
  preserves cache_consistent (modify (fun r => set_throttledSaveSyncStateHandlers (f r) r)).
Proof. apply consistent_frame; reflexivity. Qed.

Lemma consistent_frame_metadata (f : Repo -> gmap string PeerMetadata) :
  preserves cache_consistent (modify (fun r => set_peerMetadataByPeerId (f r) r)).
Proof. apply consistent_frame; reflexivity. Qed.

Lemma consistent_update (h : nat) (callback : option Doc -> Doc) :
  preserves cache_consistent (handle_call h (Handle.update callback)).
Proof. apply consistent_handle_call. reflexivity. Qed.

Lemma consistent_setRemoteHeads (h : nat) (storage : string) (heads : Heads) :
  preserves cache_consistent (handle_call h (Handle.setRemoteHeads storage heads)).
Proof. apply consistent_handle_call. reflexivity. Qed.

Lemma consistent_handle_delete (h : nat) :
  preserves cache_consistent (handle_call h Handle.delete).
Proof. apply consistent_handle_call. reflexivity. Qed.

Lemma consistent_doneLoading (h : nat) :
  preserves cache_consistent (handle_call h Handle.doneLoading).
Proof. apply consistent_handle_call, doneLoading_id. Qed.

Lemma consistent_request (h : nat) :
  preserves cache_consistent (handle_call h Handle.request).
Proof. apply consistent_handle_call, request_id. Qed.

Lemma consistent_unload (h : nat) :
  preserves cache_consistent (handle_call h Handle.unload).
Proof. apply consistent_handle_call, unload_id. Qed.

Lemma consistent_handle_method (h : nat) (m : HandleMethod) :
  preserves cache_consistent (handle_call h (handle_method m)).
Proof. apply consistent_handle_call, handle_method_id. Qed.

#[local] Hint Resolve consistent_effect consistent_getHandle consistent_cache_delete
  consistent_frame_storage consistent_frame_synchronizer consistent_frame_throttled
  consistent_frame_metadata consistent_update consistent_setRemoteHeads
  consistent_handle_delete consistent_doneLoading consistent_request consistent_unload
  consistent_handle_method : consistent.

(** A call keeps the cache consistent when each of its steps does. *)
Ltac consistent_call :=
  repeat first
    [ solve [auto 1 with consistent nocore]
    | apply preserves_ret | apply preserves_throw | apply preserves_liftR
    | apply preserves_gets | apply preserves_handle_get
    | apply preserves_catch_log | apply preserves_when
    | apply preserves_for_each; intros ? | apply preserves_all_settled; intros ?
    | apply preserves_bind; [| intros ?]
    | match goal with
      | |- preserves _ (match ?x with _ => _ end) => destruct x
      end ].

Section ConsistentCalls.
Context `{UuidPackage}.

Lemma consistent_find (id : AutomergeUrl.IdValue) : preserves cache_consistent (Repo_find id).
Proof. unfold Repo_find. consistent_call. Qed.
Hint Resolve consistent_find : consistent.

Lemma consistent_initDocSynchronizer (h : nat) :
  preserves cache_consistent (CollectionSynchronizer_initDocSynchronizer h).
Proof. unfold CollectionSynchronizer_initDocSynchronizer. consistent_call. Qed.
Hint Resolve consistent_initDocSynchronizer : consistent.

Lemma consistent_fetchDocSynchronizer (id : string) :
  preserves cache_consistent (CollectionSynchronizer_fetchDocSynchronizer id).
Proof. unfold CollectionSynchronizer_fetchDocSynchronizer. consistent_call. Qed.
Hint Resolve consistent_fetchDocSynchronizer : consistent.

Lemma consistent_beginSync (id : string) (peerIds : list string) :
  preserves cache_consistent (DocSynchronizer_beginSync_call id peerIds).
Proof. unfold DocSynchronizer_beginSync_call. consistent_call. Qed.
Hint Resolve consistent_beginSync : consistent.

Lemma consistent_endSync (id peer : string) :
  preserves cache_consistent (DocSynchronizer_endSync_call id peer).
Proof. unfold DocSynchronizer_endSync_call. consistent_call. Qed.
Hint Resolve consistent_endSync : consistent.

Lemma consistent_generousPeers (id : string) :
  preserves cache_consistent (CollectionSynchronizer_documentGenerousPeers id).
Proof. unfold CollectionSynchronizer_documentGenerousPeers. consistent_call. Qed.
Hint Resolve consistent_generousPeers : consistent.

Lemma consistent_sync_receiveMessage (message : Message) :
  preserves cache_consistent (CollectionSynchronizer_receiveMessage message).
Proof. unfold CollectionSynchronizer_receiveMessage. consistent_call. Qed.
Hint Resolve consistent_sync_receiveMessage : consistent.

Lemma consistent_addDocument (id : string) :
  preserves cache_consistent (CollectionSynchronizer_addDocument id).
Proof. unfold CollectionSynchronizer_addDocument. consistent_call. Qed.
Hint Resolve consistent_addDocument : consistent.

Lemma consistent_addPeer (peer : string) :
  preserves cache_consistent (CollectionSynchronizer_addPeer peer).
Proof. unfold CollectionSynchronizer_addPeer. consistent_call. Qed.
Hint Resolve consistent_addPeer : consistent.

Lemma consistent_removePeer (peer : string) :
  preserves cache_consistent (CollectionSynchronizer_removePeer peer).
Proof. unfold CollectionSynchronizer_removePeer. consistent_call. Qed.
Hint Resolve consistent_removePeer : consistent.

Lemma consistent_register (h : nat) :
  preserves cache_consistent (Repo_registerHandleWithSubsystems h).
Proof. unfold Repo_registerHandleWithSubsystems. consistent_call. Qed.
Hint Resolve consistent_register : consistent.

Lemma consistent_find_then (h : nat) (loadedDoc : option Doc) :
  preserves cache_consistent (Repo_find_then h loadedDoc).
Proof. unfold Repo_find_then. consistent_call. Qed.

Lemma consistent_create (v4 : list byte) (initialValue : option InitialValue) :
  preserves cache_consistent (Repo_create v4 initialValue).
Proof. unfold Repo_create. consistent_call. Qed.
Hint Resolve consistent_create : consistent.

Lemma consistent_clone (v4 : list byte) (h : nat) :
  preserves cache_consistent (Repo_clone v4 h).
Proof. unfold Repo_clone. consistent_call. Qed.

Lemma consistent_import (v4 binary : list byte) :
  preserves cache_consistent (Repo_import v4 binary).
Proof. unfold Repo_import. consistent_call. Qed.

Lemma consistent_delete (id : AutomergeUrl.IdValue) :
  preserves cache_consistent (Repo_delete id).
Proof. unfold Repo_delete, Repo_on_delete_document. consistent_call. Qed.

Lemma consistent_export (id : AutomergeUrl.IdValue) :
  preserves cache_consistent (Repo_export id).
Proof. unfold Repo_export. consistent_call. Qed.

Lemma consistent_removeFromCache (id : string) :
  preserves cache_consistent (Repo_removeFromCache id).
Proof. unfold Repo_removeFromCache. consistent_call. Qed.

Lemma consistent_removeFromCache_then (id : string) (h : nat) :
  preserves cache_consistent (Repo_removeFromCache_then id h).
Proof. unfold Repo_removeFromCache_then. consistent_call. Qed.

Lemma consistent_receiveMessage (message : Message) :
  preserves cache_consistent (Repo_receiveMessage message).
Proof. unfold Repo_receiveMessage. consistent_call. Qed.

Lemma consistent_on_peer (peer : string) (meta : option PeerMetadata) :
  preserves cache_consistent (Repo_on_peer peer meta).
Proof. unfold Repo_on_peer. consistent_call. Qed.

Lemma consistent_saveSyncState (payload : SyncStatePayload) :
  preserves cache_consistent (Repo_saveSyncState payload).
Proof. unfold Repo_saveSyncState. consistent_call. Qed.
Hint Resolve consistent_saveSyncState : consistent.

Lemma consistent_throttle_fire (storage : string) :
  preserves cache_consistent (Repo_throttle_fire storage).
Proof. unfold Repo_throttle_fire. consistent_call. Qed.

Lemma consistent_on_sync_state (payload : SyncStatePayload) :
  preserves cache_consistent (Repo_on_sync_state payload).
Proof. unfold Repo_on_sync_state. consistent_call. Qed.

Lemma consistent_on_heads_changed (h : nat) (d : Doc) :
  preserves cache_consistent (Repo_on_heads_changed h d).
Proof. unfold Repo_on_heads_changed. consistent_call. Qed.

Lemma consistent_flush (documents : option (list string)) :
  preserves cache_consistent (Repo_flush documents).
Proof. unfold Repo_flush. consistent_call. Qed.

Lemma consistent_onLoadSyncState (h : nat) (peer : string) :
  preserves cache_consistent (CollectionSynchronizer_onLoadSyncState h peer).
Proof. unfold CollectionSynchronizer_onLoadSyncState. consistent_call. Qed.

Lemma consistent_run_call (c : RepoCall) (r : Repo) :
  cache_consistent r -> cache_consistent (run_call c r).
Proof.
  intros Hr. destruct c; simpl.
  - apply consistent_create, Hr.
  - apply consistent_find, Hr.
  - apply consistent_find_then, Hr.
  - apply consistent_clone, Hr.
  - apply consistent_import, Hr.
  - apply consistent_delete, Hr.
  - apply consistent_export, Hr.
  - apply consistent_removeFromCache, Hr.
  - apply consistent_removeFromCache_then, Hr.
  - apply consistent_receiveMessage, Hr.
  - apply consistent_on_peer, Hr.
  - apply consistent_removePeer, Hr.
  - apply consistent_on_sync_state, Hr.
  - apply consistent_throttle_fire, Hr.
  - apply consistent_on_heads_changed, Hr.
  - apply consistent_flush, Hr.
  - apply consistent_onLoadSyncState, Hr.
  - apply consistent_handle_method, Hr.
Qed.

Lemma consistent_run_calls (cs : list RepoCall) :
  forall r, cache_consistent r -> cache_consistent (run_calls cs r).
Proof.
  induction cs as [|c cs IH]; intros r Hr; simpl; [exact Hr|].
  apply IH, consistent_run_call, Hr.
Qed.

Lemma consistent_constructor (storage : bool)
    (policy : option (string -> option string -> bool)) (gossip : bool) :
  cache_consistent (Repo_constructor storage policy gossip).
Proof. intros id h Hc. simpl in Hc. rewrite lookup_empty in Hc. discriminate. Qed.

End ConsistentCalls.

(* ===================================================================== *)
(** ** Calls that return: a rule for each step *)
(* ===================================================================== *)

Lemma returns_bind {A B : Type} (m : M A) (k : A -> M B) (r : Repo) (Q : B -> Repo -> Prop) :
  returns_with m r (fun a r' => returns_with (k a) r' Q) ->
  returns_with (bindM m k) r Q.
Proof.
  intros (a & r' & Hm & b & r'' & Hk & HQ).
  exists b, r''. unfold bindM. rewrite Hm. split; assumption.
Qed.

Lemma returns_weaken {A : Type} (m : M A) (r : Repo) (Q1 Q2 : A -> Repo -> Prop) :
  returns_with m r Q1 -> (forall a r', Q1 a r' -> Q2 a r') -> returns_with m r Q2.
Proof. intros (a & r' & Hm & HQ) Himp. exists a, r'. split; [exact Hm | apply Himp, HQ]. Qed.

Lemma returns_ret {A : Type} (a : A) (r : Repo) (Q : A -> Repo -> Prop) :
  Q a r -> returns_with (ret a) r Q.
Proof. intros HQ. exists a, r. split; [reflexivity | exact HQ]. Qed.

Lemma returns_gets {A : Type} (f : Repo -> A) (r : Repo) (Q : A -> Repo -> Prop) :
  Q (f r) r -> returns_with (gets f) r Q.
Proof. intros HQ. exists (f r), r. split; [reflexivity | exact HQ]. Qed.

Lemma returns_modify (f : Repo -> Repo) (r : Repo) (Q : unit -> Repo -> Prop) :
  Q tt (f r) -> returns_with (modify f) r Q.
Proof. intros HQ. exists tt, (f r). split; [reflexivity | exact HQ]. Qed.

Lemma returns_effect (e : RepoEffect) (r : Repo) (Q : unit -> Repo -> Prop) :
  Q tt (set_trace (e :: trace r) r) -> returns_with (effect e) r Q.
Proof. apply returns_modify. Qed.

Lemma returns_liftR {A : Type} (x : Result A) (a : A) (r : Repo) (Q : A -> Repo -> Prop) :
  x = Returns a -> Q a r -> returns_with (liftR x) r Q.
Proof. intros -> HQ. exists a, r. split; [reflexivity | exact HQ]. Qed.

Lemma returns_handle_get {A : Type} (h : nat) (f : Handle.DocHandle -> A) (d : Handle.DocHandle)
    (r : Repo) (Q : A -> Repo -> Prop) :
  handles r !! h = Some d -> Q (f d) r -> returns_with (handle_get h f) r Q.
Proof.
  intros Hd HQ. exists (f d), r. unfold handle_get. rewrite Hd. split; [reflexivity | exact HQ].
Qed.

Lemma returns_handle_call (h : nat) (f : Handle.DocHandle -> Handle.DocHandle) (r : Repo)
    (Q : unit -> Repo -> Prop) :
  Q tt (set_handles (alter f h (handles r)) r) -> returns_with (handle_call h f) r Q.
Proof. apply returns_modify. Qed.

(* ===================================================================== *)
(** ** The handle cache: one handle per documentId *)
(* ===================================================================== *)

Lemma filter_one_key {A B : Type} (P : A * B -> bool) (a : A) (l : list (A * B)) :
  NoDup l.*1 ->
  (forall x, x ∈ l -> P x = true -> x.1 = a) ->
  (List.length (List.filter P l) <= 1)%nat.
Proof.
  induction l as [|x l IH]; intros Hnd Hkey; simpl; [lia|].
  apply NoDup_cons in Hnd as [Hx Hnd].
  assert ((List.length (List.filter P l) <= 1)%nat) as IHl.
  { apply IH; [exact Hnd|]. intros y Hy. apply Hkey. right. exact Hy. }
  destruct (P x) eqn:Px; [|exact IHl]. simpl.
  destruct (List.filter P l) as [|y ys] eqn:F; [simpl; lia|].
  exfalso. apply Hx.
  assert (In y (List.filter P l)) as Hy by (rewrite F; left; reflexivity).
  apply List.filter_In in Hy as [Hy Py]. apply list_elem_of_In in Hy.
  assert (x.1 = a) as -> by (apply Hkey; [left | exact Px]).
  rewrite <- (Hkey y ltac:(right; exact Hy) Py).
  apply list_elem_of_fmap. exists y. split; [reflexivity | exact Hy].
Qed.

Lemma consistent_unique (r : Repo) (id : string) :
  cache_consistent r -> (List.length (handles_with_id r id) <= 1)%nat.
Proof.
  intros Hr. unfold handles_with_id. rewrite length_fmap.
  apply (filter_one_key _ id).
  - apply NoDup_fst_map_to_list.
  - intros [k h] Hin Hid. simpl in *.
    apply elem_of_map_to_list in Hin.
    destruct (Hr k h Hin) as (d & Hd & Hk).
    unfold has_id in Hid. rewrite Hd in Hid. apply bool_decide_eq_true in Hid. congruence.
Qed.

Lemma getHandle_cached (r : Repo) (id : string) (h : nat) :
  handleCache r !! id = Some h -> Repo_getHandle id r = (Returns h, r).
Proof. intros Hc. unfold Repo_getHandle, bindM, gets. simpl. rewrite Hc. reflexivity. Qed.

Lemma getHandle_fresh (r : Repo) (id : string) :
  handleCache r !! id = None -> id <> "" ->
  Repo_getHandle id r
  = (Returns (List.length (handles r)),
     set_handleCache (<[id := List.length (handles r)]> (handleCache r))
       (set_handles (handles r ++ [Handle.constructor id]) r)).
Proof.
  intros Hc Hne. unfold Repo_getHandle, bindM, gets. simpl. rewrite Hc.
  apply String.eqb_neq in Hne. rewrite Hne. reflexivity.
Qed.

Lemma find_cached `{UuidPackage} (r : Repo) (id : AutomergeUrl.IdValue) (documentId : string)
    (h : nat) (d : Handle.DocHandle) :
  AutomergeUrl.interpretAsDocumentId id = Returns documentId ->
  handleCache r !! documentId = Some h ->
  handles r !! h = Some d ->
  Repo_find id r
  = (Returns h,
     if Handle.isUnavailable d
     then set_trace (SetTimeoutUnavailable documentId :: trace r) r
     else r).
Proof.
  intros Hid Hc Hd. unfold Repo_find, bindM, liftR, gets, handle_get. simpl.
  rewrite Hid, Hc, Hd. destruct (Handle.isUnavailable d); reflexivity.
Qed.


(* ===================================================================== *)
(** ** Test vectors of the external packages *)
(* ===================================================================== *)

Example sha256_abc :
  hex (Sha256.sha256 (list_byte_of_string "abc"))
  = "ba7816bf8f01cfea414140de5dae2223b00361a396177a9cb410ff61f20015ad".
Proof. vm_compute. reflexivity. Qed.

Example sha256_two_blocks :
  hex (Sha256.sha256
         (list_byte_of_string "abcdbcdecdefdefgefghfghighijhijkijkljklmklmnlmnomnopnopq"))
  = "248d6a61d20638b8e5c026930c3e6039a33ce45964ff2167f6ecedd419db06c1".
Proof. vm_compute. reflexivity. Qed.

Example bs58check_address :
  Bs58check.encode (unhex "00010966776006953d5567439e5e39f86a0d273bee")
  = Returns "16UwLL9Risc3QfPqBUvKofHmBQ7wMtjvM".
Proof. vm_compute. reflexivity. Qed.

(* ===================================================================== *)
(** ** Document ids that the Repo accepts *)
(* ===================================================================== *)

Lemma prefix_append (p s : string) : String.prefix p (p +:+ s) = true.
Proof.
  induction p as [|c p IH]; [destruct s; reflexivity|].
  change (String c p +:+ s) with (String c (p +:+ s)). simpl.
  destruct (ascii_dec c c) as [_|Hne]; [exact IH | congruence].
Qed.

Lemma prefixed_not_empty (e : string) : String.eqb (AutomergeUrl.urlPrefix +:+ e) "" = false.
Proof. reflexivity. Qed.

Lemma encoded_not_empty (b : list byte) (id : string) :
  AutomergeUrl.binaryToDocumentId b = Returns id -> id <> "".
Proof.
  intros Henc. destruct (bs58check_decode_encode b) as (s & Hs & _ & _ & Hne).
  unfold AutomergeUrl.binaryToDocumentId in Henc. rewrite Hs in Henc. injection Henc as <-.
  intros ->. apply Hne. reflexivity.
Qed.

Section ValidIds.
Context `{UuidPackage}.

(** The id that [create] generates is a valid documentId, provided the bytes
    are a UUID for the uuid package. *)
Lemma valid_id_of_encoded (v4 : list byte) (id : string) :
  AutomergeUrl.binaryToDocumentId v4 = Returns id ->
  valid_uuid_bytes v4 ->
  valid_id id.
Proof.
  intros Henc (u & Hu & Hv).
  destruct (parse_prefix_encoded v4) as (e & Henc' & Hparse).
  rewrite Henc in Henc'. injection Henc' as <-.
  destruct (bs58check_decode_encode v4) as (s & Hs & Hdec & _).
  unfold AutomergeUrl.binaryToDocumentId in Henc. rewrite Hs in Henc. injection Henc as ->.
  unfold valid_id, AutomergeUrl.interpretAsDocumentId, AutomergeUrl.isValidAutomergeUrl.
  rewrite prefixed_not_empty, prefix_append. simpl.
  rewrite Hparse. simpl. rewrite Hdec. simpl. rewrite Hu. simpl. rewrite Hv. reflexivity.
Qed.

Lemma interpret_not_empty (id : AutomergeUrl.IdValue) (documentId : string) :
  AutomergeUrl.interpretAsDocumentId id = Returns documentId -> documentId <> "".
Proof.
  destruct id as [b|s]; unfold AutomergeUrl.interpretAsDocumentId.
  - apply encoded_not_empty.
  - destruct (AutomergeUrl.isValidAutomergeUrl (AutomergeUrl.VString s)).
    + destruct (AutomergeUrl.parseAutomergeUrl s) as [p|e] eqn:E; simpl;
        [|intros Hx; discriminate Hx].
      intros [= <-]. apply parse_returns_inv in E as [_ Hd].
      eapply decoded_not_empty, Hd.
    + unfold AutomergeUrl.isValidDocumentId, AutomergeUrl.documentIdToBinary,
        AutomergeUrl.isValidUuid.
      destruct (Bs58check.decodeUnsafe s) as [[b|]|e] eqn:D; simpl;
        try (intros Hx; discriminate Hx).
      * destruct (uuid_stringify b) as [u|e]; simpl; [|intros Hx; discriminate Hx].
        destruct (uuid_validate u).
        -- intros [= <-]. eapply decoded_not_empty, D.
        -- destruct (uuid_validate s); [|intros Hx; discriminate Hx].
           destruct (uuid_parse s) as [b'|e]; simpl; [|intros Hx; discriminate Hx].
           apply encoded_not_empty.
      * destruct (uuid_validate s); [|intros Hx; discriminate Hx].
        destruct (uuid_parse s) as [b'|e]; simpl; [|intros Hx; discriminate Hx].
        apply encoded_not_empty.
Qed.

End ValidIds.

(* ===================================================================== *)
(** ** Registering a cached handle leaves the handles as they are *)
(* ===================================================================== *)

Lemma same_handles_refl (r : Repo) : same_handles r r.
Proof. repeat split. Qed.

Lemma same_handles_trans (r1 r2 r3 : Repo) :
  same_handles r1 r2 -> same_handles r2 r3 -> same_handles r1 r3.
Proof.
  intros (H1 & H2 & H3) (H4 & H5 & H6). repeat split; congruence.
Qed.

Lemma beginSync_same (r : Repo) (id : string) (peerIds : list string) :
  returns_with (DocSynchronizer_beginSync_call id peerIds) r (fun _ r' => same_handles r r').
Proof.
  unfold DocSynchronizer_beginSync_call, returns_with, bindM, effect, modify.
  eexists _, _. split; [reflexivity|]. repeat split.
Qed.

Section Registering.
Context `{UuidPackage}.

Lemma find_cached_same (r : Repo) (id : AutomergeUrl.IdValue) (documentId : string)
    (h : nat) (d : Handle.DocHandle) :
  AutomergeUrl.interpretAsDocumentId id = Returns documentId ->
  handleCache r !! documentId = Some h ->
  handles r !! h = Some d ->
  returns_with (Repo_find id) r
    (fun a r' => a = h /\ same_handles r r' /\ synchronizer r' = synchronizer r).
Proof.
  intros Hid Hc Hd. eexists _, _. split; [apply (find_cached r id documentId h d Hid Hc Hd)|].
  destruct (Handle.isUnavailable d); repeat split.
Qed.

Lemma fetch_same (r : Repo) (id : string) (h : nat) (d : Handle.DocHandle) :
  valid_id id ->
  handleCache r !! id = Some h ->
  handles r !! h = Some d ->
  returns_with (CollectionSynchronizer_fetchDocSynchronizer id) r
    (fun _ r' => same_handles r r').
Proof.
  intros Hv Hc Hd. unfold CollectionSynchronizer_fetchDocSynchronizer.
  apply returns_bind, returns_gets.
  destruct (docSynchronizers (synchronizer r) !! id) as [ds|].
  { apply returns_ret, same_handles_refl. }
  apply returns_bind.
  apply (returns_liftR _ (AutomergeUrl.urlPrefix +:+ id)); [reflexivity|].
  apply returns_bind.
  eapply returns_weaken; [apply (find_cached_same r _ id h d Hv Hc Hd)|].
  intros a r1 (-> & Hsame & _). destruct Hsame as (Hh & Hcache & Hst).
  unfold CollectionSynchronizer_initDocSynchronizer.
  apply returns_bind, returns_bind.
  apply (returns_handle_get _ _ d); [rewrite Hh; exact Hd|].
  apply returns_bind, returns_effect, returns_ret.
  apply returns_bind, returns_modify, returns_ret.
  repeat split; assumption.
Qed.

Lemma addDocument_same (r : Repo) (id : string) (h : nat) (d : Handle.DocHandle) :
  valid_id id ->
  handleCache r !! id = Some h ->
  handles r !! h = Some d ->
  returns_with (CollectionSynchronizer_addDocument id) r (fun _ r' => same_handles r r').
Proof.
  intros Hv Hc Hd. unfold CollectionSynchronizer_addDocument.
  apply returns_bind, returns_gets.
  assert (returns_with
            (let! docSynchronizer := CollectionSynchronizer_fetchDocSynchronizer id in
             let! generous := CollectionSynchronizer_documentGenerousPeers id in
             DocSynchronizer_beginSync_call id generous) r
            (fun _ r' => same_handles r r')) as Hrun.
  { apply returns_bind.
    eapply returns_weaken; [apply (fetch_same r id h d Hv Hc Hd)|].
    intros ds r1 Hsame. cbv beta in Hsame.
    apply returns_bind. unfold CollectionSynchronizer_documentGenerousPeers.
    apply returns_gets.
    eapply returns_weaken; [apply beginSync_same|].
    intros u r2 Hsame2. cbv beta in Hsame2.
    exact (same_handles_trans _ _ _ Hsame Hsame2). }
  destruct (docSetUp (synchronizer r) !! id) as [[|]|];
    [apply returns_ret, same_handles_refl | exact Hrun | exact Hrun].
Qed.

Lemma register_tail_same (r : Repo) (id : string) (h : nat) (d : Handle.DocHandle) :
  valid_id id ->
  handleCache r !! id = Some h ->
  handles r !! h = Some d ->
  Handle.documentId d = id ->
  returns_with
    (let! _ := effect (HandleOn h "unavailable") in
     let! documentId := handle_get h Handle.documentId in
     let! _ := CollectionSynchronizer_addDocument documentId in
     effect (EmitDocument h)) r
    (fun _ r' => same_handles r r').
Proof.
  intros Hv Hc Hd Hid.
  apply returns_bind, returns_effect.
  apply returns_bind, (returns_handle_get _ _ d); [exact Hd|]. rewrite Hid.
  apply returns_bind.
  eapply returns_weaken;
    [eapply addDocument_same; [exact Hv | exact Hc | exact Hd]|].
  intros u r1 Hsame. cbv beta in Hsame. apply returns_effect.
  destruct Hsame as (H1 & H2 & H3). repeat split; assumption.
Qed.

Lemma register_same (r : Repo) (id : string) (h : nat) (d : Handle.DocHandle) :
  valid_id id ->
  handleCache r !! id = Some h ->
  handles r !! h = Some d ->
  Handle.documentId d = id ->
  returns_with (Repo_registerHandleWithSubsystems h) r (fun _ r' => same_handles r r').
Proof.
  intros Hv Hc Hd Hid. unfold Repo_registerHandleWithSubsystems.
  apply returns_bind, returns_gets.
  apply returns_bind.
  destruct (bool_decide (is_Some (storageSubsystem r))); simpl.
  - apply returns_effect.
    eapply returns_weaken;
      [eapply register_tail_same; [exact Hv | exact Hc | exact Hd | exact Hid]|].
    intros u r1 Hsame. exact Hsame.
  - apply returns_ret. apply (register_tail_same _ id h d Hv Hc Hd Hid).
Qed.

End Registering.

(* ===================================================================== *)
(** ** Repo.create *)
(* ===================================================================== *)

Lemma returns_getHandle_fresh (r : Repo) (id : string) (Q : nat -> Repo -> Prop) :
  handleCache r !! id = None -> id <> "" ->
  Q (List.length (handles r))
    (set_handleCache (<[id := List.length (handles r)]> (handleCache r))
       (set_handles (handles r ++ [Handle.constructor id]) r)) ->
  returns_with (Repo_getHandle id) r Q.
Proof.
  intros Hc Hne HQ. eexists _, _. split; [apply getHandle_fresh; assumption | exact HQ].
Qed.

Lemma lookup_snoc {A : Type} (l : list A) (x : A) : (l ++ [x]) !! List.length l = Some x.
Proof. rewrite lookup_app_r by lia. rewrite Nat.sub_diag. reflexivity. Qed.

Lemma create_returns `{UuidPackage} (r : Repo) (v4 : list byte)
    (initialValue : option InitialValue) (id : string) :
  AutomergeUrl.binaryToDocumentId v4 = Returns id ->
  valid_uuid_bytes v4 ->
  handleCache r !! id = None ->
  returns_with (Repo_create v4 initialValue) r
    (fun h r' =>
       h = List.length (handles r)
       /\ handles r' !! h
          = Some (Handle.doneLoading
                    (Handle.update (fun _ => seed initialValue) (Handle.constructor id)))
       /\ handleCache r' !! id = Some h).
Proof.
  intros Henc Hvalid Hfresh.
  pose proof (valid_id_of_encoded v4 id Henc Hvalid) as Hv.
  pose proof (encoded_not_empty v4 id Henc) as Hne.
  destruct (parse_prefix_encoded v4) as (e & Henc' & Hparse).
  rewrite Henc in Henc'. injection Henc' as <-.
  unfold Repo_create.
  apply returns_bind, (returns_liftR _ (AutomergeUrl.urlPrefix +:+ id)).
  { unfold AutomergeUrl.generateAutomergeUrl, AutomergeUrl.stringifyAutomergeUrl.
    rewrite Henc. reflexivity. }
  apply returns_bind, (returns_liftR _ _ _ _ Hparse). simpl AutomergeUrl.documentId.
  apply returns_bind, returns_getHandle_fresh; [exact Hfresh | exact Hne |].
  set (n := List.length (handles r)).
  apply returns_bind.
  eapply returns_weaken.
  { eapply (register_same _ id n (Handle.constructor id)); [exact Hv | | | reflexivity].
    - simpl. apply lookup_insert_eq.
    - simpl. apply lookup_snoc. }
  intros u r2 (Hh & Hcache & _). simpl in Hh, Hcache.
  apply returns_bind, returns_handle_call.
  apply returns_bind, returns_handle_call.
  apply returns_ret. split; [reflexivity|]. simpl. split.
  - rewrite !list_lookup_alter_eq, Hh. unfold n. rewrite lookup_snoc.
    destruct initialValue; reflexivity.
  - rewrite Hcache. apply lookup_insert_eq.
Qed.

(** C5. [create] returns a handle that is new (an object constructed by this
    call), whose documentId is the one generated from the bytes [Uuid.v4]
    drew, that is READY when [create] returns, and whose document is
    [Automerge.from(initialValue)] when an initial value is given and an empty
    change on [Automerge.init()] otherwise.  The generated id is fresh: no
    handle is cached under it. *)
Theorem create_ready `{UuidPackage} (r : Repo) (v4 : list byte)
    (initialValue : option InitialValue) (id : string) :
  AutomergeUrl.binaryToDocumentId v4 = Returns id ->
  valid_uuid_bytes v4 ->
  handleCache r !! id = None ->
  exists d,
    (Repo_create v4 initialValue r).1 = Returns (List.length (handles r))
    /\ handles (Repo_create v4 initialValue r).2 !! List.length (handles r) = Some d
    /\ handleCache (Repo_create v4 initialValue r).2 !! id = Some (List.length (handles r))
    /\ Handle.documentId d = id
    /\ Handle.isReady d = true
    /\ Handle.doc d = Some (seed initialValue).
Proof.
  intros Henc Hvalid Hfresh.
  destruct (create_returns r v4 initialValue id Henc Hvalid Hfresh)
    as (h & r' & Hrun & -> & Hd & Hc).
  rewrite Hrun. simpl.
  eexists. split; [reflexivity|]. split; [exact Hd|]. split; [exact Hc|].
  repeat split.
Qed.

(* ===================================================================== *)
(** ** Repo.delete *)
(* ===================================================================== *)

Lemma delete_run `{UuidPackage} (r r1 : Repo) (id : AutomergeUrl.IdValue) (documentId : string)
    (h : nat) :
  AutomergeUrl.interpretAsDocumentId id = Returns documentId ->
  Repo_getHandle documentId r = (Returns h, r1) ->
  Repo_delete id r
  = (Returns tt,
     set_storageSubsystem (storage_request (RemoveDoc documentId) <$> storageSubsystem r1)
       (set_trace (EmitDeleteDocument documentId :: HandleEmit h "delete" :: trace r1)
          (set_handleCache (delete documentId (handleCache r1))
             (set_handles (alter Handle.delete h (handles r1)) r1)))).
Proof.
  intros Hid Hget. unfold Repo_delete, bindM, liftR. rewrite Hid, Hget. reflexivity.
Qed.

(** C6. After [delete(id)] on an id whose handle is cached, the call has
    returned, the handle is DELETED, the cache has no entry for the id, a
    "delete-document" event has been emitted (after the handle's own "delete"),
    and, when a storage subsystem is configured, [removeDoc] of the id has
    been requested. *)
Theorem delete_cached `{UuidPackage} (r : Repo) (id : AutomergeUrl.IdValue)
    (documentId : string) (h : nat) (d : Handle.DocHandle) :
  AutomergeUrl.interpretAsDocumentId id = Returns documentId ->
  handleCache r !! documentId = Some h ->
  handles r !! h = Some d ->
  (Repo_delete id r).1 = Returns tt
  /\ Handle.isDeleted <$> handles (Repo_delete id r).2 !! h = Some true
  /\ handleCache (Repo_delete id r).2 !! documentId = None
  /\ trace (Repo_delete id r).2
     = EmitDeleteDocument documentId :: HandleEmit h "delete" :: trace r
  /\ storageSubsystem (Repo_delete id r).2
     = storage_request (RemoveDoc documentId) <$> storageSubsystem r.
Proof.
  intros Hid Hc Hd.
  rewrite (delete_run r r id documentId h Hid (getHandle_cached r documentId h Hc)). simpl.
  split; [reflexivity|]. split; [|split; [|split; reflexivity]].
  - rewrite list_lookup_alter_eq, Hd. reflexivity.
  - apply lookup_delete_eq.
Qed.

(** C10. [delete(id)] on a valid id that is not in the cache does not throw:
    it constructs a handle for the id, which ends DELETED, emits
    "delete-document", requests [removeDoc] when storage is configured, and
    leaves the cache as it was, without an entry for the id; the outcome is
    that of deleting a cached handle. *)
Theorem delete_unknown `{UuidPackage} (r : Repo) (id : AutomergeUrl.IdValue)
    (documentId : string) :
  AutomergeUrl.interpretAsDocumentId id = Returns documentId ->
  handleCache r !! documentId = None ->
  (Repo_delete id r).1 = Returns tt
  /\ handles (Repo_delete id r).2
     = handles r ++ [Handle.delete (Handle.constructor documentId)]
  /\ Handle.isDeleted (Handle.delete (Handle.constructor documentId)) = true
  /\ handleCache (Repo_delete id r).2 !! documentId = None
  /\ handleCache (Repo_delete id r).2 = handleCache r
  /\ trace (Repo_delete id r).2
     = EmitDeleteDocument documentId :: HandleEmit (List.length (handles r)) "delete" :: trace r
  /\ storageSubsystem (Repo_delete id r).2
     = storage_request (RemoveDoc documentId) <$> storageSubsystem r.
Proof.
  intros Hid Hc.
  pose proof (interpret_not_empty id documentId Hid) as Hne.
  rewrite (delete_run r _ id documentId _ Hid (getHandle_fresh r documentId Hc Hne)). simpl.
  split; [reflexivity|]. split; [|split; [reflexivity|split; [|split; [|split; reflexivity]]]].
  - assert (forall (l : list Handle.DocHandle) x,
               alter Handle.delete (List.length l) (l ++ [x]) = l ++ [Handle.delete x]) as Halter.
    { induction l as [|y l IH]; intros x; simpl; [reflexivity|]. f_equal. apply IH. }
    apply Halter.
  - apply lookup_delete_eq.
  - apply delete_insert_id, Hc.
Qed.

(* ===================================================================== *)
(** ** Sync states of peers without storage, or ephemeral, are not saved *)
(* ===================================================================== *)

Lemma saved_frame (L : list StorageRequest) (f : Repo -> Repo) :
  (forall r, storageSubsystem (f r) = storageSubsystem r) ->
  preserves (fun r => saved_sync_states r = L) (modify f).
Proof.
  intros Hf. apply preserves_modify. intros r Hr.
  unfold saved_sync_states in *. rewrite Hf. exact Hr.
Qed.

Lemma saved_request (L : list StorageRequest) (q : StorageRequest) :
  is_saveSyncState q = false ->
  preserves (fun r => saved_sync_states r = L)
    (modify (fun r => set_storageSubsystem (storage_request q <$> storageSubsystem r) r)).
Proof.
  intros Hq. apply preserves_modify. intros r Hr.
  unfold saved_sync_states in *. simpl.
  destruct (storageSubsystem r) as [st|]; simpl; [|exact Hr].
  rewrite Hq. exact Hr.
Qed.

(** A call saves no sync state when none of its steps does. *)
Ltac saves_nothing :=
  repeat first
    [ solve [apply saved_frame; reflexivity]
    | solve [apply saved_request; reflexivity]
    | apply preserves_ret | apply preserves_throw | apply preserves_liftR
    | apply preserves_gets | apply preserves_handle_get
    | apply preserves_catch_log | apply preserves_when
    | apply preserves_for_each; intros ? | apply preserves_all_settled; intros ?
    | apply preserves_bind; [| intros ?]
    | match goal with
      | |- preserves _ (match ?x with _ => _ end) => destruct x
      end
    | progress unfold handle_call, effect, Repo_getHandle, Repo_find,
        CollectionSynchronizer_documentGenerousPeers,
        CollectionSynchronizer_initDocSynchronizer,
        CollectionSynchronizer_fetchDocSynchronizer,
        DocSynchronizer_beginSync_call, DocSynchronizer_endSync_call,
        CollectionSynchronizer_receiveMessage, CollectionSynchronizer_addDocument,
        CollectionSynchronizer_addPeer, CollectionSynchronizer_removePeer,
        Repo_registerHandleWithSubsystems, Repo_find_then, Repo_create, Repo_clone,
        Repo_import, Repo_on_delete_document, Repo_delete, Repo_export,
        Repo_removeFromCache, Repo_removeFromCache_then, Repo_receiveMessage,
        Repo_on_peer, Repo_on_peer_disconnected, Repo_saveSyncState, Repo_on_sync_state,
        Repo_on_heads_changed, Repo_flush, CollectionSynchronizer_onLoadSyncState ].

Lemma only_the_timer_saves `{UuidPackage} (c : RepoCall) (r : Repo) :
  is_throttle_fire c = false -> saved_sync_states (run_call c r) = saved_sync_states r.
Proof.
  intros Hc.
  assert (forall A (m : M A),
             preserves (fun r' => saved_sync_states r' = saved_sync_states r) m ->
             saved_sync_states (m r).2 = saved_sync_states r) as Huse.
  { intros A m Hm. apply Hm. reflexivity. }
  destruct c; try discriminate Hc; unfold run_call; apply Huse; saves_nothing.
Qed.

Lemma not_persisted_iff (r : Repo) (peer : string) :
  no_storage_or_ephemeral r peer <-> not_persisted (peerMetadataByPeerId r !! peer) = true.
Proof.
  unfold no_storage_or_ephemeral, not_persisted.
  destruct (peerMetadataByPeerId r !! peer) as [[s e]|]; simpl; [|tauto].
  split.
  - intros [Hs|[Hs|He]]; [rewrite Hs | rewrite Hs | rewrite He];
      [reflexivity | reflexivity | apply orb_true_r].
  - destruct s as [s|]; [|auto].
    destruct (String.eqb s "") eqn:Hs; simpl.
    + apply String.eqb_eq in Hs. subst s. auto.
    + destruct e as [[|]|]; try discriminate. auto.
Qed.

Lemma saveSyncState_skips (r : Repo) (payload : SyncStatePayload) :
  no_storage_or_ephemeral r (sp_peerId payload) ->
  Repo_saveSyncState payload r = (Returns tt, r).
Proof.
  intros Hnp. apply not_persisted_iff in Hnp.
  unfold Repo_saveSyncState, bindM, gets. simpl.
  destruct (storageSubsystem r); [|reflexivity].
  rewrite Hnp. reflexivity.
Qed.

Lemma onLoadSyncState_skips (r : Repo) (handle : nat) (peer : string) :
  no_storage_or_ephemeral r peer ->
  CollectionSynchronizer_onLoadSyncState handle peer r = (Returns tt, r).
Proof.
  intros Hnp. apply not_persisted_iff in Hnp.
  unfold CollectionSynchronizer_onLoadSyncState, bindM, gets. simpl.
  destruct (storageSubsystem r); [|reflexivity].
  rewrite Hnp. reflexivity.
Qed.

Lemma bindM_run {A B : Type} (m : M A) (k : A -> M B) (r r1 : Repo) (a : A) :
  m r = (Returns a, r1) -> bindM m k r = k a r1.
Proof. intros Hm. unfold bindM. rewrite Hm. reflexivity. Qed.

Lemma preserves_modify_field {B : Type} (proj : Repo -> B) (v : B) (f : Repo -> Repo) :
  (forall r, proj (f r) = proj r) ->
  preserves (fun r => proj r = v) (modify f).
Proof. intros Hf. apply preserves_modify. intros r Hr. rewrite Hf. exact Hr. Qed.

(** A call keeps a field of the state when none of its steps writes it. *)
Ltac keeps_field :=
  repeat first
    [ solve [apply preserves_modify_field; reflexivity]
    | apply preserves_ret | apply preserves_throw | apply preserves_liftR
    | apply preserves_gets | apply preserves_handle_get
    | apply preserves_catch_log | apply preserves_when
    | apply preserves_for_each; intros ? | apply preserves_all_settled; intros ?
    | apply preserves_bind; [| intros ?]
    | match goal with
      | |- preserves _ (match ?x with _ => _ end) => destruct x
      end
    | progress unfold handle_call, effect, Repo_getHandle, Repo_find,
        CollectionSynchronizer_documentGenerousPeers,
        CollectionSynchronizer_initDocSynchronizer,
        CollectionSynchronizer_fetchDocSynchronizer,
        DocSynchronizer_beginSync_call, CollectionSynchronizer_addDocument ].

(** What the "sync-state" listener does after [#saveSyncState]. *)
Lemma sync_state_rest_keeps `{UuidPackage} {B : Type} (proj : Repo -> B)
    (payload : SyncStatePayload) (r r1 : Repo) :
  (forall f r, proj (set_handles f r) = proj r) ->
  (forall t r, proj (set_trace t r) = proj r) ->
  Repo_saveSyncState payload r = (Returns tt, r1) ->
  proj (Repo_on_sync_state payload r).2 = proj r1.
Proof.
  intros Hh Ht Hsave. unfold Repo_on_sync_state.
  rewrite (bindM_run _ _ _ _ _ Hsave).
  match goal with
  | |- proj (?m r1).2 = proj r1 =>
      assert (preserves (fun r' => proj r' = proj r1) m) as Hm
  end.
  { repeat first
      [ apply preserves_ret | apply preserves_throw | apply preserves_gets
      | apply preserves_handle_get | apply preserves_when
      | apply preserves_bind; [| intros ?]
      | match goal with
        | |- preserves _ (match ?x with _ => _ end) => destruct x
        end
      | progress unfold handle_call, effect
      | apply preserves_modify_field; intros; first [apply Hh | apply Ht] ]. }
  apply Hm. reflexivity.
Qed.

Lemma saveSyncState_cases (r : Repo) (payload : SyncStatePayload) :
  exists r1,
    Repo_saveSyncState payload r = (Returns tt, r1)
    /\ storageSubsystem r1 = storageSubsystem r
    /\ (throttledSaveSyncStateHandlers r1 = throttledSaveSyncStateHandlers r
        \/ exists storage,
             persisted_peer r (sp_peerId payload) storage
             /\ throttledSaveSyncStateHandlers r1
                = <[storage := Some payload]> (throttledSaveSyncStateHandlers r)).
Proof.
  unfold Repo_saveSyncState, bindM, gets. simpl.
  destruct (storageSubsystem r) as [st|] eqn:Hst.
  2:{ exists r. repeat split; [exact Hst | left; reflexivity]. }
  destruct (peerMetadataByPeerId r !! sp_peerId payload) as [[[s|] e]|] eqn:Hm; simpl.
  - destruct (String.eqb s "") eqn:Hs; simpl.
    { exists r. repeat split; [exact Hst | left; reflexivity]. }
    destruct e as [[|]|]; simpl.
    + exists r. repeat split; [exact Hst | left; reflexivity].
    + eexists. split; [reflexivity|]. split; [exact Hst|]. right. exists s.
      split; [|reflexivity].
      eexists. split; [exact Hm|]. simpl. repeat split; try discriminate.
      apply String.eqb_neq, Hs.
    + eexists. split; [reflexivity|]. split; [exact Hst|]. right. exists s.
      split; [|reflexivity].
      eexists. split; [exact Hm|]. simpl. repeat split; try discriminate.
      apply String.eqb_neq, Hs.
  - exists r. repeat split; [exact Hst | left; reflexivity].
  - exists r. repeat split; [exact Hst | left; reflexivity].
Qed.

(** C8. A "sync-state" event for a peer that has no storageId in the
    peer-metadata map, or that is marked ephemeral, saves nothing:
    [#saveSyncState] returns with the state as it was, and after the whole
    listener the storage requests and the pending throttled saves are
    unchanged; nor is a saved state of such a peer asked for, as
    [onLoadSyncState] returns at once.  A save is pending only for an event of
    a peer with a storageId that is not ephemeral, under that storageId; the
    timer of a storageId asks the storage to save exactly the pending payload;
    and no other call asks the storage to save a sync state. *)
Theorem sync_state_not_persisted `{UuidPackage} :
  (forall (r : Repo) (payload : SyncStatePayload),
      no_storage_or_ephemeral r (sp_peerId payload) ->
      Repo_saveSyncState payload r = (Returns tt, r)
      /\ storageSubsystem (Repo_on_sync_state payload r).2 = storageSubsystem r
      /\ throttledSaveSyncStateHandlers (Repo_on_sync_state payload r).2
         = throttledSaveSyncStateHandlers r)
  /\ (forall (r : Repo) (handle : nat) (peer : string),
         no_storage_or_ephemeral r peer ->
         CollectionSynchronizer_onLoadSyncState handle peer r = (Returns tt, r))
  /\ (forall (r : Repo) (payload pending : SyncStatePayload) (storage : string),
         throttledSaveSyncStateHandlers (Repo_on_sync_state payload r).2 !! storage
         = Some (Some pending) ->
         throttledSaveSyncStateHandlers r !! storage = Some (Some pending)
         \/ (pending = payload /\ persisted_peer r (sp_peerId payload) storage))
  /\ (forall (r : Repo) (storage : string),
         storageSubsystem (Repo_throttle_fire storage r).2
         = match throttledSaveSyncStateHandlers r !! storage with
           | Some (Some pending) =>
               storage_request
                 (SaveSyncState (sp_documentId pending) storage (sp_syncState pending))
               <$> storageSubsystem r
           | _ => storageSubsystem r
           end)
  /\ (forall (c : RepoCall) (r : Repo),
         is_throttle_fire c = false ->
         saved_sync_states (run_call c r) = saved_sync_states r).
Proof.
  split; [|split; [|split; [|split]]].
  - intros r payload Hnp.
    pose proof (saveSyncState_skips r payload Hnp) as Hskip.
    split; [exact Hskip|]. split.
    + apply (sync_state_rest_keeps storageSubsystem payload r r); [reflexivity.. | exact Hskip].
    + apply (sync_state_rest_keeps throttledSaveSyncStateHandlers payload r r);
        [reflexivity.. | exact Hskip].
  - intros r handle peer Hnp. apply onLoadSyncState_skips, Hnp.
  - intros r payload pending storage Hp.
    destruct (saveSyncState_cases r payload) as (r1 & Hsave & _ & Hcases).
    rewrite (sync_state_rest_keeps throttledSaveSyncStateHandlers payload r r1) in Hp;
      [|reflexivity..|exact Hsave].
    destruct Hcases as [Heq|(s & Hpers & Heq)]; rewrite Heq in Hp.
    + left. exact Hp.
    + destruct (decide (s = storage)) as [->|Hne].
      * rewrite lookup_insert_eq in Hp. injection Hp as <-. right. split; [reflexivity|exact Hpers].
      * rewrite lookup_insert_ne in Hp by exact Hne. left. exact Hp.
  - intros r storage. unfold Repo_throttle_fire, bindM, gets, modify. simpl.
    destruct (throttledSaveSyncStateHandlers r !! storage) as [[p|]|]; reflexivity.
  - intros c r Hc. apply only_the_timer_saves, Hc.
Qed.

(* ===================================================================== *)
(** ** CollectionSynchronizer.addDocument *)
(* ===================================================================== *)

Lemma addDocument_keeps_docSetUp `{UuidPackage} (r : Repo) (id : string) :
  docSetUp (synchronizer (CollectionSynchronizer_addDocument id r).2)
  = docSetUp (synchronizer r).
Proof.
  assert (preserves (fun r' => docSetUp (synchronizer r') = docSetUp (synchronizer r))
            (CollectionSynchronizer_addDocument id)) as Hm by keeps_field.
  apply Hm. reflexivity.
Qed.

Lemma addDocument_known `{UuidPackage} (r : Repo) (id : string) (ds : DocSynchronizer) :
  docSetUp (synchronizer r) !! id = None ->
  docSynchronizers (synchronizer r) !! id = Some ds ->
  CollectionSynchronizer_addDocument id r
  = DocSynchronizer_beginSync_call id
      (List.filter (fun peer => sharePolicy r peer (Some id)) (peers (synchronizer r))) r.
Proof.
  intros Hflag Hds.
  unfold CollectionSynchronizer_addDocument, CollectionSynchronizer_fetchDocSynchronizer,
    CollectionSynchronizer_documentGenerousPeers, bindM, gets, ret. simpl.
  rewrite Hflag, Hds. reflexivity.
Qed.

(** C9, where the code departs from it.  [addDocument] never sets the
    [docSetUp] flag, so a later call for the same document is not stopped by
    it: with the document's synchronizer in place, the call begins sync again
    with the generous peers.  What does hold is that no second DocSynchronizer
    is made: the one in the map stays, with its handle. *)
Theorem addDocument_begins_sync_again `{UuidPackage} :
  (forall (r : Repo) (id : string),
      docSetUp (synchronizer (CollectionSynchronizer_addDocument id r).2)
      = docSetUp (synchronizer r))
  /\ (forall (r : Repo) (id : string) (ds : DocSynchronizer),
         docSetUp (synchronizer r) !! id = None ->
         docSynchronizers (synchronizer r) !! id = Some ds ->
         (CollectionSynchronizer_addDocument id r).1 = Returns tt
         /\ trace (CollectionSynchronizer_addDocument id r).2
            = DocSynchronizer_beginSync id
                (List.filter (fun peer => sharePolicy r peer (Some id)) (peers (synchronizer r)))
              :: trace r
         /\ ds_handle
            <$> docSynchronizers (synchronizer (CollectionSynchronizer_addDocument id r).2) !! id
            = Some (ds_handle ds)).
Proof.
  split.
  - intros r id. apply addDocument_keeps_docSetUp.
  - intros r id ds Hflag Hds. rewrite (addDocument_known r id ds Hflag Hds).
    unfold DocSynchronizer_beginSync_call, bindM, effect, modify. simpl.
    split; [reflexivity|]. split; [reflexivity|].
    rewrite lookup_alter_eq, Hds. reflexivity.
Qed.

(** [addDocument] twice for the document of [sample_repo_with_document], whose
    first [addDocument] was made by [create]: each call begins sync with "p1",
    and the flag stays unset. *)
Example addDocument_twice :
  let r1 := (@CollectionSynchronizer_addDocument UuidModel.package sample_id
               sample_repo_with_document).2 in
  let r2 := (@CollectionSynchronizer_addDocument UuidModel.package sample_id r1).2 in
  trace sample_repo_with_document
  = [ EmitDocument 0%nat; DocSynchronizer_beginSync sample_id ["p1"];
      NewDocSynchronizer sample_id 0%nat; HandleOn 0%nat "unavailable";
      HandleOn 0%nat "heads-changed" ]
  /\ trace r1 = DocSynchronizer_beginSync sample_id ["p1"] :: trace sample_repo_with_document
  /\ trace r2 = DocSynchronizer_beginSync sample_id ["p1"] :: trace r1
  /\ docSetUp (synchronizer r2) !! sample_id = None.
Proof. vm_compute. repeat split. Qed.

(** The same through the Repo's own methods: a document is created, removed
    from the cache and found again; the second registration begins sync
    again, on the synchronizer of the first handle. *)
Example register_twice :
  List.filter
    (fun e => match e with
              | DocSynchronizer_beginSync _ _ | NewDocSynchronizer _ _ => true
              | _ => false
              end)
    (trace
       (@run_calls UuidModel.package
          [ Call_removeFromCache sample_id; Call_removeFromCache_then sample_id 0%nat;
            Call_find (AutomergeUrl.VString sample_id); Call_find_then 1%nat None ]
          sample_repo_with_document))
  = [ DocSynchronizer_beginSync sample_id ["p1"];
      DocSynchronizer_beginSync sample_id ["p1"];
      NewDocSynchronizer sample_id 0%nat ].
Proof. vm_compute. reflexivity. Qed.

(* ===================================================================== *)
(** ** The theorems on a sample Repo *)
(* ===================================================================== *)

Lemma create_ready_witness :
  exists d,
    (@Repo_create UuidModel.package sample_v4 (Some [("n", "1")]) sample_repo).1
    = Returns (List.length (handles sample_repo))
    /\ handles (@Repo_create UuidModel.package sample_v4 (Some [("n", "1")]) sample_repo).2
       !! List.length (handles sample_repo) = Some d
    /\ handleCache (@Repo_create UuidModel.package sample_v4 (Some [("n", "1")]) sample_repo).2
       !! sample_id = Some (List.length (handles sample_repo))
    /\ Handle.documentId d = sample_id
    /\ Handle.isReady d = true
    /\ Handle.doc d = Some (seed (Some [("n", "1")])).
Proof.
  apply (@create_ready UuidModel.package sample_repo sample_v4 (Some [("n", "1")]) sample_id).
  - vm_compute. reflexivity.
  - exists "f1c29c84-74c8-4ade-b800-be47627d33bf". split; vm_compute; reflexivity.
  - reflexivity.
Defined.

Lemma delete_cached_witness :
  (@Repo_delete UuidModel.package (AutomergeUrl.VString sample_id) sample_repo_with_document).1
  = Returns tt
  /\ Handle.isDeleted
     <$> handles (@Repo_delete UuidModel.package (AutomergeUrl.VString sample_id)
                    sample_repo_with_document).2 !! 0%nat
     = Some true
  /\ handleCache (@Repo_delete UuidModel.package (AutomergeUrl.VString sample_id)
                    sample_repo_with_document).2 !! sample_id = None
  /\ trace (@Repo_delete UuidModel.package (AutomergeUrl.VString sample_id)
              sample_repo_with_document).2
     = EmitDeleteDocument sample_id :: HandleEmit 0%nat "delete"
       :: trace sample_repo_with_document
  /\ storageSubsystem (@Repo_delete UuidModel.package (AutomergeUrl.VString sample_id)
                         sample_repo_with_document).2
     = storage_request (RemoveDoc sample_id) <$> storageSubsystem sample_repo_with_document.
Proof.
  apply (@delete_cached UuidModel.package sample_repo_with_document
           (AutomergeUrl.VString sample_id) sample_id 0%nat
           {| Handle.documentId := sample_id; Handle.state := READY;
              Handle.doc := Some (Automerge_emptyChange Automerge_init);
              Handle.remoteHeads := ∅ |}).
  - vm_compute. reflexivity.
  - vm_compute. reflexivity.
  - vm_compute. reflexivity.
Defined.

Lemma delete_unknown_witness :
  (@Repo_delete UuidModel.package
     (AutomergeUrl.VString "automerge:4NMNnkMhL8jXrdJ9jamS58PAVdXu") sample_repo).1
  = Returns tt
  /\ handles (@Repo_delete UuidModel.package
                (AutomergeUrl.VString "automerge:4NMNnkMhL8jXrdJ9jamS58PAVdXu") sample_repo).2
     = handles sample_repo ++ [Handle.delete (Handle.constructor sample_id)]
  /\ Handle.isDeleted (Handle.delete (Handle.constructor sample_id)) = true
  /\ handleCache (@Repo_delete UuidModel.package
                    (AutomergeUrl.VString "automerge:4NMNnkMhL8jXrdJ9jamS58PAVdXu")
                    sample_repo).2 !! sample_id = None
  /\ handleCache (@Repo_delete UuidModel.package
                    (AutomergeUrl.VString "automerge:4NMNnkMhL8jXrdJ9jamS58PAVdXu")
                    sample_repo).2 = handleCache sample_repo
  /\ trace (@Repo_delete UuidModel.package
              (AutomergeUrl.VString "automerge:4NMNnkMhL8jXrdJ9jamS58PAVdXu") sample_repo).2
     = EmitDeleteDocument sample_id :: HandleEmit (List.length (handles sample_repo)) "delete"
       :: trace sample_repo
  /\ storageSubsystem (@Repo_delete UuidModel.package
                         (AutomergeUrl.VString "automerge:4NMNnkMhL8jXrdJ9jamS58PAVdXu")
                         sample_repo).2
     = storage_request (RemoveDoc sample_id) <$> storageSubsystem sample_repo.
Proof.
  apply (@delete_unknown UuidModel.package sample_repo
           (AutomergeUrl.VString "automerge:4NMNnkMhL8jXrdJ9jamS58PAVdXu") sample_id).
  - vm_compute. reflexivity.
  - reflexivity.
Defined.

(* ===================================================================== *)
(** * Further properties of the code *)
(* ===================================================================== *)

(* ===================================================================== *)
(** ** base58check: encoding the bytes of a string gives the string back *)
(* ===================================================================== *)

Lemma base_map_inv (c : ascii) (d : N) :
  BaseX.BASE_MAP c = Some d -> d < 58 /\ BaseX.charAt d = c.
Proof.
  assert (forallb (fun n => match BaseX.BASE_MAP (ascii_of_N n) with
                            | Some d => (d <? 58) && Ascii.eqb (BaseX.charAt d) (ascii_of_N n)
                            | None => true
                            end) (map N.of_nat (seq 0 256)) = true) as Hall
      by (vm_compute; reflexivity).
  rewrite forallb_forall in Hall.
  intros Hc. specialize (Hall (N_of_ascii c)). rewrite ascii_N_embedding, Hc in Hall.
  assert (In (N_of_ascii c) (map N.of_nat (seq 0 256))) as Hin.
  { apply in_map_iff. exists (N.to_nat (N_of_ascii c)).
    pose proof (N_ascii_bounded c). split; [lia | apply in_seq; lia]. }
  apply Hall, andb_true_iff in Hin as [Hlt Heq].
  split; [apply N.ltb_lt, Hlt | apply Ascii.eqb_eq, Heq].
Qed.

(** The characters that [decode_loop] reads to the end are the characters of
    their digits. *)
Lemma decode_loop_digits (cs : list ascii) :
  forall (buf out : list N),
    BaseX.decode_loop cs buf = Returns (Some out) ->
    exists digits, digits_ok 58 digits /\ cs = map BaseX.charAt digits.
Proof.
  induction cs as [|c cs IH]; intros buf out; simpl.
  - intros _. exists []. split; [constructor | reflexivity].
  - destruct (BaseX.BASE_MAP c) as [d|] eqn:Hc; [|discriminate].
    destruct (BaseX.mul_add 256 BaseX.BASE buf d) as [buf' carry].
    destruct (carry =? 0); [|discriminate].
    intros Hrun. destruct (IH _ _ Hrun) as (digits & Hok & ->).
    destruct (base_map_inv c d Hc) as [Hd <-].
    exists (d :: digits). split; [constructor; assumption | reflexivity].
Qed.

Lemma count_skip_leader (cs : list ascii) :
  cs = List.repeat BaseX.LEADER (BaseX.count_leader cs) ++ BaseX.skip_leader cs.
Proof.
  induction cs as [|c cs IH]; [reflexivity|]. simpl.
  destruct (Ascii.eqb c BaseX.LEADER) eqn:E; [|reflexivity].
  apply Ascii.eqb_eq in E. subst c. simpl. f_equal. exact IH.
Qed.

Lemma skip_leader_head (digits : list N) (cs : list ascii) :
  digits_ok 58 digits ->
  map BaseX.charAt digits = BaseX.skip_leader cs ->
  BaseX.count_zeroes digits = O.
Proof.
  intros Hok Hd. destruct digits as [|d ds]; [reflexivity|].
  destruct d as [|p]; [|reflexivity].
  exfalso. simpl in Hd.
  assert (forall l, match BaseX.skip_leader l with
                    | c :: _ => Ascii.eqb c BaseX.LEADER = false
                    | [] => True
                    end) as Hhead.
  { induction l as [|x l IHl]; simpl; [exact I|].
    destruct (Ascii.eqb x BaseX.LEADER) eqn:E; [exact IHl | exact E]. }
  specialize (Hhead cs). rewrite <- Hd in Hhead. vm_compute in Hhead. discriminate.
Qed.

Lemma count_zeroes_app (z : nat) (l : list N) :
  BaseX.count_zeroes (List.repeat 0 z ++ l) = (z + BaseX.count_zeroes l)%nat
  /\ BaseX.skip_zeroes (List.repeat 0 z ++ l) = BaseX.skip_zeroes l.
Proof. induction z as [|z [IH1 IH2]]; simpl; [split; reflexivity|]. rewrite IH1, IH2. split; reflexivity. Qed.

Lemma to_N_byte_of_N (l : list N) :
  digits_ok 256 l -> map Byte.to_N (map Sha256.byte_of_N l) = l.
Proof.
  induction 1 as [|d ds Hd Hds IH]; [reflexivity|]. simpl. rewrite IH. f_equal.
  unfold Sha256.byte_of_N.
  destruct (Byte.of_N d) as [b|] eqn:E.
  - apply Byte.to_of_N, E.
  - apply Byte.of_N_None_iff in E. lia.
Qed.

Lemma basex_encode_decode (s : string) (buffer : list byte) :
  BaseX.decodeUnsafe s = Returns (Some buffer) -> BaseX.encode buffer = Returns s.
Proof.
  unfold BaseX.decodeUnsafe.
  set (cs := list_ascii_of_string s).
  destruct (BaseX.decode_loop _ _) as [[out|]|e] eqn:Hloop; simpl; try discriminate.
  intros [= <-].
  destruct (decode_loop_digits _ _ _ Hloop) as (digits & Hok & Hcs).
  pose proof (skip_leader_head digits cs Hok (eq_sym Hcs)) as Hz.
  rewrite Hcs in Hloop.
  destruct (decode_loop_spec digits (List.repeat 0 (List.length (BaseX.skip_leader cs))) 0 Hok)
    as (out' & Hrun & Hval & Hok' & Hlen).
  { apply digits_ok_repeat_zero. lia. }
  { rewrite value_repeat_zero; [simpl; lia | lia]. }
  { rewrite List.repeat_length, Hcs, List.length_map, N.add_0_l. apply N.pow_le_mono_l. lia. }
  rewrite Hcs, List.length_map in Hrun. rewrite List.length_map in Hloop.
  rewrite Hloop in Hrun. injection Hrun as <-.
  set (z := BaseX.count_leader cs) in *.
  assert (digits_ok 256 (List.repeat 0 z ++ BaseX.skip_zeroes out)) as Hbuf.
  { apply Forall_app. split; [apply digits_ok_repeat_zero; lia | apply skip_zeroes_ok, Hok']. }
  destruct (basex_encode_digits (map Sha256.byte_of_N (List.repeat 0 z ++ BaseX.skip_zeroes out)))
    as (digits' & Hok2 & Hz2 & Hval2 & Henc).
  rewrite (to_N_byte_of_N _ Hbuf) in Hval2, Henc.
  destruct (count_zeroes_app z (BaseX.skip_zeroes out)) as [Hcz Hsz].
  rewrite Hcz, skip_zeroes_head, Nat.add_0_r in Henc.
  rewrite Hsz in Hval2.
  assert (BaseX.skip_zeroes (BaseX.skip_zeroes out) = BaseX.skip_zeroes out) as Hidem.
  { pose proof (skip_zeroes_head out) as Hh.
    destruct (BaseX.skip_zeroes out) as [|[|p] l]; [reflexivity | discriminate Hh | reflexivity]. }
  rewrite Hidem, skip_zeroes_value, Hval, value_repeat_zero in Hval2 by lia.
  assert (digits' = digits) as ->.
  { apply (value_inj_canonical 58); [lia | assumption.. | lia]. }
  rewrite Henc. f_equal.
  rewrite <- Hcs. unfold z. rewrite <- count_skip_leader. unfold cs.
  apply string_of_list_ascii_of_string.
Qed.

Lemma decodeRaw_inv (buffer payload : list byte) :
  Bs58check.decodeRaw buffer = Some payload ->
  buffer = payload ++ firstn 4 (Bs58check.checksumFn payload).
Proof.
  unfold Bs58check.decodeRaw.
  set (n := List.length buffer).
  destruct (_ =? 0) eqn:Hx; [|discriminate]. intros [= <-].
  apply N.eqb_eq in Hx.
  apply N.lor_eq_0_iff in Hx as [Hx H3]. apply N.lor_eq_0_iff in Hx as [Hx H2].
  apply N.lor_eq_0_iff in Hx as [H0 H1].
  assert (forall i, Bs58check.xor_at i (skipn (n - 4) buffer)
                      (Bs58check.checksumFn (firstn (n - 4) buffer)) = 0 ->
                    nth i (skipn (n - 4) buffer) x00
                    = nth i (Bs58check.checksumFn (firstn (n - 4) buffer)) x00) as Hnth.
  { intros i Hi. unfold Bs58check.xor_at in Hi. apply N.lxor_eq in Hi.
    rewrite <- (byte_of_to_N (nth i (skipn (n - 4) buffer) x00)), Hi. apply byte_of_to_N. }
  apply Hnth in H0, H1, H2, H3.
  destruct (Nat.le_gt_cases 4 n) as [Hn|Hn].
  - rewrite <- (firstn_skipn (n - 4) buffer) at 1. f_equal.
    assert (List.length (skipn (n - 4) buffer) = 4%nat) as Hl
        by (rewrite List.length_skipn; fold n; lia).
    pose proof (sha256_length (Sha256.sha256 (firstn (n - 4) buffer))) as Hs.
    fold (Bs58check.checksumFn (firstn (n - 4) buffer)) in Hs.
    destruct (skipn (n - 4) buffer) as [|a [|b [|c [|d [|? ?]]]]]; try discriminate Hl.
    destruct (Bs58check.checksumFn (firstn (n - 4) buffer)) as [|a' [|b' [|c' [|d' ?]]]];
      try discriminate Hs.
    simpl in *. subst. rewrite firstn_O. reflexivity.
  - exfalso.
    clear H0 H1 H2 Hnth.
    replace (n - 4)%nat with 0%nat in H3 by lia.
    change (skipn 0 buffer) with buffer in H3.
    change (firstn 0 buffer) with (@nil byte) in H3.
    rewrite (nth_overflow buffer x00) in H3 by (fold n; lia).
    vm_compute in H3. discriminate H3.
Qed.

Lemma bs58check_encode_decode (s : string) (payload : list byte) :
  Bs58check.decodeUnsafe s = Returns (Some payload) -> Bs58check.encode payload = Returns s.
Proof.
  unfold Bs58check.decodeUnsafe, Bs58check.encode.
  destruct (BaseX.decodeUnsafe s) as [[buffer|]|e] eqn:Hd; simpl; try discriminate.
  intros [= Hraw]. apply decodeRaw_inv in Hraw. rewrite <- Hraw.
  apply basex_encode_decode, Hd.
Qed.

(* ===================================================================== *)
(** ** AutomergeUrl.js: the other round trips, validity, errors *)
(* ===================================================================== *)

Lemma decode_loop_returns (cs : list ascii) :
  forall (b256 : list N) (k : N),
    digits_ok 256 b256 ->
    value 256 b256 < 58 ^ k ->
    58 ^ (k + N.of_nat (List.length cs)) <= 256 ^ N.of_nat (List.length b256) ->
    exists r, BaseX.decode_loop cs b256 = Returns r.
Proof.
  induction cs as [|c cs IH]; intros b256 k Hbuf Hlt Hfit; simpl.
  - eexists. reflexivity.
  - destruct (BaseX.BASE_MAP c) as [d|] eqn:Hc; [|eexists; reflexivity].
    destruct (base_map_inv c d Hc) as [Hd _].
    simpl List.length in Hfit. rewrite Nat2N.inj_succ in Hfit.
    assert (58 * value 256 b256 + d < 58 ^ (k + 1)) as Hnext.
    { rewrite N.pow_add_r. change (58 ^ 1) with 58. nia. }
    assert (58 ^ (k + 1) <= 58 ^ (k + N.succ (N.of_nat (List.length cs)))) as Hmono.
    { apply N.pow_le_mono_r; lia. }
    destruct (mul_add_fits 256 ltac:(lia) 58 b256 d ltac:(lia))
      as (b' & Hma & Hv & Hok & Hlen).
    unfold BaseX.BASE. rewrite Hma. simpl.
    apply (IH b' (k + 1) Hok ltac:(lia)).
    rewrite Hlen. replace (k + 1 + N.of_nat (List.length cs))
      with (k + N.succ (N.of_nat (List.length cs))) by lia. exact Hfit.
Qed.

(** [decodeUnsafe] never throws on a string: the buffer is large enough for
    the carry to end at zero. *)
Lemma bs58check_decode_returns (s : string) :
  exists r, Bs58check.decodeUnsafe s = Returns r.
Proof.
  unfold Bs58check.decodeUnsafe, BaseX.decodeUnsafe.
  destruct (decode_loop_returns (BaseX.skip_leader (list_ascii_of_string s))
              (List.repeat 0 (List.length (BaseX.skip_leader (list_ascii_of_string s)))) 0)
    as ([out|] & ->); simpl.
  - apply digits_ok_repeat_zero. lia.
  - rewrite value_repeat_zero; [simpl; lia | lia].
  - rewrite List.repeat_length, N.add_0_l. apply N.pow_le_mono_l. lia.
  - eexists. reflexivity.
  - eexists. reflexivity.
Qed.

Lemma decoded_is_word (id : string) (b : list byte) :
  Bs58check.decodeUnsafe id = Returns (Some b) ->
  AutomergeUrl.url_match (AutomergeUrl.urlPrefix +:+ id) = Some id.
Proof.
  intros Hd. apply url_match_prefix.
  - intros Hnil. apply (decoded_not_empty id b Hd).
    destruct id; [reflexivity | discriminate].
  - eapply decoded_word, Hd.
Qed.

Lemma parse_decoded (id : string) (b : list byte) :
  Bs58check.decodeUnsafe id = Returns (Some b) ->
  AutomergeUrl.parseAutomergeUrl (AutomergeUrl.urlPrefix +:+ id)
  = Returns {| AutomergeUrl.binaryDocumentId := b; AutomergeUrl.documentId := id |}.
Proof.
  intros Hd. unfold AutomergeUrl.parseAutomergeUrl.
  rewrite (decoded_is_word id b Hd). simpl. rewrite Hd. reflexivity.
Qed.

(** The prefix ends in a colon, which is no word character: a string of word
    characters does not begin with it. *)
Lemma word_not_prefixed (id : string) :
  forallb AutomergeUrl.is_word_char (list_ascii_of_string id) = true ->
  String.prefix AutomergeUrl.urlPrefix id = false.
Proof.
  intros Hw.
  destruct (String.prefix AutomergeUrl.urlPrefix id) eqn:Hp; [|reflexivity].
  exfalso.
  assert (forall p s, String.prefix p s = true -> exists r, s = p +:+ r) as Hpre.
  { induction p as [|c p IH]; intros s Hs.
    - exists s. reflexivity.
    - destruct s as [|d s]; [discriminate|]. simpl in Hs.
      destruct (ascii_dec c d) as [->|]; [|discriminate].
      destruct (IH s Hs) as (r & ->). exists r. reflexivity. }
  destruct (Hpre _ _ Hp) as (r & ->).
  assert (forall p r, list_ascii_of_string (p +:+ r)
                      = list_ascii_of_string p ++ list_ascii_of_string r) as Happ.
  { induction p as [|c p IH]; intros r'; [reflexivity|].
    change (String c p +:+ r') with (String c (p +:+ r')). simpl. f_equal. apply IH. }
  rewrite Happ, forallb_app in Hw. apply andb_true_iff in Hw as [Hw _].
  vm_compute in Hw. discriminate.
Qed.

(** X1. [documentIdToBinary] and [binaryToDocumentId] are inverse to each
    other: a documentId decodes to the bytes [b] exactly when [b] encodes to
    that documentId.  So a string has at most one binary form, and a string
    that decodes is the canonical encoding of its bytes. *)
Theorem documentId_binary_bijection (id : string) (b : list byte) :
  AutomergeUrl.documentIdToBinary (Some id) = Returns (Some b)
  <-> AutomergeUrl.binaryToDocumentId b = Returns id.
Proof.
  unfold AutomergeUrl.documentIdToBinary, AutomergeUrl.binaryToDocumentId. split.
  - apply bs58check_encode_decode.
  - intros Henc. destruct (bs58check_decode_encode b) as (s & Hs & Hd & _).
    rewrite Hs in Henc. injection Henc as <-. exact Hd.
Qed.

(** X2. Parsing and then stringifying gives the URL back: when
    [parseAutomergeUrl(url)] returns, [stringifyAutomergeUrl] of the parsed
    documentId, and of the parsed binary documentId (passed directly or as
    [{ documentId }]), returns [url]. *)
Theorem stringify_parsed_url (url : string) (p : AutomergeUrl.ParsedUrl) :
  AutomergeUrl.parseAutomergeUrl url = Returns p ->
  AutomergeUrl.stringifyAutomergeUrl
    (AutomergeUrl.ArgValue (AutomergeUrl.VString (AutomergeUrl.documentId p))) = Returns url
  /\ AutomergeUrl.stringifyAutomergeUrl
       (AutomergeUrl.ArgValue (AutomergeUrl.VBinary (AutomergeUrl.binaryDocumentId p)))
     = Returns url
  /\ AutomergeUrl.stringifyAutomergeUrl
       (AutomergeUrl.ArgObject (Some (AutomergeUrl.VBinary (AutomergeUrl.binaryDocumentId p))))
     = Returns url.
Proof.
  intros Hp. apply parse_returns_inv in Hp as [-> Hd].
  apply bs58check_encode_decode in Hd.
  unfold AutomergeUrl.stringifyAutomergeUrl, AutomergeUrl.binaryToDocumentId.
  rewrite Hd. repeat split.
Qed.

Lemma stringify_parsed_url_witness :
  AutomergeUrl.stringifyAutomergeUrl
    (AutomergeUrl.ArgValue (AutomergeUrl.VString sample_id))
  = Returns "automerge:4NMNnkMhL8jXrdJ9jamS58PAVdXu"
  /\ AutomergeUrl.stringifyAutomergeUrl (AutomergeUrl.ArgValue (AutomergeUrl.VBinary sample_v4))
     = Returns "automerge:4NMNnkMhL8jXrdJ9jamS58PAVdXu"
  /\ AutomergeUrl.stringifyAutomergeUrl
       (AutomergeUrl.ArgObject (Some (AutomergeUrl.VBinary sample_v4)))
     = Returns "automerge:4NMNnkMhL8jXrdJ9jamS58PAVdXu".
Proof.
  apply (stringify_parsed_url "automerge:4NMNnkMhL8jXrdJ9jamS58PAVdXu"
           {| AutomergeUrl.binaryDocumentId := sample_v4;
              AutomergeUrl.documentId := sample_id |}).
  vm_compute. reflexivity.
Defined.

(** X3. Stringifying a documentId in string form and parsing the URL
    returns that documentId, with the bytes it decodes to. *)
Theorem parse_stringified_id (id : string) (b : list byte) :
  AutomergeUrl.documentIdToBinary (Some id) = Returns (Some b) ->
  (let* url := AutomergeUrl.stringifyAutomergeUrl
                 (AutomergeUrl.ArgValue (AutomergeUrl.VString id)) in
   AutomergeUrl.parseAutomergeUrl url)
  = Returns {| AutomergeUrl.binaryDocumentId := b; AutomergeUrl.documentId := id |}.
Proof. intros Hd. simpl. apply parse_decoded, Hd. Qed.

Lemma parse_stringified_id_witness :
  (let* url := AutomergeUrl.stringifyAutomergeUrl
                 (AutomergeUrl.ArgValue (AutomergeUrl.VString sample_id)) in
   AutomergeUrl.parseAutomergeUrl url)
  = Returns {| AutomergeUrl.binaryDocumentId := sample_v4;
               AutomergeUrl.documentId := sample_id |}.
Proof. apply (parse_stringified_id sample_id sample_v4). vm_compute. reflexivity. Defined.

(** The two ways [parseAutomergeUrl] fails. *)
(** X4. [parseAutomergeUrl] throws in two ways.  On a string that the
    regular expression does not match, the [undefined] match goes to
    [bs58check.decodeUnsafe], and what is thrown is base-x's
    [TypeError("Expected String")]; on a string that matches but whose payload
    does not decode, it is [Error("Invalid document URL: " + url)]. *)
Theorem parse_failure_modes (s : string) (e : JsError) :
  AutomergeUrl.parseAutomergeUrl s = Throws e ->
  (AutomergeUrl.url_match s = None /\ e = TypeError "Expected String")
  \/ (exists id, s = AutomergeUrl.urlPrefix +:+ id
                 /\ AutomergeUrl.documentIdToBinary (Some id) = Returns None
                 /\ e = Error ("Invalid document URL: " +:+ s)).
Proof.
  unfold AutomergeUrl.parseAutomergeUrl.
  destruct (AutomergeUrl.url_match s) as [id|] eqn:Hm; simpl.
  - destruct (bs58check_decode_returns id) as ([b|] & Hd); rewrite Hd; simpl.
    + discriminate.
    + intros [= <-]. right. exists id. apply url_match_inv in Hm.
      repeat split; [exact Hm | exact Hd].
  - intros [= <-]. left. split; reflexivity.
Qed.

Lemma parse_failure_modes_witness :
  (AutomergeUrl.url_match "4NMNnkMhL8jXrdJ9jamS58PAVdXu" = None
   /\ TypeError "Expected String" = TypeError "Expected String")
  \/ (exists id, "4NMNnkMhL8jXrdJ9jamS58PAVdXu" = AutomergeUrl.urlPrefix +:+ id
                 /\ AutomergeUrl.documentIdToBinary (Some id) = Returns None
                 /\ TypeError "Expected String"
                    = Error ("Invalid document URL: " +:+ "4NMNnkMhL8jXrdJ9jamS58PAVdXu")).
Proof.
  apply (parse_failure_modes "4NMNnkMhL8jXrdJ9jamS58PAVdXu" (TypeError "Expected String")).
  vm_compute. reflexivity.
Defined.

Lemma list_ascii_append (p s : string) :
  list_ascii_of_string (p +:+ s) = list_ascii_of_string p ++ list_ascii_of_string s.
Proof.
  induction p as [|c p IH]; [reflexivity|].
  change (String c p +:+ s) with (String c (p +:+ s)). simpl. f_equal. exact IH.
Qed.

Lemma url_does_not_decode (s : string) (b : list byte) :
  Bs58check.decodeUnsafe (AutomergeUrl.urlPrefix +:+ s) <> Returns (Some b).
Proof.
  intros Hd. apply decoded_word in Hd.
  rewrite list_ascii_append, forallb_app in Hd. apply andb_true_iff in Hd as [Hd _].
  vm_compute in Hd. discriminate.
Qed.

Section UrlValidity.
Context `{UuidPackage}.

Lemma valid_id_decodes (id : string) :
  AutomergeUrl.isValidDocumentId (AutomergeUrl.VString id) = Returns true ->
  exists b, Bs58check.decodeUnsafe id = Returns (Some b).
Proof.
  unfold AutomergeUrl.isValidDocumentId, AutomergeUrl.documentIdToBinary.
  destruct (Bs58check.decodeUnsafe id) as [[b|]|e]; simpl; try discriminate.
  intros _. exists b. reflexivity.
Qed.

Lemma valid_url_of_valid_id (id : string) :
  AutomergeUrl.isValidDocumentId (AutomergeUrl.VString id) = Returns true ->
  AutomergeUrl.isValidAutomergeUrl (AutomergeUrl.VString (AutomergeUrl.urlPrefix +:+ id)) = true.
Proof.
  intros Hv. destruct (valid_id_decodes id Hv) as (b & Hd).
  unfold AutomergeUrl.isValidAutomergeUrl.
  rewrite prefixed_not_empty, prefix_append. cbn [orb negb].
  rewrite (parse_decoded id b Hd). cbn [bindR AutomergeUrl.documentId].
  rewrite Hv. reflexivity.
Qed.

Lemma valid_url_inv (s : string) :
  AutomergeUrl.isValidAutomergeUrl (AutomergeUrl.VString s) = true ->
  exists id, s = AutomergeUrl.urlPrefix +:+ id
             /\ AutomergeUrl.isValidDocumentId (AutomergeUrl.VString id) = Returns true.
Proof.
  unfold AutomergeUrl.isValidAutomergeUrl.
  destruct (String.eqb s "" || negb (String.prefix AutomergeUrl.urlPrefix s)); [discriminate|].
  destruct (AutomergeUrl.parseAutomergeUrl s) as [[b id]|e] eqn:Hp; cbn [bindR];
    [|discriminate].
  cbn [AutomergeUrl.documentId].
  destruct (AutomergeUrl.isValidDocumentId (AutomergeUrl.VString id)) as [[|]|e] eqn:Hv;
    try discriminate.
  intros _. apply parse_returns_inv in Hp as [-> _].
  exists id. split; [reflexivity | exact Hv].
Qed.

Lemma valid_id_not_url (id : string) :
  AutomergeUrl.isValidDocumentId (AutomergeUrl.VString id) = Returns true ->
  AutomergeUrl.isValidAutomergeUrl (AutomergeUrl.VString id) = false.
Proof.
  intros Hv. destruct (valid_id_decodes id Hv) as (b & Hd).
  unfold AutomergeUrl.isValidAutomergeUrl.
  rewrite (word_not_prefixed id (decoded_word id b Hd)).
  rewrite orb_true_r. reflexivity.
Qed.

Lemma append_inj_prefix (p a b : string) : p +:+ a = p +:+ b -> a = b.
Proof.
  induction p as [|c p IH]; [intros Hx; exact Hx|].
  change (String c p +:+ a) with (String c (p +:+ a)).
  change (String c p +:+ b) with (String c (p +:+ b)).
  intros [= Hx]. apply IH, Hx.
Qed.

(** X5. A string that begins with the prefix is a valid URL exactly when
    what follows the prefix is a valid documentId; and only a string that
    begins with the prefix is a valid URL. *)
Theorem valid_url_iff_valid_id :
  (forall id : string,
      AutomergeUrl.isValidAutomergeUrl (AutomergeUrl.VString (AutomergeUrl.urlPrefix +:+ id))
      = true
      <-> AutomergeUrl.isValidDocumentId (AutomergeUrl.VString id) = Returns true)
  /\ (forall s : string,
         AutomergeUrl.isValidAutomergeUrl (AutomergeUrl.VString s) = true ->
         exists id, s = AutomergeUrl.urlPrefix +:+ id).
Proof.
  split.
  - intros id. split; [|apply valid_url_of_valid_id].
    intros Hu. destruct (valid_url_inv _ Hu) as (id' & Heq & Hv).
    apply append_inj_prefix in Heq. subst id'. exact Hv.
  - intros s Hu. destruct (valid_url_inv _ Hu) as (id & Heq & _). exists id. exact Heq.
Qed.

Lemma interpret_valid_id (id : string) :
  AutomergeUrl.isValidDocumentId (AutomergeUrl.VString id) = Returns true ->
  AutomergeUrl.interpretAsDocumentId (AutomergeUrl.VString id) = Returns id.
Proof.
  intros Hv. unfold AutomergeUrl.interpretAsDocumentId.
  rewrite (valid_id_not_url id Hv), Hv. reflexivity.
Qed.

Lemma interpret_valid_url (id : string) :
  AutomergeUrl.isValidDocumentId (AutomergeUrl.VString id) = Returns true ->
  AutomergeUrl.interpretAsDocumentId (AutomergeUrl.VString (AutomergeUrl.urlPrefix +:+ id))
  = Returns id.
Proof.
  intros Hv. destruct (valid_id_decodes id Hv) as (b & Hd).
  unfold AutomergeUrl.interpretAsDocumentId.
  rewrite (valid_url_of_valid_id id Hv), (parse_decoded id b Hd). reflexivity.
Qed.

(** X6. For a valid documentId, [interpretAsDocumentId] of the documentId
    and of its URL both return the documentId: the two forms name one
    document, and the result is a fixed point of [interpretAsDocumentId]. *)
Theorem url_and_id_name_one_document (id : string) :
  AutomergeUrl.isValidDocumentId (AutomergeUrl.VString id) = Returns true ->
  AutomergeUrl.interpretAsDocumentId (AutomergeUrl.VString id) = Returns id
  /\ AutomergeUrl.interpretAsDocumentId (AutomergeUrl.VString (AutomergeUrl.urlPrefix +:+ id))
     = Returns id.
Proof. intros Hv. split; [apply interpret_valid_id | apply interpret_valid_url]; exact Hv. Qed.

(** X7. [generateAutomergeUrl], with bytes that the uuid package takes for
    a UUID, returns a valid URL that parses back to those bytes, and whose
    documentId is the one [interpretAsDocumentId] gives for the bytes and for
    the URL. *)
Theorem generated_url_is_valid (v4 : list byte) :
  valid_uuid_bytes v4 ->
  exists id,
    AutomergeUrl.generateAutomergeUrl v4 = Returns (AutomergeUrl.urlPrefix +:+ id)
    /\ AutomergeUrl.isValidAutomergeUrl (AutomergeUrl.VString (AutomergeUrl.urlPrefix +:+ id))
       = true
    /\ AutomergeUrl.parseAutomergeUrl (AutomergeUrl.urlPrefix +:+ id)
       = Returns {| AutomergeUrl.binaryDocumentId := v4; AutomergeUrl.documentId := id |}
    /\ AutomergeUrl.interpretAsDocumentId (AutomergeUrl.VBinary v4) = Returns id
    /\ AutomergeUrl.interpretAsDocumentId (AutomergeUrl.VString (AutomergeUrl.urlPrefix +:+ id))
       = Returns id.
Proof.
  intros (u & Hu & Hv).
  destruct (parse_prefix_encoded v4) as (id & Henc & Hparse).
  assert (AutomergeUrl.isValidDocumentId (AutomergeUrl.VString id) = Returns true) as Hvalid.
  { unfold AutomergeUrl.isValidDocumentId, AutomergeUrl.documentIdToBinary.
    apply parse_returns_inv in Hparse as [_ Hd]. simpl in Hd. rewrite Hd. simpl.
    rewrite Hu. simpl. rewrite Hv. reflexivity. }
  exists id. split; [|split; [|split; [|split]]].
  - unfold AutomergeUrl.generateAutomergeUrl, AutomergeUrl.stringifyAutomergeUrl.
    rewrite Henc. reflexivity.
  - apply valid_url_of_valid_id, Hvalid.
  - exact Hparse.
  - exact Henc.
  - apply interpret_valid_url, Hvalid.
Qed.

(** X8. [parseLegacyUUID] of a string that the uuid package validates and
    parses to the bytes [b] returns a URL that parses back to [b]; and when
    the string is neither a URL nor a documentId, [interpretAsDocumentId]
    takes it for a legacy UUID and returns the documentId of that URL. *)
Theorem legacy_uuid_url (str : string) (b : list byte) :
  uuid_validate str = true ->
  uuid_parse str = Returns b ->
  exists id,
    AutomergeUrl.parseLegacyUUID str = Returns (Some (AutomergeUrl.urlPrefix +:+ id))
    /\ AutomergeUrl.parseAutomergeUrl (AutomergeUrl.urlPrefix +:+ id)
       = Returns {| AutomergeUrl.binaryDocumentId := b; AutomergeUrl.documentId := id |}
    /\ (AutomergeUrl.isValidAutomergeUrl (AutomergeUrl.VString str) = false ->
        AutomergeUrl.isValidDocumentId (AutomergeUrl.VString str) = Returns false ->
        AutomergeUrl.interpretAsDocumentId (AutomergeUrl.VString str) = Returns id).
Proof.
  intros Hv Hp.
  destruct (parse_prefix_encoded b) as (id & Henc & Hparse).
  exists id. split; [|split; [exact Hparse|]].
  - unfold AutomergeUrl.parseLegacyUUID. rewrite Hv, Hp. simpl.
    unfold AutomergeUrl.stringifyAutomergeUrl. rewrite Henc. reflexivity.
  - intros Hu Hd. unfold AutomergeUrl.interpretAsDocumentId.
    rewrite Hu, Hd. simpl. unfold AutomergeUrl.isValidUuid. rewrite Hv, Hp. simpl. exact Henc.
Qed.

(** X9. A documentId whose checksum is good but whose bytes the uuid
    package cannot stringify: [interpretAsDocumentId] of the documentId throws
    the error of [Uuid.stringify], as [isValidDocumentId] has no [try];
    its URL is not a valid URL, and [interpretAsDocumentId] of the URL throws
    [Error("Invalid AutomergeUrl: ...")]. *)
Theorem interpret_passes_on_the_uuid_error (id : string) (b : list byte)
    (e : JsError) :
  AutomergeUrl.documentIdToBinary (Some id) = Returns (Some b) ->
  uuid_stringify b = Throws e ->
  AutomergeUrl.interpretAsDocumentId (AutomergeUrl.VString id) = Throws e
  /\ AutomergeUrl.isValidAutomergeUrl (AutomergeUrl.VString (AutomergeUrl.urlPrefix +:+ id))
     = false
  /\ (uuid_validate (AutomergeUrl.urlPrefix +:+ id) = false ->
      AutomergeUrl.interpretAsDocumentId (AutomergeUrl.VString (AutomergeUrl.urlPrefix +:+ id))
      = Throws (Error ("Invalid AutomergeUrl: '" +:+ (AutomergeUrl.urlPrefix +:+ id) +:+ "'"))).
Proof.
  intros Hd Hu. unfold AutomergeUrl.documentIdToBinary in Hd.
  assert (AutomergeUrl.isValidDocumentId (AutomergeUrl.VString id) = Throws e) as Hv.
  { unfold AutomergeUrl.isValidDocumentId, AutomergeUrl.documentIdToBinary.
    rewrite Hd. simpl. rewrite Hu. reflexivity. }
  assert (AutomergeUrl.isValidAutomergeUrl (AutomergeUrl.VString id) = false) as Hnu.
  { unfold AutomergeUrl.isValidAutomergeUrl.
    rewrite (word_not_prefixed id (decoded_word id b Hd)), orb_true_r. reflexivity. }
  assert (AutomergeUrl.isValidAutomergeUrl
            (AutomergeUrl.VString (AutomergeUrl.urlPrefix +:+ id)) = false) as Hurl.
  { unfold AutomergeUrl.isValidAutomergeUrl.
    rewrite prefixed_not_empty, prefix_append. cbn [orb negb].
    rewrite (parse_decoded id b Hd). cbn [bindR AutomergeUrl.documentId].
    rewrite Hv. reflexivity. }
  split; [|split; [exact Hurl|]].
  - unfold AutomergeUrl.interpretAsDocumentId. rewrite Hnu, Hv. reflexivity.
  - intros Hval. unfold AutomergeUrl.interpretAsDocumentId. rewrite Hurl.
    unfold AutomergeUrl.isValidDocumentId, AutomergeUrl.documentIdToBinary,
      AutomergeUrl.isValidUuid.
    destruct (bs58check_decode_returns (AutomergeUrl.urlPrefix +:+ id)) as ([b'|] & Hd').
    + exfalso. exact (url_does_not_decode id b' Hd').
    + rewrite Hd'. cbn [bindR]. rewrite Hval. reflexivity.
Qed.

End UrlValidity.

Lemma url_and_id_name_one_document_witness :
  @AutomergeUrl.interpretAsDocumentId UuidModel.package (AutomergeUrl.VString sample_id)
  = Returns sample_id
  /\ @AutomergeUrl.interpretAsDocumentId UuidModel.package
       (AutomergeUrl.VString (AutomergeUrl.urlPrefix +:+ sample_id))
     = Returns sample_id.
Proof.
  apply (@url_and_id_name_one_document UuidModel.package sample_id).
  vm_compute. reflexivity.
Defined.

Lemma generated_url_is_valid_witness :
  exists id,
    AutomergeUrl.generateAutomergeUrl sample_v4 = Returns (AutomergeUrl.urlPrefix +:+ id)
    /\ @AutomergeUrl.isValidAutomergeUrl UuidModel.package
         (AutomergeUrl.VString (AutomergeUrl.urlPrefix +:+ id)) = true
    /\ AutomergeUrl.parseAutomergeUrl (AutomergeUrl.urlPrefix +:+ id)
       = Returns {| AutomergeUrl.binaryDocumentId := sample_v4; AutomergeUrl.documentId := id |}
    /\ @AutomergeUrl.interpretAsDocumentId UuidModel.package (AutomergeUrl.VBinary sample_v4)
       = Returns id
    /\ @AutomergeUrl.interpretAsDocumentId UuidModel.package
         (AutomergeUrl.VString (AutomergeUrl.urlPrefix +:+ id))
       = Returns id.
Proof.
  apply (@generated_url_is_valid UuidModel.package sample_v4).
  exists "f1c29c84-74c8-4ade-b800-be47627d33bf". split; vm_compute; reflexivity.
Defined.

Lemma legacy_uuid_url_witness :
  exists id,
    @AutomergeUrl.parseLegacyUUID UuidModel.package "f1c29c84-74c8-4ade-b800-be47627d33bf"
    = Returns (Some (AutomergeUrl.urlPrefix +:+ id))
    /\ AutomergeUrl.parseAutomergeUrl (AutomergeUrl.urlPrefix +:+ id)
       = Returns {| AutomergeUrl.binaryDocumentId := sample_v4; AutomergeUrl.documentId := id |}
    /\ (@AutomergeUrl.isValidAutomergeUrl UuidModel.package
          (AutomergeUrl.VString "f1c29c84-74c8-4ade-b800-be47627d33bf") = false ->
        @AutomergeUrl.isValidDocumentId UuidModel.package
          (AutomergeUrl.VString "f1c29c84-74c8-4ade-b800-be47627d33bf") = Returns false ->
        @AutomergeUrl.interpretAsDocumentId UuidModel.package
          (AutomergeUrl.VString "f1c29c84-74c8-4ade-b800-be47627d33bf") = Returns id).
Proof.
  apply (@legacy_uuid_url UuidModel.package "f1c29c84-74c8-4ade-b800-be47627d33bf" sample_v4).
  - vm_compute. reflexivity.
  - vm_compute. reflexivity.
Defined.

Lemma interpret_passes_on_the_uuid_error_witness :
  @AutomergeUrl.interpretAsDocumentId UuidModel.package
    (AutomergeUrl.VString "16UwLL9Risc3QfPqBUvKofHmBQ7wMtjvM")
  = Throws (TypeError "Stringified UUID is invalid")
  /\ @AutomergeUrl.isValidAutomergeUrl UuidModel.package
       (AutomergeUrl.VString (AutomergeUrl.urlPrefix +:+ "16UwLL9Risc3QfPqBUvKofHmBQ7wMtjvM"))
     = false
  /\ (@uuid_validate UuidModel.package
        (AutomergeUrl.urlPrefix +:+ "16UwLL9Risc3QfPqBUvKofHmBQ7wMtjvM") = false ->
      @AutomergeUrl.interpretAsDocumentId UuidModel.package
        (AutomergeUrl.VString (AutomergeUrl.urlPrefix +:+ "16UwLL9Risc3QfPqBUvKofHmBQ7wMtjvM"))
      = Throws (Error ("Invalid AutomergeUrl: '"
                       +:+ (AutomergeUrl.urlPrefix +:+ "16UwLL9Risc3QfPqBUvKofHmBQ7wMtjvM")
                       +:+ "'"))).
Proof.
  apply (@interpret_passes_on_the_uuid_error UuidModel.package
           "16UwLL9Risc3QfPqBUvKofHmBQ7wMtjvM"
           (unhex "00010966776006953d5567439e5e39f86a0d273bee")
           (TypeError "Stringified UUID is invalid")).
  - vm_compute. reflexivity.
  - vm_compute. reflexivity.
Defined.

(* ===================================================================== *)
(** ** NetworkSubsystem.js: routes, counters, the state of the filter *)
(* ===================================================================== *)

Lemma send_keeps_routes (m : Message) (ns : Network.NetworkSubsystem) :
  Network.adaptersByPeer (Network.send m ns).1 = Network.adaptersByPeer ns
  /\ Network.ephemeralSessionCounts (Network.send m ns).1 = Network.ephemeralSessionCounts ns.
Proof.
  unfold Network.send.
  destruct (Network.adaptersByPeer ns !! targetId m); [|split; reflexivity].
  unfold Network.prepareMessage.
  destruct (String.eqb (type m) "ephemeral"); [|split; reflexivity].
  destruct (count m); split; reflexivity.
Qed.

Lemma send_all_keeps_routes (msgs : list Message) :
  forall ns, Network.adaptersByPeer (Network.send_all msgs ns).1 = Network.adaptersByPeer ns.
Proof.
  induction msgs as [|m rest IH]; intros ns; simpl; [reflexivity|].
  destruct (Network.send m ns) as [ns1 e1] eqn:Hs.
  specialize (IH ns1). destruct (Network.send_all rest ns1) as [ns2 log]. simpl in *.
  rewrite IH. pose proof (send_keeps_routes m ns) as [Hr _]. rewrite Hs in Hr. exact Hr.
Qed.

(** X10. After the "close" of an adapter, [send] hands no message to that
    adapter, whatever the messages and their targets; the routes through the
    other adapters stay. *)
Theorem closed_adapter_gets_nothing :
  (forall (ns : Network.NetworkSubsystem) (a : nat) (msgs : list Message),
      Forall (fun entry : Message * list Network.Effect => a ∉ adapters_used entry.2)
        (Network.send_all msgs (Network.on_close a ns)).2)
  /\ (forall (ns : Network.NetworkSubsystem) (a b : nat) (peer : string),
         b <> a ->
         Network.adaptersByPeer ns !! peer = Some b ->
         Network.adaptersByPeer (Network.on_close a ns) !! peer = Some b).
Proof.
  split.
  - intros ns a msgs.
    assert (forall ns' : Network.NetworkSubsystem,
               (forall p, Network.adaptersByPeer ns' !! p <> Some a) ->
               Forall (fun entry : Message * list Network.Effect => a ∉ adapters_used entry.2)
                 (Network.send_all msgs ns').2) as Hgen.
    { induction msgs as [|m rest IH]; intros ns' Hno; simpl; [constructor|].
      destruct (Network.send m ns') as [ns1 e1] eqn:Hs.
      pose proof (send_keeps_routes m ns') as [Hr _]. rewrite Hs in Hr. simpl in Hr.
      specialize (IH ns1). destruct (Network.send_all rest ns1) as [ns2 log]. simpl in *.
      constructor.
      - simpl. unfold Network.send in Hs.
        destruct (Network.adaptersByPeer ns' !! targetId m) as [b|] eqn:Hb.
        + destruct (Network.prepareMessage m ns') as [ns'' out]. injection Hs as <- <-.
          simpl. intros Hin. apply list_elem_of_singleton in Hin. subst b.
          exact (Hno _ Hb).
        + injection Hs as <- <-. simpl. apply not_elem_of_nil.
      - apply IH. intros p. rewrite Hr. apply Hno. }
    apply Hgen. intros p Hp. unfold Network.on_close in Hp. simpl in Hp.
    apply map_lookup_filter_Some in Hp as [_ Hneq]. simpl in Hneq. congruence.
  - intros ns a b peer Hne Hb. unfold Network.on_close. simpl.
    apply map_lookup_filter_Some. split; [exact Hb | simpl; exact Hne].
Qed.



Lemma on_message_keeps (msg : Message) (ns : Network.NetworkSubsystem) :
  Network.adaptersByPeer (Network.on_message msg ns).1 = Network.adaptersByPeer ns
  /\ Network.count_ (Network.on_message msg ns).1 = Network.count_ ns.
Proof.
  unfold Network.on_message.
  destruct (negb (isRepoMessage msg)); [split; reflexivity|].
  destruct (isEphemeralMessage msg); [|split; reflexivity].
  destruct (match _ with Some _ => _ | None => _ end); split; reflexivity.
Qed.

Lemma on_message_grows (msg : Message) (ns : Network.NetworkSubsystem) (k : string) (last : N) :
  Network.ephemeralSessionCounts ns !! k = Some last ->
  exists last', Network.ephemeralSessionCounts (Network.on_message msg ns).1 !! k = Some last'
                /\ last <= last'.
Proof.
  intros Hk. unfold Network.on_message.
  destruct (negb (isRepoMessage msg)); [exists last; split; [exact Hk | lia]|].
  destruct (isEphemeralMessage msg); [|exists last; split; [exact Hk | lia]].
  set (src := Network.getEphemeralMessageSource msg).
  destruct (decide (src = k)) as [->|Hne].
  - rewrite Hk. unfold Network.count_gt.
    destruct (count msg) as [c|]; [|exists last; split; [exact Hk | lia]].
    destruct (last <? c) eqn:Hc; [|exists last; split; [exact Hk | lia]].
    simpl. exists c. rewrite lookup_insert_eq. apply N.ltb_lt in Hc. split; [reflexivity | lia].
  - destruct (match _ with Some _ => _ | None => _ end);
      [|exists last; split; [exact Hk | lia]].
    simpl. exists last. split; [|lia].
    unfold Network.store_count. destruct (count msg).
    + rewrite lookup_insert_ne by exact Hne. exact Hk.
    + rewrite lookup_delete_ne by exact Hne. exact Hk.
Qed.

(** X13. The count last seen for a source is never forgotten and never
    goes down, whatever messages arrive. *)
Theorem last_seen_count_only_grows (msgs : list Message) (ns : Network.NetworkSubsystem)
    (source : string) (last : N) :
  Network.ephemeralSessionCounts ns !! source = Some last ->
  exists last',
    Network.ephemeralSessionCounts (Network.receive_all msgs ns).1 !! source = Some last'
    /\ last <= last'.
Proof.
  revert ns last. induction msgs as [|m rest IH]; intros ns last Hk; simpl.
  - exists last. split; [exact Hk | lia].
  - destruct (on_message_grows m ns source last Hk) as (l1 & H1 & Hle1).
    destruct (Network.on_message m ns) as [ns1 e1]. simpl in H1.
    destruct (IH ns1 l1 H1) as (l2 & H2 & Hle2).
    destruct (Network.receive_all rest ns1) as [ns2 e2]. simpl in *.
    exists l2. split; [exact H2 | lia].
Qed.

Lemma last_seen_count_only_grows_witness :
  exists last',
    Network.ephemeralSessionCounts
      (Network.receive_all
         [ ephemeral_from "alice" "s1" 2 "bob"; ephemeral_from "alice" "s1" 9 "bob";
           ephemeral_from "alice" "s1" 4 "bob" ]
         (Network.receive_all [ ephemeral_from "alice" "s1" 5 "bob" ] bob_network).1).1
    !! "alice:s1" = Some last'
    /\ 5 <= last'.
Proof.
  apply (last_seen_count_only_grows
           [ ephemeral_from "alice" "s1" 2 "bob"; ephemeral_from "alice" "s1" 9 "bob";
             ephemeral_from "alice" "s1" 4 "bob" ]
           (Network.receive_all [ ephemeral_from "alice" "s1" 5 "bob" ] bob_network).1
           "alice:s1" 5).
  vm_compute. reflexivity.
Defined.

(** X14. An ephemeral message without a [count], from a source not seen
    before, is delivered each time it arrives: [undefined] is stored as the
    count of the source, which reads as a source never seen. *)
Theorem countless_ephemeral_is_not_deduplicated (ns : Network.NetworkSubsystem)
    (msg : Message) (n : nat) :
  isRepoMessage msg = true ->
  isEphemeralMessage msg = true ->
  count msg = None ->
  Network.ephemeralSessionCounts ns !! Network.getEphemeralMessageSource msg = None ->
  Network.receive_all (List.repeat msg n) ns
  = (ns, List.repeat (Network.EmitMessage msg) n).
Proof.
  intros Hrepo Heph Hc Hsrc.
  assert (Network.on_message msg ns = (ns, [Network.EmitMessage msg])) as Hstep.
  { unfold Network.on_message. rewrite Hrepo, Heph, Hsrc, Hc. simpl.
    unfold Network.set_ephemeralSessionCounts. rewrite delete_id by exact Hsrc.
    destruct ns. reflexivity. }
  induction n as [|n IH]; simpl; [reflexivity|].
  rewrite Hstep, IH. reflexivity.
Qed.

Lemma countless_ephemeral_is_not_deduplicated_witness :
  Network.receive_all (List.repeat (new_ephemeral "bob") 3) bob_network
  = (bob_network, List.repeat (Network.EmitMessage (new_ephemeral "bob")) 3).
Proof.
  apply (countless_ephemeral_is_not_deduplicated bob_network (new_ephemeral "bob") 3);
    reflexivity.
Defined.

(* ===================================================================== *)
(** ** Repo.js: documents that are not in the cache *)
(* ===================================================================== *)

Lemma find_uncached `{UuidPackage} (r : Repo) (id : AutomergeUrl.IdValue) (documentId : string) :
  AutomergeUrl.interpretAsDocumentId id = Returns documentId ->
  handleCache r !! documentId = None ->
  Repo_find id r
  = (Returns (List.length (handles r)),
     set_trace (AttemptLoad (List.length (handles r)) :: trace r)
       (set_storageSubsystem (storage_request (LoadDoc documentId) <$> storageSubsystem r)
          (set_handleCache (<[documentId := List.length (handles r)]> (handleCache r))
             (set_handles (handles r ++ [Handle.constructor documentId]) r)))).
Proof.
  intros Hid Hc.
  pose proof (interpret_not_empty id documentId Hid) as Hne.
  unfold Repo_find, bindM, liftR, gets. rewrite Hid. simpl. rewrite Hc.
  rewrite (getHandle_fresh r documentId Hc Hne). reflexivity.
Qed.

(** X15. [find] is keyed by the document: two expressions of one document
    (its documentId, its URL, its bytes, a legacy UUID) give the same handle;
    the second [find] constructs none and leaves the cache as it is. *)
Theorem find_is_keyed_by_the_document `{UuidPackage} (r : Repo)
    (id1 id2 : AutomergeUrl.IdValue) (documentId : string) :
  cache_consistent r ->
  AutomergeUrl.interpretAsDocumentId id1 = Returns documentId ->
  AutomergeUrl.interpretAsDocumentId id2 = Returns documentId ->
  exists h r1,
    Repo_find id1 r = (Returns h, r1)
    /\ (Repo_find id2 r1).1 = Returns h
    /\ handles (Repo_find id2 r1).2 = handles r1
    /\ handleCache (Repo_find id2 r1).2 = handleCache r1.
Proof.
  intros Hr H1 H2.
  assert (forall r1 h d,
             handleCache r1 !! documentId = Some h -> handles r1 !! h = Some d ->
             (Repo_find id2 r1).1 = Returns h
             /\ handles (Repo_find id2 r1).2 = handles r1
             /\ handleCache (Repo_find id2 r1).2 = handleCache r1) as Hagain.
  { intros r1 h d Hc Hd. rewrite (find_cached r1 id2 documentId h d H2 Hc Hd).
    destruct (Handle.isUnavailable d); repeat split. }
  destruct (handleCache r !! documentId) as [h|] eqn:Hc.
  - destruct (Hr documentId h Hc) as (d & Hd & _).
    eexists _, _. split; [apply (find_cached r id1 documentId h d H1 Hc Hd)|].
    apply (Hagain _ h d); destruct (Handle.isUnavailable d); assumption.
  - eexists _, _. split; [apply (find_uncached r id1 documentId H1 Hc)|].
    apply (Hagain _ _ (Handle.constructor documentId)); simpl.
    + apply lookup_insert_eq.
    + apply lookup_snoc.
Qed.

Lemma getHandle_returns (r : Repo) (id : string) :
  id <> "" ->
  exists h r1,
    Repo_getHandle id r = (Returns h, r1)
    /\ storageSubsystem r1 = storageSubsystem r
    /\ (List.length (handles r) <= List.length (handles r1))%nat.
Proof.
  intros Hne. destruct (handleCache r !! id) as [h|] eqn:Hc.
  - exists h, r. rewrite (getHandle_cached r id h Hc). repeat split. lia.
  - eexists _, _. rewrite (getHandle_fresh r id Hc Hne). repeat split.
    simpl. rewrite List.length_app. lia.
Qed.

(** X16. [delete] leaves no tombstone: a [find] of the same document after
    [delete] constructs a new handle, distinct from every handle there was,
    caches it and asks the storage to load the document that was just
    removed. *)
Theorem find_after_delete `{UuidPackage} (r : Repo) (id : AutomergeUrl.IdValue)
    (documentId : string) :
  AutomergeUrl.interpretAsDocumentId id = Returns documentId ->
  let r1 := (Repo_delete id r).2 in
  (List.length (handles r) <= List.length (handles r1))%nat
  /\ (Repo_find id r1).1 = Returns (List.length (handles r1))
  /\ handles (Repo_find id r1).2 = handles r1 ++ [Handle.constructor documentId]
  /\ handleCache (Repo_find id r1).2 !! documentId = Some (List.length (handles r1))
  /\ storageSubsystem (Repo_find id r1).2
     = storage_request (LoadDoc documentId)
       <$> (storage_request (RemoveDoc documentId) <$> storageSubsystem r).
Proof.
  intros Hid r1.
  pose proof (interpret_not_empty id documentId Hid) as Hne.
  destruct (getHandle_returns r documentId Hne) as (h & r0 & Hget & Hst & Hlen).
  pose proof (delete_run r r0 id documentId h Hid Hget) as Hrun.
  assert (handleCache r1 !! documentId = None) as Hc.
  { unfold r1. rewrite Hrun. simpl. apply lookup_delete_eq. }
  assert (List.length (handles r1) = List.length (handles r0)) as Hl.
  { unfold r1. rewrite Hrun. simpl. apply length_alter. }
  assert (storageSubsystem r1 = storage_request (RemoveDoc documentId) <$> storageSubsystem r)
    as Hs.
  { unfold r1. rewrite Hrun. simpl. rewrite Hst. reflexivity. }
  rewrite (find_uncached r1 id documentId Hid Hc). simpl.
  split; [lia|]. split; [reflexivity|]. split; [reflexivity|].
  split; [apply lookup_insert_eq | rewrite Hs; reflexivity].
Qed.

Lemma find_after_delete_witness :
  let r1 := (@Repo_delete UuidModel.package (AutomergeUrl.VString sample_id)
               sample_repo_with_document).2 in
  (List.length (handles sample_repo_with_document) <= List.length (handles r1))%nat
  /\ (@Repo_find UuidModel.package (AutomergeUrl.VString sample_id) r1).1
     = Returns (List.length (handles r1))
  /\ handles (@Repo_find UuidModel.package (AutomergeUrl.VString sample_id) r1).2
     = handles r1 ++ [Handle.constructor sample_id]
  /\ handleCache (@Repo_find UuidModel.package (AutomergeUrl.VString sample_id) r1).2
     !! sample_id = Some (List.length (handles r1))
  /\ storageSubsystem (@Repo_find UuidModel.package (AutomergeUrl.VString sample_id) r1).2
     = storage_request (LoadDoc sample_id)
       <$> (storage_request (RemoveDoc sample_id)
            <$> storageSubsystem sample_repo_with_document).
Proof.
  apply (@find_after_delete UuidModel.package sample_repo_with_document
           (AutomergeUrl.VString sample_id) sample_id).
  vm_compute. reflexivity.
Defined.

Lemma find_is_keyed_by_the_document_witness :
  exists h r1,
    @Repo_find UuidModel.package (AutomergeUrl.VString sample_id) sample_repo = (Returns h, r1)
    /\ (@Repo_find UuidModel.package
          (AutomergeUrl.VString "automerge:4NMNnkMhL8jXrdJ9jamS58PAVdXu") r1).1 = Returns h
    /\ handles (@Repo_find UuidModel.package
                  (AutomergeUrl.VString "automerge:4NMNnkMhL8jXrdJ9jamS58PAVdXu") r1).2
       = handles r1
    /\ handleCache (@Repo_find UuidModel.package
                      (AutomergeUrl.VString "automerge:4NMNnkMhL8jXrdJ9jamS58PAVdXu") r1).2
       = handleCache r1.
Proof.
  apply (@find_is_keyed_by_the_document UuidModel.package sample_repo
           (AutomergeUrl.VString sample_id)
           (AutomergeUrl.VString "automerge:4NMNnkMhL8jXrdJ9jamS58PAVdXu") sample_id).
  - intros id h Hc. vm_compute in Hc. discriminate Hc.
  - vm_compute. reflexivity.
  - vm_compute. reflexivity.
Defined.

(** *** Flush *)

Lemma all_settled_throws {A : Type} (l : list A) (body : A -> M unit) (x : A) :
  In x l ->
  (forall r, exists e, (body x r).1 = Throws e) ->
  forall r, exists e, (all_settled l body r).1 = Throws e.
Proof.
  intros Hin Hx. induction l as [|y l IH]; [destruct Hin|].
  intros r. simpl.
  destruct (body y r) as [[u|e] r'] eqn:Hy; simpl.
  - destruct Hin as [<-|Hin].
    + destruct (Hx r) as (e & He). rewrite Hy in He. discriminate He.
    + apply (IH Hin).
  - eexists. reflexivity.
Qed.

Lemma flush_keeps {B : Type} (proj : Repo -> B) (documents : option (list string)) (r : Repo) :
  (forall st r', proj (set_storageSubsystem st r') = proj r') ->
  proj (Repo_flush documents r).2 = proj r.
Proof.
  intros Hst.
  assert (preserves (fun r' => proj r' = proj r) (Repo_flush documents)) as Hm.
  { unfold Repo_flush.
    repeat first
      [ apply preserves_ret | apply preserves_throw | apply preserves_gets
      | apply preserves_handle_get | apply preserves_all_settled; intros ?
      | apply preserves_bind; [| intros ?]
      | match goal with
        | |- preserves _ (match ?x with _ => _ end) => destruct x
        end
      | apply preserves_modify_field; intros; apply Hst ]. }
  apply Hm. reflexivity.
Qed.

(** X17. [flush] with a documentId that is not in the cache is rejected
    (with storage configured); [flush] never changes the cache, the handles or
    the events; without storage it returns at once. *)
Theorem flush_of_an_uncached_document :
  (forall (r : Repo) (st : StorageSubsystem) (documents : list string) (id : string),
      storageSubsystem r = Some st ->
      In id documents ->
      handleCache r !! id = None ->
      exists e, (Repo_flush (Some documents) r).1 = Throws e)
  /\ (forall (r : Repo) (documents : option (list string)),
         handleCache (Repo_flush documents r).2 = handleCache r
         /\ handles (Repo_flush documents r).2 = handles r
         /\ trace (Repo_flush documents r).2 = trace r)
  /\ (forall (r : Repo) (documents : option (list string)),
         storageSubsystem r = None -> Repo_flush documents r = (Returns tt, r)).
Proof.
  split; [|split].
  - intros r st documents id Hst Hin Hc.
    unfold Repo_flush, bindM, gets. rewrite Hst. simpl.
    apply (all_settled_throws _ _ None).
    + apply in_map_iff. exists id. split; [exact Hc | exact Hin].
    + intros r'. eexists. reflexivity.
  - intros r documents. repeat split; apply flush_keeps; reflexivity.
  - intros r documents Hst. unfold Repo_flush, bindM, gets. rewrite Hst. reflexivity.
Qed.

(** *** The "sync-state" listener on a document that is not cached *)

(** X18. A "sync-state" event for a document that is not in the cache,
    from a peer with a storageId, throws a [TypeError] in the listener (the
    handle is [undefined]); cache, handles and events are as before. *)
Theorem sync_state_of_an_uncached_document (r : Repo)
    (payload : SyncStatePayload) (m : PeerMetadata) (storage : string) :
  handleCache r !! sp_documentId payload = None ->
  peerMetadataByPeerId r !! sp_peerId payload = Some m ->
  storageId m = Some storage ->
  storage <> "" ->
  (Repo_on_sync_state payload r).1 = Throws (TypeError "Cannot read properties of undefined")
  /\ handles (Repo_on_sync_state payload r).2 = handles r
  /\ handleCache (Repo_on_sync_state payload r).2 = handleCache r
  /\ trace (Repo_on_sync_state payload r).2 = trace r.
Proof.
  intros Hc Hm Hs Hne.
  destruct (saveSyncState_cases r payload) as (r1 & Hsave & _ & _).
  assert (handleCache r1 = handleCache r /\ handles r1 = handles r /\ trace r1 = trace r
          /\ peerMetadataByPeerId r1 = peerMetadataByPeerId r) as (Hc1 & Hh1 & Ht1 & Hm1).
  { assert (forall B (proj : Repo -> B),
               (forall x r', proj (set_throttledSaveSyncStateHandlers x r') = proj r') ->
               proj r1 = proj r) as Hkeep.
    { intros B proj Hp.
      assert (preserves (fun r' => proj r' = proj r) (Repo_saveSyncState payload)) as Hk.
      { unfold Repo_saveSyncState.
        repeat first
          [ apply preserves_ret | apply preserves_gets
          | apply preserves_bind; [| intros ?]
          | match goal with
            | |- preserves _ (match ?x with _ => _ end) => destruct x
            | |- preserves _ (if ?x then _ else _) => destruct x
            end
          | apply preserves_modify_field; intros; apply Hp ]. }
      specialize (Hk r eq_refl). rewrite Hsave in Hk. exact Hk. }
    repeat split; apply Hkeep; reflexivity. }
  unfold Repo_on_sync_state. rewrite (bindM_run _ _ _ _ _ Hsave).
  unfold bindM, gets. simpl. rewrite Hc1, Hm1, Hc, Hm.
  destruct m as [sid eph]. simpl in Hs. subst sid.
  apply String.eqb_neq in Hne. rewrite Hne. simpl.
  repeat split; assumption.
Qed.

Lemma sync_state_of_an_uncached_document_witness :
  let r := @run_calls UuidModel.package
             [ Call_peer "p1"
                 (Some {| storageId := Some "disk-1"; isEphemeral := Some false |}) ]
             sample_repo in
  let payload := {| sp_documentId := sample_id; sp_peerId := "p1";
                    sp_syncState := {| theirHeads := None; encoded := [] |} |} in
  (Repo_on_sync_state payload r).1 = Throws (TypeError "Cannot read properties of undefined")
  /\ handles (Repo_on_sync_state payload r).2 = handles r
  /\ handleCache (Repo_on_sync_state payload r).2 = handleCache r
  /\ trace (Repo_on_sync_state payload r).2 = trace r.
Proof.
  apply (sync_state_of_an_uncached_document _ _
           {| storageId := Some "disk-1"; isEphemeral := Some false |} "disk-1").
  - reflexivity.
  - vm_compute. reflexivity.
  - reflexivity.
  - discriminate.
Defined.

(** *** Export of a document that is not cached *)

(** X19. [export] of a document that is not cached constructs a handle and
    caches it, with no request to the storage, no registration with the
    synchronizer and no event; a later [find] returns that handle from the
    cache, again without a request to load. *)
Theorem export_of_an_uncached_document `{UuidPackage} (r : Repo) (id : AutomergeUrl.IdValue)
    (documentId : string) :
  AutomergeUrl.interpretAsDocumentId id = Returns documentId ->
  handleCache r !! documentId = None ->
  let r1 := (Repo_export id r).2 in
  (Repo_export id r).1 = Returns (List.length (handles r))
  /\ handles r1 = handles r ++ [Handle.constructor documentId]
  /\ handleCache r1 = <[documentId := List.length (handles r)]> (handleCache r)
  /\ storageSubsystem r1 = storageSubsystem r
  /\ synchronizer r1 = synchronizer r
  /\ trace r1 = trace r
  /\ (Repo_find id r1).1 = Returns (List.length (handles r))
  /\ storageSubsystem (Repo_find id r1).2 = storageSubsystem r
  /\ handles (Repo_find id r1).2 = handles r1.
Proof.
  intros Hid Hc r1.
  pose proof (interpret_not_empty id documentId Hid) as Hne.
  assert (Repo_export id r
          = (Returns (List.length (handles r)),
             set_handleCache (<[documentId := List.length (handles r)]> (handleCache r))
               (set_handles (handles r ++ [Handle.constructor documentId]) r))) as Hrun.
  { unfold Repo_export, bindM, liftR. rewrite Hid. apply getHandle_fresh; assumption. }
  unfold r1. rewrite Hrun. simpl.
  repeat (split; [reflexivity|]).
  rewrite (find_cached _ id documentId (List.length (handles r))
             (Handle.constructor documentId) Hid).
  - simpl. repeat split.
  - simpl. apply lookup_insert_eq.
  - simpl. apply lookup_snoc.
Qed.

Lemma export_of_an_uncached_document_witness :
  let id := AutomergeUrl.VString sample_id in
  let r1 := (@Repo_export UuidModel.package id sample_repo).2 in
  (@Repo_export UuidModel.package id sample_repo).1 = Returns (List.length (handles sample_repo))
  /\ handles r1 = handles sample_repo ++ [Handle.constructor sample_id]
  /\ handleCache r1 = <[sample_id := List.length (handles sample_repo)]> (handleCache sample_repo)
  /\ storageSubsystem r1 = storageSubsystem sample_repo
  /\ synchronizer r1 = synchronizer sample_repo
  /\ trace r1 = trace sample_repo
  /\ (@Repo_find UuidModel.package id r1).1 = Returns (List.length (handles sample_repo))
  /\ storageSubsystem (@Repo_find UuidModel.package id r1).2 = storageSubsystem sample_repo
  /\ handles (@Repo_find UuidModel.package id r1).2 = handles r1.
Proof.
  apply (@export_of_an_uncached_document UuidModel.package sample_repo
           (AutomergeUrl.VString sample_id) sample_id).
  - vm_compute. reflexivity.
  - reflexivity.
Defined.

(* ===================================================================== *)
(** ** Repo.js and CollectionSynchronizer.js: what every call keeps *)
(* ===================================================================== *)

(** *** What every call keeps: a generic walk through the steps of a call *)

(** Walks through the steps of a call; [leaf] closes the steps that change the
    state. *)
Ltac call_steps leaf :=
  repeat first
    [ leaf
    | apply preserves_ret | apply preserves_throw | apply preserves_liftR
    | apply preserves_gets | apply preserves_handle_get
    | apply preserves_catch_log | apply preserves_when
    | apply preserves_for_each; intros ? | apply preserves_all_settled; intros ?
    | apply preserves_bind; [| intros ?]
    | match goal with
      | |- preserves _ (match ?x with _ => _ end) => destruct x
      end
    | progress unfold handle_call, effect, Repo_getHandle, Repo_find,
        CollectionSynchronizer_documentGenerousPeers,
        CollectionSynchronizer_initDocSynchronizer,
        CollectionSynchronizer_fetchDocSynchronizer,
        DocSynchronizer_beginSync_call, DocSynchronizer_endSync_call,
        CollectionSynchronizer_receiveMessage, CollectionSynchronizer_addDocument,
        CollectionSynchronizer_addPeer, CollectionSynchronizer_removePeer,
        Repo_registerHandleWithSubsystems, Repo_find_then, Repo_create, Repo_clone,
        Repo_import, Repo_on_delete_document, Repo_delete, Repo_export,
        Repo_removeFromCache, Repo_removeFromCache_then, Repo_receiveMessage,
        Repo_on_peer, Repo_on_peer_disconnected, Repo_saveSyncState, Repo_on_sync_state,
        Repo_throttle_fire, Repo_on_heads_changed, Repo_flush,
        CollectionSynchronizer_onLoadSyncState ].

(** A call keeps a field that none of its steps writes. *)
Ltac keeps_all := call_steps ltac:(solve [apply preserves_modify_field; reflexivity]).

Lemma keeps_run {A B : Type} (proj : Repo -> B) (m : M A) (r : Repo) :
  preserves (fun r' => proj r' = proj r) m -> proj (m r).2 = proj r.
Proof. intros Hm. apply Hm. reflexivity. Qed.

(** *** Peer metadata *)

Lemma addPeer_keeps_metadata (peer : string) (r : Repo) :
  peerMetadataByPeerId (CollectionSynchronizer_addPeer peer r).2 = peerMetadataByPeerId r.
Proof. apply keeps_run. keeps_all. Qed.

Lemma on_peer_metadata (peer : string) (meta : option PeerMetadata) (r : Repo) :
  peerMetadataByPeerId (Repo_on_peer peer meta r).2
  = match meta with
    | Some m => <[peer := m]> (peerMetadataByPeerId r)
    | None => peerMetadataByPeerId r
    end.
Proof.
  unfold Repo_on_peer. destruct meta as [m|].
  - unfold bindM at 1. unfold modify at 1. apply addPeer_keeps_metadata.
  - unfold bindM at 1. unfold ret at 1. apply addPeer_keeps_metadata.
Qed.

Lemma other_calls_keep_metadata `{UuidPackage} (c : RepoCall) (r : Repo) :
  (forall peer meta, c <> Call_peer peer meta) ->
  peerMetadataByPeerId (run_call c r) = peerMetadataByPeerId r.
Proof.
  intros Hc.
  destruct c; try (exfalso; eapply Hc; reflexivity); unfold run_call; apply keeps_run;
    keeps_all.
Qed.

Lemma call_keeps_metadata_of `{UuidPackage} (c : RepoCall) (r : Repo) (peer : string) :
  (forall m, c <> Call_peer peer (Some m)) ->
  peerMetadataByPeerId (run_call c r) !! peer = peerMetadataByPeerId r !! peer.
Proof.
  intros Hc.
  destruct (match c with Call_peer _ _ => true | _ => false end) eqn:Hk.
  - destruct c; try discriminate Hk. simpl. rewrite on_peer_metadata.
    destruct meta as [m|]; [|reflexivity].
    apply lookup_insert_ne. intros ->. apply (Hc m). reflexivity.
  - rewrite other_calls_keep_metadata; [reflexivity|].
    intros p meta ->. discriminate Hk.
Qed.

(** X20. The metadata of a peer is written by the "peer" events of that
    peer that carry metadata, and by nothing else: no other call changes it,
    "peer-disconnected" does not remove it, and a reconnection without
    metadata leaves the old storageId in place. *)
Theorem peer_metadata_outlives_the_connection `{UuidPackage} :
  (forall (cs : list RepoCall) (r : Repo) (peer : string),
      Forall (fun c => forall m, c <> Call_peer peer (Some m)) cs ->
      peerMetadataByPeerId (run_calls cs r) !! peer = peerMetadataByPeerId r !! peer
      /\ Repo_getStorageIdOfPeer peer (run_calls cs r) = Repo_getStorageIdOfPeer peer r)
  /\ (forall (r : Repo) (peer : string) (m : PeerMetadata),
         Repo_getStorageIdOfPeer peer (run_call (Call_peer peer (Some m)) r) = storageId m
         /\ Repo_getStorageIdOfPeer peer
              (run_calls [Call_peer peer (Some m); Call_peer_disconnected peer;
                          Call_peer peer None] r)
            = storageId m).
Proof.
  assert (forall (cs : list RepoCall) (r : Repo) (peer : string),
             Forall (fun c => forall m, c <> Call_peer peer (Some m)) cs ->
             peerMetadataByPeerId (run_calls cs r) !! peer = peerMetadataByPeerId r !! peer)
    as Hkeep.
  { induction cs as [|c cs IH]; intros r peer Hcs; [reflexivity|].
    apply Forall_cons in Hcs as [Hc Hcs]. simpl.
    rewrite (IH _ _ Hcs). apply call_keeps_metadata_of, Hc. }
  assert (forall (r : Repo) (peer : string) (m : PeerMetadata),
             peerMetadataByPeerId (run_call (Call_peer peer (Some m)) r) !! peer = Some m)
    as Hset.
  { intros r peer m. simpl. rewrite on_peer_metadata. apply lookup_insert_eq. }
  split.
  - intros cs r peer Hcs. split; [apply Hkeep, Hcs|].
    unfold Repo_getStorageIdOfPeer. rewrite (Hkeep cs r peer Hcs). reflexivity.
  - intros r peer m. split.
    + unfold Repo_getStorageIdOfPeer. rewrite Hset. reflexivity.
    + unfold Repo_getStorageIdOfPeer.
      change (run_calls [Call_peer peer (Some m); Call_peer_disconnected peer;
                         Call_peer peer None] r)
        with (run_calls [Call_peer_disconnected peer; Call_peer peer None]
                (run_call (Call_peer peer (Some m)) r)).
      rewrite Hkeep, Hset; [reflexivity|].
      repeat constructor; intros m'; discriminate.
Qed.

(** *** The peers of the synchronizer *)

Lemma for_each_returns {A : Type} (l : list A) (body : A -> M unit) :
  (forall x r, (body x r).1 = Returns tt) ->
  forall r, (for_each l body r).1 = Returns tt.
Proof.
  intros Hb. induction l as [|x l IH]; intros r; simpl; [reflexivity|].
  unfold bindM. specialize (Hb x r). destruct (body x r) as [[[]|e] r']; simpl in Hb.
  - apply IH.
  - discriminate Hb.
Qed.

Lemma beginSync_returns (id : string) (ps : list string) (r : Repo) :
  (DocSynchronizer_beginSync_call id ps r).1 = Returns tt.
Proof. reflexivity. Qed.

Lemma addPeer_new_run (peer : string) (r : Repo) :
  peer ∉ peers (synchronizer r) ->
  CollectionSynchronizer_addPeer peer r
  = for_each (map_to_list (docSynchronizers (synchronizer r)))
      (fun entry : string * DocSynchronizer =>
         let! okToShare := gets (fun r => sharePolicy r peer (Some (ds_documentId entry.2))) in
         when okToShare (DocSynchronizer_beginSync_call entry.1 [peer]))
      (set_synchronizer (set_peers (peers (synchronizer r) ++ [peer]) (synchronizer r)) r).
Proof.
  intros Hnew. unfold CollectionSynchronizer_addPeer.
  unfold bindM at 1. unfold gets at 1. rewrite bool_decide_eq_false_2 by exact Hnew.
  reflexivity.
Qed.

Lemma addPeer_new (peer : string) (r : Repo) :
  peer ∉ peers (synchronizer r) ->
  (CollectionSynchronizer_addPeer peer r).1 = Returns tt
  /\ peers (synchronizer (CollectionSynchronizer_addPeer peer r).2)
     = peers (synchronizer r) ++ [peer].
Proof.
  intros Hnew. rewrite (addPeer_new_run peer r Hnew). split.
  - apply for_each_returns. intros x r'. unfold bindM, gets, when.
    destruct (sharePolicy r' peer _); reflexivity.
  - match goal with
    | |- peers (synchronizer (for_each ?l ?body ?r0).2) = _ =>
        apply (keeps_run (fun r' => peers (synchronizer r')) (for_each l body) r0)
    end.
    keeps_all.
Qed.

Lemma addPeer_known (peer : string) (r : Repo) :
  peer ∈ peers (synchronizer r) -> CollectionSynchronizer_addPeer peer r = (Returns tt, r).
Proof.
  intros Hin. unfold CollectionSynchronizer_addPeer, bindM, gets.
  rewrite bool_decide_eq_true_2 by exact Hin. reflexivity.
Qed.

(** X21. [addPeer] returns, the peer is among the peers afterwards, and a
    second [addPeer] of the same peer changes nothing. *)
Theorem addPeer_is_idempotent (peer : string) (r : Repo) :
  let r1 := (CollectionSynchronizer_addPeer peer r).2 in
  (CollectionSynchronizer_addPeer peer r).1 = Returns tt
  /\ peer ∈ Repo_peers r1
  /\ CollectionSynchronizer_addPeer peer r1 = (Returns tt, r1).
Proof.
  intros r1.
  assert ((CollectionSynchronizer_addPeer peer r).1 = Returns tt /\ peer ∈ Repo_peers r1)
    as [Hret Hin].
  { destruct (decide (peer ∈ peers (synchronizer r))) as [Hk|Hk].
    - unfold r1. rewrite (addPeer_known peer r Hk). split; [reflexivity | exact Hk].
    - destruct (addPeer_new peer r Hk) as [Hr Hp]. split; [exact Hr|].
      unfold Repo_peers, r1. rewrite Hp. apply elem_of_app. right. apply list_elem_of_singleton.
      reflexivity. }
  split; [exact Hret|]. split; [exact Hin|]. apply addPeer_known, Hin.
Qed.

Lemma removePeer_peers (peer : string) (r : Repo) :
  peers (synchronizer (CollectionSynchronizer_removePeer peer r).2)
  = List.filter (fun p => negb (String.eqb p peer)) (peers (synchronizer r)).
Proof.
  unfold CollectionSynchronizer_removePeer.
  unfold bindM at 1. unfold modify at 1.
  match goal with
  | |- peers (synchronizer (?m ?r0).2) = ?rhs =>
      change rhs with (peers (synchronizer r0));
      apply (keeps_run (fun r' => peers (synchronizer r')) m r0)
  end.
  keeps_all.
Qed.

Lemma peers_once_addPeer (peer : string) :
  preserves (fun r => NoDup (peers (synchronizer r))) (CollectionSynchronizer_addPeer peer).
Proof.
  intros r Hr. destruct (decide (peer ∈ peers (synchronizer r))) as [Hk|Hk].
  - rewrite (addPeer_known peer r Hk). exact Hr.
  - destruct (addPeer_new peer r Hk) as [_ ->].
    apply NoDup_app. split; [exact Hr|]. split.
    + intros x Hx Hx'. apply list_elem_of_singleton in Hx'. subst x. exact (Hk Hx).
    + apply NoDup_singleton.
Qed.

Lemma peers_once_removePeer (peer : string) :
  preserves (fun r => NoDup (peers (synchronizer r)))
    (CollectionSynchronizer_removePeer peer).
Proof.
  intros r Hr. rewrite removePeer_peers.
  apply NoDup_ListNoDup, List.NoDup_filter, NoDup_ListNoDup, Hr.
Qed.

Lemma peers_once_run_call `{UuidPackage} (c : RepoCall) (r : Repo) :
  NoDup (peers (synchronizer r)) -> NoDup (peers (synchronizer (run_call c r))).
Proof.
  intros Hr.
  assert (forall A (m : M A),
             preserves (fun r' => peers (synchronizer r') = peers (synchronizer r)) m ->
             NoDup (peers (synchronizer (m r).2))) as Hsame.
  { intros A m Hm. rewrite (Hm r eq_refl). exact Hr. }
  destruct c; unfold run_call;
    try solve [apply Hsame; keeps_all].
  - (* peer *)
    unfold Repo_on_peer. destruct meta as [m|];
      unfold bindM at 1; [unfold modify at 1 | unfold ret at 1];
      apply peers_once_addPeer; exact Hr.
  - apply peers_once_removePeer, Hr.
Qed.

(** X22. The peers of the synchronizer, as the getter [peers] lists them,
    have no duplicate after any sequence of calls on a new Repo;
    "peer-disconnected" removes the peer and no other. *)
Theorem peers_are_listed_once `{UuidPackage} :
  (forall (storage : bool) (policy : option (string -> option string -> bool)) (gossip : bool)
          (calls : list RepoCall),
      NoDup (Repo_peers (run_calls calls (Repo_constructor storage policy gossip))))
  /\ (forall (r : Repo) (peer : string),
         peer ∉ Repo_peers (run_call (Call_peer_disconnected peer) r))
  /\ (forall (r : Repo) (peer other : string),
         other <> peer ->
         other ∈ Repo_peers r ->
         other ∈ Repo_peers (run_call (Call_peer_disconnected peer) r)).
Proof.
  split; [|split].
  - intros storage policy gossip calls. unfold Repo_peers.
    assert (forall cs r, NoDup (peers (synchronizer r)) ->
                         NoDup (peers (synchronizer (run_calls cs r)))) as Hall.
    { induction cs as [|c cs IH]; intros r Hr; [exact Hr|].
      simpl. apply IH, peers_once_run_call, Hr. }
    apply Hall. constructor.
  - intros r peer. unfold Repo_peers. simpl. unfold Repo_on_peer_disconnected.
    rewrite removePeer_peers. intros Hin.
    apply list_elem_of_In, List.filter_In in Hin as [_ Hne].
    rewrite String.eqb_refl in Hne. discriminate.
  - intros r peer other Hne Hin. unfold Repo_peers in *. simpl.
    unfold Repo_on_peer_disconnected. rewrite removePeer_peers.
    apply list_elem_of_In, List.filter_In. split; [apply list_elem_of_In, Hin|].
    apply negb_true_iff, String.eqb_neq, Hne.
Qed.

(** *** What addPeer and removePeer ask of the synchronizers *)

Lemma for_each_trace {A : Type} (events : A -> Repo -> list RepoEffect) (body : A -> M unit)
    (Q : Repo -> Repo -> Prop) :
  (forall r, Q r r) ->
  (forall r1 r2 r3, Q r1 r2 -> Q r2 r3 -> Q r1 r3) ->
  (forall x r r', Q r r' -> events x r' = events x r) ->
  (forall x r, exists r', body x r = (Returns tt, r') /\ Q r r'
                          /\ trace r' = events x r ++ trace r) ->
  forall (l : list A) (r : Repo),
    exists r', for_each l body r = (Returns tt, r') /\ Q r r'
               /\ trace r' = rev (flat_map (fun x => rev (events x r)) l) ++ trace r.
Proof.
  intros Hrefl Htrans Hev Hbody. induction l as [|x l IH]; intros r.
  - exists r. repeat split. apply Hrefl.
  - destruct (Hbody x r) as (r1 & Hrun & HQ & Ht).
    destruct (IH r1) as (r2 & Hrun2 & HQ2 & Ht2).
    exists r2. split; [|split].
    + simpl. unfold bindM. rewrite Hrun. exact Hrun2.
    + apply (Htrans _ _ _ HQ HQ2).
    + rewrite Ht2, Ht. simpl. rewrite rev_app_distr, rev_involutive, <- app_assoc.
      f_equal.
      * f_equal. apply flat_map_ext. intros y. f_equal. apply (Hev y r r1 HQ).
Qed.




(** *** A message marks its document as set up *)

Lemma receiveMessage_sets_docSetUp `{UuidPackage} (r : Repo) (msg : Message) (id : string) :
  documentId msg = Some id -> id <> "" ->
  docSetUp (synchronizer (CollectionSynchronizer_receiveMessage msg r).2) !! id = Some true.
Proof.
  intros Hd Hne. unfold CollectionSynchronizer_receiveMessage. rewrite Hd.
  apply String.eqb_neq in Hne. rewrite Hne.
  unfold bindM at 1. unfold modify at 1.
  match goal with
  | |- docSetUp (synchronizer (?m ?r0).2) !! id = _ =>
      rewrite (keeps_run (fun r' => docSetUp (synchronizer r')) m r0)
  end.
  - simpl. apply lookup_insert_eq.
  - keeps_all.
Qed.

(** X25. Once a message for a document has been received, [addDocument]
    for that document does nothing: [receiveMessage] sets the flag before
    anything else, also when it goes on to throw. *)
Theorem addDocument_after_a_message `{UuidPackage} (r : Repo) (msg : Message) (id : string) :
  documentId msg = Some id -> id <> "" ->
  let r1 := (CollectionSynchronizer_receiveMessage msg r).2 in
  CollectionSynchronizer_addDocument id r1 = (Returns tt, r1).
Proof.
  intros Hd Hne r1.
  pose proof (receiveMessage_sets_docSetUp r msg id Hd Hne) as Hset. fold r1 in Hset.
  unfold CollectionSynchronizer_addDocument, bindM, gets. rewrite Hset. reflexivity.
Qed.

Lemma addDocument_after_a_message_witness :
  let r1 := (@CollectionSynchronizer_receiveMessage UuidModel.package (sync_to "p1")
               sample_repo).2 in
  @CollectionSynchronizer_addDocument UuidModel.package sample_id r1 = (Returns tt, r1).
Proof.
  apply (@addDocument_after_a_message UuidModel.package sample_repo (sync_to "p1") sample_id).
  - reflexivity.
  - discriminate.
Defined.

(** X26. A sync message whose documentId is not a documentId: the error of
    [find] is caught, no handle and no synchronizer is made and no event is
    emitted, yet the document is marked as set up. *)
Theorem message_with_an_invalid_documentId `{UuidPackage} (r : Repo) (msg : Message)
    (id : string) (e : JsError) :
  existsb (String.eqb (type msg)) ["sync"; "request"; "ephemeral"; "doc-unavailable"] = true ->
  documentId msg = Some id -> id <> "" ->
  docSynchronizers (synchronizer r) !! id = None ->
  AutomergeUrl.interpretAsDocumentId (AutomergeUrl.VString (AutomergeUrl.urlPrefix +:+ id))
  = Throws e ->
  Repo_receiveMessage msg r
  = (Returns tt,
     set_synchronizer
       (set_docSetUp (<[id := true]> (docSetUp (synchronizer r))) (synchronizer r)) r).
Proof.
  intros Ht Hd Hne Hds He.
  unfold Repo_receiveMessage. rewrite Ht.
  unfold catch_log, CollectionSynchronizer_receiveMessage. rewrite Hd.
  apply String.eqb_neq in Hne. rewrite Hne.
  unfold bindM at 1. unfold modify at 1.
  unfold CollectionSynchronizer_fetchDocSynchronizer.
  unfold bindM at 1. unfold bindM at 1. unfold gets at 1. cbn [synchronizer set_synchronizer
    docSynchronizers set_docSetUp]. rewrite Hds.
  unfold bindM at 1. unfold liftR at 1. cbn [AutomergeUrl.stringifyAutomergeUrl bindR].
  unfold bindM at 1. unfold Repo_find. unfold bindM at 1. unfold liftR at 1.
  rewrite He. reflexivity.
Qed.

Lemma message_with_an_invalid_documentId_witness :
  @Repo_receiveMessage UuidModel.package
    {| type := "sync"; senderId := Some "p1"; targetId := "me"; documentId := Some "no-such-id";
       count := None; sessionId := None; data := Some [] |} sample_repo
  = (Returns tt,
     set_synchronizer
       (set_docSetUp (<["no-such-id" := true]> (docSetUp (synchronizer sample_repo)))
          (synchronizer sample_repo)) sample_repo).
Proof.
  apply (@message_with_an_invalid_documentId UuidModel.package sample_repo _ "no-such-id"
           (Error "Invalid AutomergeUrl: 'automerge:no-such-id'")).
  - reflexivity.
  - reflexivity.
  - discriminate.
  - reflexivity.
  - vm_compute. reflexivity.
Defined.

(** *** The ids in the cache *)

Lemma preserves_bind_liftR {A B : Type} (P : Repo -> Prop) (x : Result A) (k : A -> M B) :
  (forall a, x = Returns a -> preserves P (k a)) -> preserves P (bindM (liftR x) k).
Proof.
  intros Hk r HP. unfold bindM, liftR. destruct x as [a|e]; [|exact HP].
  apply (Hk a eq_refl), HP.
Qed.

Lemma preserves_bind_gets {A B : Type} (P : Repo -> Prop) (f : Repo -> A) (k : A -> M B) :
  (forall r, P r -> P (k (f r) r).2) -> preserves P (bindM (gets f) k).
Proof. intros Hk r HP. apply Hk, HP. Qed.

Lemma preserves_for_each_in {A : Type} (P : Repo -> Prop) (l : list A) (body : A -> M unit) :
  (forall x, In x l -> preserves P (body x)) -> preserves P (for_each l body).
Proof.
  induction l as [|x l IH]; intros Hb; simpl.
  - apply preserves_ret.
  - apply preserves_bind; [apply Hb; left; reflexivity|].
    intros _. apply IH. intros y Hy. apply Hb. right. exact Hy.
Qed.

Lemma preserves_and {A : Type} (P Q : Repo -> Prop) (m : M A) :
  preserves P m -> preserves Q m -> preserves (fun r => P r /\ Q r) m.
Proof. intros HP HQ r [Hp Hq]. split; [apply HP, Hp | apply HQ, Hq]. Qed.

Section CachedIds.
Context `{UuidPackage}.

Lemma interpret_decodes (id : AutomergeUrl.IdValue) (documentId : string) :
  AutomergeUrl.interpretAsDocumentId id = Returns documentId ->
  exists b, Bs58check.decodeUnsafe documentId = Returns (Some b).
Proof.
  assert (forall b d, AutomergeUrl.binaryToDocumentId b = Returns d ->
                      exists b', Bs58check.decodeUnsafe d = Returns (Some b')) as Henc.
  { intros b d Hd. exists b. destruct (bs58check_decode_encode b) as (s & Hs & Hdec & _).
    unfold AutomergeUrl.binaryToDocumentId in Hd. rewrite Hs in Hd. injection Hd as <-.
    exact Hdec. }
  destruct id as [b|s]; unfold AutomergeUrl.interpretAsDocumentId.
  - apply Henc.
  - destruct (AutomergeUrl.isValidAutomergeUrl (AutomergeUrl.VString s)).
    + destruct (AutomergeUrl.parseAutomergeUrl s) as [p|e] eqn:E; simpl;
        [|intros Hx; discriminate Hx].
      intros [= <-]. apply parse_returns_inv in E as [_ Hd]. eexists. exact Hd.
    + destruct (AutomergeUrl.isValidDocumentId (AutomergeUrl.VString s)) as [[|]|e] eqn:Hv;
        cbn [bindR]; try (intros Hx; discriminate Hx).
      * intros [= <-]. apply valid_id_decodes, Hv.
      * destruct (AutomergeUrl.isValidUuid (AutomergeUrl.VString s));
          [|intros Hx; discriminate Hx].
        destruct (uuid_parse s) as [b'|e]; simpl; [|intros Hx; discriminate Hx].
        apply Henc.
Qed.

Lemma parsed_decodes (url : string) (p : AutomergeUrl.ParsedUrl) :
  AutomergeUrl.parseAutomergeUrl url = Returns p ->
  exists b, Bs58check.decodeUnsafe (AutomergeUrl.documentId p) = Returns (Some b).
Proof. intros Hp. apply parse_returns_inv in Hp as [_ Hd]. eexists. exact Hd. Qed.

Lemma decodes_frame (f : Repo -> Repo) :
  (forall r, handleCache (f r) = handleCache r) -> preserves ids_decode (modify f).
Proof. intros Hf. apply preserves_modify. intros r Hr id h. rewrite Hf. apply Hr. Qed.

Lemma decodes_delete (id : string) :
  preserves ids_decode (modify (fun r => set_handleCache (delete id (handleCache r)) r)).
Proof.
  apply preserves_modify. intros r Hr id' h Hc. simpl in Hc.
  apply lookup_delete_Some in Hc as [_ Hc]. apply (Hr _ _ Hc).
Qed.

Lemma decodes_insert (id : string) (h : nat) :
  (exists b, Bs58check.decodeUnsafe id = Returns (Some b)) ->
  preserves ids_decode (modify (fun r => set_handleCache (<[id := h]> (handleCache r)) r)).
Proof.
  intros Hd. apply preserves_modify. intros r Hr id' h' Hc. simpl in Hc.
  destruct (decide (id = id')) as [<-|Hne]; [exact Hd|].
  rewrite lookup_insert_ne in Hc by exact Hne. apply (Hr _ _ Hc).
Qed.

Lemma decodes_removeFromCache (id : string) : preserves ids_decode (Repo_removeFromCache id).
Proof.
  intros r Hr. unfold Repo_removeFromCache, bindM, gets, effect, modify. simpl.
  destruct (handleCache r !! id) as [h|] eqn:Hc; simpl.
  - rewrite (getHandle_cached r id h Hc). exact Hr.
  - exact Hr.
Qed.

(** A call keeps the ids of the cache decodable. *)
Ltac decodes_call :=
  call_steps
    ltac:(first
            [ solve [apply decodes_frame; reflexivity]
            | solve [apply decodes_delete]
            | solve [apply decodes_removeFromCache]
            | solve [apply decodes_insert;
                     first [ eapply interpret_decodes; eassumption
                           | eapply parsed_decodes; eassumption ]]
            | apply preserves_bind_liftR; intros ? ? ]).

Lemma decodes_run_call (c : RepoCall) (r : Repo) : ids_decode r -> ids_decode (run_call c r).
Proof.
  intros Hr.
  assert (forall A (m : M A), preserves ids_decode m -> ids_decode (m r).2) as Huse.
  { intros A m Hm. apply Hm, Hr. }
  destruct c; unfold run_call; apply Huse; decodes_call.
Qed.

(** X27. After any sequence of calls on a new Repo, every documentId in
    the handle cache is a base58check string: it decodes, and its bytes
    encode back to it. *)
Theorem cached_ids_are_documentIds (storage : bool)
    (policy : option (string -> option string -> bool)) (gossip : bool)
    (calls : list RepoCall) (id : string) (h : nat) :
  handleCache (run_calls calls (Repo_constructor storage policy gossip)) !! id = Some h ->
  exists b, AutomergeUrl.documentIdToBinary (Some id) = Returns (Some b)
            /\ AutomergeUrl.binaryToDocumentId b = Returns id.
Proof.
  assert (forall cs r, ids_decode r -> ids_decode (run_calls cs r)) as Hall.
  { induction cs as [|c cs IH]; intros r Hr; [exact Hr|].
    simpl. apply IH, decodes_run_call, Hr. }
  intros Hc.
  destruct (Hall calls (Repo_constructor storage policy gossip)) with (id := id) (h := h)
    as (b & Hb); [|exact Hc|].
  - intros id' h' Hc'. simpl in Hc'. rewrite lookup_empty in Hc'. discriminate.
  - exists b. split; [exact Hb | apply bs58check_encode_decode, Hb].
Qed.

End CachedIds.

Lemma cached_ids_are_documentIds_witness :
  exists b, AutomergeUrl.documentIdToBinary (Some sample_id) = Returns (Some b)
            /\ AutomergeUrl.binaryToDocumentId b = Returns sample_id.
Proof.
  apply (@cached_ids_are_documentIds UuidModel.package true None false
           [ Call_peer "p1" None; Call_create sample_v4 None ] sample_id 0%nat).
  vm_compute. reflexivity.
Defined.

(** *** The synchronizers of the collection *)

(** What [#fetchDocSynchronizer] does when the document has no synchronizer
    yet. *)
Lemma fetch_new `{UuidPackage} (r : Repo) (id : string) :
  docSynchronizers (synchronizer r) !! id = None ->
  CollectionSynchronizer_fetchDocSynchronizer id r
  = match Repo_find (AutomergeUrl.VString (AutomergeUrl.urlPrefix +:+ id)) r with
    | (Returns h, r1) =>
        match handles r1 !! h with
        | Some d =>
            let ds := {| ds_handle := h; ds_documentId := Handle.documentId d;
                         ds_peers := [] |} in
            (Returns ds,
             set_synchronizer
               (set_docSynchronizers (<[id := ds]> (docSynchronizers (synchronizer r1)))
                  (synchronizer r1))
               (set_trace (NewDocSynchronizer (Handle.documentId d) h :: trace r1) r1))
        | None => (Throws (TypeError "Cannot read properties of undefined"), r1)
        end
    | (Throws e, r1) => (Throws e, r1)
    end.
Proof.
  intros Hnone. unfold CollectionSynchronizer_fetchDocSynchronizer.
  unfold bindM at 1. unfold gets at 1. rewrite Hnone.
  unfold bindM at 1. unfold liftR at 1. cbn [AutomergeUrl.stringifyAutomergeUrl bindR].
  unfold bindM at 1.
  destruct (Repo_find _ r) as [[h|e] r1]; [|reflexivity].
  unfold CollectionSynchronizer_initDocSynchronizer, bindM, handle_get, effect, modify, ret.
  destruct (handles r1 !! h) as [d|]; reflexivity.
Qed.

Lemma fetch_known `{UuidPackage} (r : Repo) (id : string) (ds : DocSynchronizer) :
  docSynchronizers (synchronizer r) !! id = Some ds ->
  CollectionSynchronizer_fetchDocSynchronizer id r = (Returns ds, r).
Proof.
  intros Hds. unfold CollectionSynchronizer_fetchDocSynchronizer, bindM, gets.
  rewrite Hds. reflexivity.
Qed.

Lemma find_keeps_synchronizer `{UuidPackage} (id : AutomergeUrl.IdValue) (r : Repo) :
  synchronizer (Repo_find id r).2 = synchronizer r.
Proof. apply keeps_run. keeps_all. Qed.

Section SynchronizerEntries.
Context `{UuidPackage}.
Variables (id : string) (h : nat).

Lemma entry_frame (f : Repo -> Repo) :
  (forall r, docSynchronizers (synchronizer (f r)) = docSynchronizers (synchronizer r)) ->
  preserves (synchronizer_on id h) (modify f).
Proof.
  intros Hf. apply preserves_modify. intros r (ds & Hds & Hh).
  exists ds. rewrite Hf. split; assumption.
Qed.

Lemma entry_alter (g : DocSynchronizer -> DocSynchronizer) (key : string) :
  (forall ds, ds_handle (g ds) = ds_handle ds) ->
  preserves (synchronizer_on id h)
    (modify (fun r =>
       set_synchronizer
         (set_docSynchronizers (alter g key (docSynchronizers (synchronizer r)))
            (synchronizer r)) r)).
Proof.
  intros Hg. apply preserves_modify. intros r (ds & Hds & Hh). simpl.
  destruct (decide (key = id)) as [->|Hne].
  - exists (g ds). simpl. rewrite lookup_alter_eq, Hds.
    split; [reflexivity | rewrite Hg; exact Hh].
  - exists ds. simpl. rewrite lookup_alter_ne by exact Hne. split; assumption.
Qed.

Lemma entry_fetch (key : string) :
  preserves (synchronizer_on id h) (CollectionSynchronizer_fetchDocSynchronizer key).
Proof.
  intros r (ds & Hds & Hh).
  destruct (docSynchronizers (synchronizer r) !! key) as [ds'|] eqn:Hkey.
  - rewrite (fetch_known r key ds' Hkey). exists ds. split; assumption.
  - rewrite (fetch_new r key Hkey).
    pose proof (find_keeps_synchronizer
                  (AutomergeUrl.VString (AutomergeUrl.urlPrefix +:+ key)) r) as Hsame.
    destruct (Repo_find _ r) as [[h'|e] r1]; simpl in Hsame.
    + destruct (handles r1 !! h') as [d|]; simpl.
      * exists ds. simpl. rewrite Hsame. split; [|exact Hh].
        rewrite lookup_insert_ne; [exact Hds|]. intros ->. congruence.
      * exists ds. simpl. rewrite Hsame. split; assumption.
    + exists ds. simpl. rewrite Hsame. split; assumption.
Qed.

Lemma entry_run_call (c : RepoCall) (r : Repo) :
  synchronizer_on id h r -> synchronizer_on id h (run_call c r).
Proof.
  intros Hr.
  assert (forall A (m : M A), preserves (synchronizer_on id h) m ->
                              synchronizer_on id h (m r).2) as Huse.
  { intros A m Hm. apply Hm, Hr. }
  destruct c; unfold run_call; apply Huse;
    call_steps
      ltac:(first [ solve [apply entry_fetch]
                  | solve [apply entry_frame; reflexivity]
                  | solve [apply entry_alter; reflexivity] ]).
Qed.

End SynchronizerEntries.

(** X28. No call of the Repo removes or replaces the synchronizer of a
    document: it keeps the handle it was made on, also after the handle has
    left the cache and [find] has made another. *)
Theorem synchronizer_keeps_its_handle `{UuidPackage} (calls : list RepoCall) (r : Repo)
    (id : string) (h : nat) :
  synchronizer_on id h r -> synchronizer_on id h (run_calls calls r).
Proof.
  revert r. induction calls as [|c cs IH]; intros r Hr; [exact Hr|].
  simpl. apply IH, entry_run_call, Hr.
Qed.

(** The document is created, removed from the cache and found again: the
    cache holds the second handle, the synchronizer still the first. *)
Lemma synchronizer_keeps_its_handle_witness :
  synchronizer_on sample_id 0
    (@run_calls UuidModel.package
       [ Call_removeFromCache sample_id; Call_removeFromCache_then sample_id 0%nat;
         Call_find (AutomergeUrl.VString sample_id); Call_find_then 1%nat None ]
       sample_repo_with_document).
Proof.
  apply (@synchronizer_keeps_its_handle UuidModel.package).
  eexists. split; [vm_compute; reflexivity | reflexivity].
Defined.

Example stale_synchronizer_handle :
  handleCache
    (@run_calls UuidModel.package
       [ Call_removeFromCache sample_id; Call_removeFromCache_then sample_id 0%nat;
         Call_find (AutomergeUrl.VString sample_id); Call_find_then 1%nat None ]
       sample_repo_with_document) !! sample_id = Some 1%nat.
Proof. vm_compute. reflexivity. Qed.

(** *** The share policy *)

Lemma find_returns_handle `{UuidPackage} (r r1 : Repo) (id : AutomergeUrl.IdValue) (h : nat) :
  cache_consistent r ->
  Repo_find id r = (Returns h, r1) ->
  exists documentId d,
    AutomergeUrl.interpretAsDocumentId id = Returns documentId
    /\ handles r1 !! h = Some d /\ Handle.documentId d = documentId.
Proof.
  intros Hr Hf.
  destruct (AutomergeUrl.interpretAsDocumentId id) as [documentId|e] eqn:Hid.
  2:{ unfold Repo_find, bindM, liftR in Hf. rewrite Hid in Hf. discriminate Hf. }
  exists documentId.
  destruct (handleCache r !! documentId) as [h0|] eqn:Hc.
  - destruct (Hr documentId h0 Hc) as (d & Hd & Hdoc).
    rewrite (find_cached r id documentId h0 d Hid Hc Hd) in Hf. injection Hf as <- <-.
    exists d. split; [reflexivity|]. split; [|exact Hdoc].
    destruct (Handle.isUnavailable d); exact Hd.
  - rewrite (find_uncached r id documentId Hid Hc) in Hf. injection Hf as <- <-.
    exists (Handle.constructor documentId). split; [reflexivity|]. simpl.
    split; [apply lookup_snoc | reflexivity].
Qed.

Section SharePolicy.
Context `{UuidPackage}.

(** The uuid package takes no URL of the package for a UUID. *)
Hypothesis uuid_rejects_urls :
  forall s : string, uuid_validate (AutomergeUrl.urlPrefix +:+ s) = false.

Variable pol : string -> option string -> bool.

Local Abbreviation I := (shares_by pol).

Lemma interpret_url_key (id documentId : string) :
  AutomergeUrl.interpretAsDocumentId (AutomergeUrl.VString (AutomergeUrl.urlPrefix +:+ id))
  = Returns documentId ->
  documentId = id.
Proof.
  unfold AutomergeUrl.interpretAsDocumentId.
  destruct (AutomergeUrl.isValidAutomergeUrl _).
  - destruct (AutomergeUrl.parseAutomergeUrl _) as [p|e] eqn:Hp; cbn [bindR];
      [|intros Hx; discriminate Hx].
    intros [= <-]. apply parse_returns_inv in Hp as [Hp _].
    apply append_inj_prefix in Hp. symmetry. exact Hp.
  - unfold AutomergeUrl.isValidDocumentId, AutomergeUrl.documentIdToBinary,
      AutomergeUrl.isValidUuid.
    rewrite uuid_rejects_urls.
    destruct (Bs58check.decodeUnsafe (AutomergeUrl.urlPrefix +:+ id)) as [[b|]|e] eqn:Hd;
      cbn [bindR]; try (intros Hx; discriminate Hx).
    exfalso. exact (url_does_not_decode id b Hd).
Qed.

Lemma shares_modify (f : Repo -> Repo) :
  (forall r, handleCache (f r) = handleCache r) ->
  (forall r, handles (f r) = handles r) ->
  (forall r, docSynchronizers (synchronizer (f r)) = docSynchronizers (synchronizer r)) ->
  (forall r, sharePolicy (f r) = sharePolicy r) ->
  (forall r, trace (f r) = trace r) ->
  preserves I (modify f).
Proof.
  intros Hc Hh Hd Hp Ht. apply preserves_modify. intros r (Hcc & Hk & Hpol & Hres).
  repeat split.
  - intros id h. rewrite Hc, Hh. apply Hcc.
  - intros id ds. rewrite Hd. apply Hk.
  - rewrite Hp. exact Hpol.
  - intros id ps. rewrite Ht. apply Hres.
Qed.

Lemma shares_effect (e : RepoEffect) :
  (forall id ps, e <> DocSynchronizer_beginSync id ps) ->
  preserves I (modify (fun r => set_trace (e :: trace r) r)).
Proof.
  intros He. apply preserves_modify. intros r (Hcc & Hk & Hpol & Hres).
  repeat split; try assumption.
  intros id ps [Heq|Hin]; [exfalso; exact (He _ _ Heq) | apply (Hres _ _ Hin)].
Qed.

Lemma shares_handles (g : Repo -> Repo) :
  (forall r, cache_consistent r -> cache_consistent (g r)) ->
  (forall r, docSynchronizers (synchronizer (g r)) = docSynchronizers (synchronizer r)) ->
  (forall r, sharePolicy (g r) = sharePolicy r) ->
  (forall r, trace (g r) = trace r) ->
  forall r, I r -> I (g r).
Proof.
  intros Hc Hd Hp Ht r (Hcc & Hk & Hpol & Hres). repeat split.
  - apply Hc, Hcc.
  - intros id ds. rewrite Hd. apply Hk.
  - rewrite Hp. exact Hpol.
  - intros id ps. rewrite Ht. apply Hres.
Qed.

Lemma shares_handle_alter (h : nat) (g : Handle.DocHandle -> Handle.DocHandle) :
  (forall d, Handle.documentId (g d) = Handle.documentId d) ->
  preserves I (modify (fun r => set_handles (alter g h (handles r)) r)).
Proof.
  intros Hg. apply preserves_modify. apply shares_handles; try reflexivity.
  intros r Hr. apply (consistent_handle_call h g Hg r Hr).
Qed.

Lemma shares_cache_delete (id : string) :
  preserves I (modify (fun r => set_handleCache (delete id (handleCache r)) r)).
Proof.
  apply preserves_modify. apply shares_handles; try reflexivity.
  intros r Hr. apply (consistent_cache_delete id r Hr).
Qed.

Lemma getHandle_keeps {B : Type} (proj : Repo -> B) (id : string) (r : Repo) :
  (forall x r', proj (set_handles x r') = proj r') ->
  (forall x r', proj (set_handleCache x r') = proj r') ->
  proj (Repo_getHandle id r).2 = proj r.
Proof.
  intros Hh Hc. unfold Repo_getHandle, bindM, gets, modify, ret, throw. simpl.
  destruct (handleCache r !! id); [reflexivity|].
  destruct (String.eqb id ""); [reflexivity|]. simpl. rewrite Hc, Hh. reflexivity.
Qed.

Lemma shares_getHandle (id : string) : preserves I (Repo_getHandle id).
Proof.
  intros r HI.
  apply (shares_handles (fun r => (Repo_getHandle id r).2)); [| | | |exact HI].
  - intros r0 Hr0. apply (consistent_getHandle id r0 Hr0).
  - intros r0. apply (getHandle_keeps (fun r => docSynchronizers (synchronizer r))); reflexivity.
  - intros r0. apply (getHandle_keeps sharePolicy); reflexivity.
  - intros r0. apply (getHandle_keeps trace); reflexivity.
Qed.

Lemma shares_ds_alter (g : DocSynchronizer -> DocSynchronizer) (key : string) :
  (forall ds, ds_documentId (g ds) = ds_documentId ds) ->
  preserves I
    (modify (fun r =>
       set_synchronizer
         (set_docSynchronizers (alter g key (docSynchronizers (synchronizer r)))
            (synchronizer r)) r)).
Proof.
  intros Hg. apply preserves_modify. intros r (Hcc & Hk & Hpol & Hres).
  repeat split; try assumption.
  intros id ds. simpl. destruct (decide (key = id)) as [->|Hne].
  - rewrite lookup_alter_eq. destruct (docSynchronizers (synchronizer r) !! id) as [ds0|] eqn:E;
      simpl; [|discriminate].
    intros [= <-]. rewrite Hg. apply (Hk _ _ E).
  - rewrite lookup_alter_ne by exact Hne. apply Hk.
Qed.

Lemma shares_beginSync (id : string) (ps : list string) :
  (forall p, In p ps -> pol p (Some id) = true) ->
  preserves I (DocSynchronizer_beginSync_call id ps).
Proof.
  intros Hps. unfold DocSynchronizer_beginSync_call.
  apply preserves_bind; [|intros _; apply shares_ds_alter; reflexivity].
  unfold effect. apply preserves_modify. intros r (Hcc & Hk & Hpol & Hres).
  repeat split; try assumption.
  intros id' ps' [Heq|Hin]; [|apply (Hres _ _ Hin)].
  injection Heq as <- <-. exact Hps.
Qed.

(** The steps of a call that has no [beginSync] of its own. *)
Ltac shares_steps special :=
  call_steps
    ltac:(first
            [ special
            | solve [apply shares_getHandle]
            | solve [apply shares_modify; reflexivity]
            | solve [apply shares_effect; intros; discriminate]
            | solve [apply shares_cache_delete]
            | solve [apply shares_handle_alter; intros;
                     first [ reflexivity | apply doneLoading_id | apply request_id
                           | apply unload_id | apply handle_method_id ]]
            | solve [apply shares_ds_alter; reflexivity] ]).

Lemma shares_find (id : AutomergeUrl.IdValue) : preserves I (Repo_find id).
Proof. unfold Repo_find. shares_steps fail. Qed.

Lemma shares_fetch (id : string) : preserves I (CollectionSynchronizer_fetchDocSynchronizer id).
Proof.
  intros r HI.
  destruct (docSynchronizers (synchronizer r) !! id) as [ds|] eqn:Hkey.
  - rewrite (fetch_known r id ds Hkey). exact HI.
  - rewrite (fetch_new r id Hkey).
    pose proof (shares_find (AutomergeUrl.VString (AutomergeUrl.urlPrefix +:+ id)) r HI) as HI1.
    destruct (Repo_find _ r) as [[h|e] r1] eqn:Hf; simpl in HI1; [|exact HI1].
    destruct HI as (Hcc & _).
    destruct (find_returns_handle r r1 _ h Hcc Hf) as (documentId & d & Hid & Hd & Hdoc).
    apply interpret_url_key in Hid. subst documentId.
    rewrite Hd. simpl. destruct HI1 as (Hcc1 & Hk1 & Hpol1 & Hres1).
    repeat split; try assumption.
    + intros id' ds'. simpl. destruct (decide (id = id')) as [<-|Hne].
      * rewrite lookup_insert_eq. intros [= <-]. exact Hdoc.
      * rewrite lookup_insert_ne by exact Hne. apply Hk1.
    + intros id' ps [Heq|Hin]; [discriminate Heq | apply (Hres1 _ _ Hin)].
Qed.

Lemma generous_allowed (r : Repo) (id : string) (known : list string) (p : string) :
  sharePolicy r = pol ->
  In p (List.filter (fun peer => negb (bool_decide (peer ∈ known)))
          (List.filter (fun peer => sharePolicy r peer (Some id)) (peers (synchronizer r)))) ->
  pol p (Some id) = true.
Proof.
  intros Hpol Hin. apply List.filter_In in Hin as [Hin _].
  apply List.filter_In in Hin as [_ Hok]. rewrite Hpol in Hok. exact Hok.
Qed.

Lemma shares_addDocument (id : string) : preserves I (CollectionSynchronizer_addDocument id).
Proof.
  unfold CollectionSynchronizer_addDocument.
  apply preserves_bind; [apply preserves_gets|]. intros setUp.
  assert (preserves I
            (let! docSynchronizer := CollectionSynchronizer_fetchDocSynchronizer id in
             let! generous := CollectionSynchronizer_documentGenerousPeers id in
             DocSynchronizer_beginSync_call id generous)) as Hrun.
  { apply preserves_bind; [apply shares_fetch|]. intros _.
    unfold CollectionSynchronizer_documentGenerousPeers.
    apply preserves_bind_gets. intros r HI.
    apply shares_beginSync; [|exact HI].
    intros p Hin. apply List.filter_In in Hin as [_ Hok].
    destruct HI as (_ & _ & Hpol & _). rewrite Hpol in Hok. exact Hok. }
  destruct setUp as [[|]|]; [apply preserves_ret | exact Hrun | exact Hrun].
Qed.

Lemma shares_sync_receiveMessage (message : Message) :
  preserves I (CollectionSynchronizer_receiveMessage message).
Proof.
  unfold CollectionSynchronizer_receiveMessage.
  destruct (documentId message) as [id|]; [|apply preserves_throw].
  destruct (String.eqb id ""); [apply preserves_throw|].
  apply preserves_bind; [apply shares_modify; reflexivity|]. intros _.
  apply preserves_bind; [apply shares_fetch|]. intros docSynchronizer.
  apply preserves_bind; [apply shares_effect; intros; discriminate|]. intros _.
  unfold CollectionSynchronizer_documentGenerousPeers.
  apply preserves_bind_gets. intros r HI.
  unfold bindM, gets.
  apply shares_beginSync; [|exact HI].
  intros p Hin. destruct HI as (_ & _ & Hpol & _).
  apply (generous_allowed r id _ p Hpol Hin).
Qed.

Lemma shares_addPeer (peer : string) : preserves I (CollectionSynchronizer_addPeer peer).
Proof.
  intros r HI. destruct (decide (peer ∈ peers (synchronizer r))) as [Hk|Hk].
  - rewrite (addPeer_known peer r Hk). exact HI.
  - rewrite (addPeer_new_run peer r Hk).
    pose proof HI as (_ & Hkeys & _).
    apply preserves_for_each_in.
    + intros [key ds] Hin. apply list_elem_of_In, elem_of_map_to_list, Hkeys in Hin.
      simpl in Hin. simpl.
      apply preserves_bind_gets. intros r' HI'. rewrite Hin.
      destruct (sharePolicy r' peer (Some key)) eqn:Hok; simpl; [|exact HI'].
      apply shares_beginSync; [|exact HI'].
      intros p [<-|[]]. destruct HI' as (_ & _ & Hpol & _). rewrite Hpol in Hok. exact Hok.
    + apply (shares_modify
               (fun r => set_synchronizer
                           (set_peers (peers (synchronizer r) ++ [peer]) (synchronizer r)) r));
        try reflexivity.
      exact HI.
Qed.

Ltac shares_call :=
  shares_steps
    ltac:(first [ solve [apply shares_find] | solve [apply shares_addDocument]
                | solve [apply shares_sync_receiveMessage] | solve [apply shares_addPeer] ]).

Lemma shares_run_call (c : RepoCall) (r : Repo) : I r -> I (run_call c r).
Proof.
  intros Hr.
  assert (forall A (m : M A), preserves I m -> I (m r).2) as Huse.
  { intros A m Hm. apply Hm, Hr. }
  destruct c; unfold run_call; apply Huse; shares_call.
Qed.

Lemma shares_run_calls (cs : list RepoCall) : forall r, I r -> I (run_calls cs r).
Proof.
  induction cs as [|c cs IH]; intros r Hr; [exact Hr|].
  simpl. apply IH, shares_run_call, Hr.
Qed.

End SharePolicy.

(** X29. After any sequence of calls on a new Repo, every [beginSync] that
    the collection synchronizer has called was with peers that the share
    policy shares the document with, provided the uuid package takes no URL
    for a UUID. *)
Theorem share_policy_is_respected `{UuidPackage}
    (storage : bool) (policy : option (string -> option string -> bool)) (gossip : bool)
    (calls : list RepoCall) (id : string) (ps : list string) (p : string) :
  (forall s : string, uuid_validate (AutomergeUrl.urlPrefix +:+ s) = false) ->
  In (DocSynchronizer_beginSync id ps)
    (trace (run_calls calls (Repo_constructor storage policy gossip))) ->
  In p ps ->
  sharePolicy (Repo_constructor storage policy gossip) p (Some id) = true.
Proof.
  intros Huuid Hin Hp.
  set (r0 := Repo_constructor storage policy gossip) in *.
  assert (shares_by (sharePolicy r0) r0) as H0.
  { repeat split.
    - apply consistent_constructor.
    - intros k ds Hk. simpl in Hk. rewrite lookup_empty in Hk. discriminate.
    - intros k l [].  }
  destruct (shares_run_calls Huuid (sharePolicy r0) calls r0 H0) as (_ & _ & _ & Hres).
  apply (Hres id ps Hin p Hp).
Qed.

Lemma uuid_model_rejects_urls (s : string) :
  UuidModel.validate (AutomergeUrl.urlPrefix +:+ s) = false.
Proof.
  unfold UuidModel.validate.
  change (AutomergeUrl.urlPrefix +:+ s)
    with (String "a" (String "u" (String "t" (String "o" (String "m" (String "e"
            (String "r" (String "g" (String "e" (String ":" s)))))))))).
  cbn [list_ascii_of_string]. cbn. rewrite orb_false_r.
  apply andb_false_iff. right. reflexivity.
Qed.

(** Two peers connect, one of them shut out by the policy, and a document is
    created: sync begins with the other alone. *)
Lemma share_policy_is_respected_witness :
  sharePolicy (Repo_constructor true (Some (fun p _ => String.eqb p "p1")) false)
    "p1" (Some sample_id) = true.
Proof.
  apply (@share_policy_is_respected UuidModel.package true
           (Some (fun p _ => String.eqb p "p1")) false
           [ Call_peer "p1" None; Call_peer "p2" None; Call_create sample_v4 None ]
           sample_id ["p1"] "p1").
  - exact uuid_model_rejects_urls.
  - vm_compute. right. left. reflexivity.
  - left. reflexivity.
Defined.

Example share_policy_example :
  List.filter (fun e => match e with DocSynchronizer_beginSync _ _ => true | _ => false end)
    (trace (@run_calls UuidModel.package
              [ Call_peer "p1" None; Call_peer "p2" None; Call_create sample_v4 None;
                Call_peer "p3" None; Call_peer "p1" None ]
              (Repo_constructor true (Some (fun p _ => negb (String.eqb p "p2"))) false)))
  = [ DocSynchronizer_beginSync sample_id ["p3"];
      DocSynchronizer_beginSync sample_id ["p1"] ].
Proof. vm_compute. reflexivity. Qed.
